(** * slack-weather-radar-map: the slash-command handler of [src/index.ts]

  A shallow embedding of the handler that answers [/amesh <prefecture> <mode>]
  with a rain-radar image (mode [now]) or an animated GIF (mode [today], or
  the forecast by default), and the properties of its specification.

  The program:
  - [Moment]: the part of moment-timezone the handler uses (an instant with
    a UTC offset, day/hour/minute arithmetic, [format('YYYYMMDDHHmm')]);
    [Calendar]: the Gregorian calendar, against which the format is proved.
  - [Js], [Url]: template strings, and [buildImageUrl] with the process
    environment it reads.
  - [Table]: the [prefectures] object and JavaScript property lookup on it.
  - [Promise]: outcomes of asynchronous operations and [Promise.all].
  - [Bot]: the world the handler acts on (Slack, the map service, the canvas
    and the GIF encoder) and the handler itself.  The handler is a function
    of an environment that fixes how every asynchronous operation ends, and
    when and in which order the responses of the map service arrive; it
    returns the calls it made and the rejections that the runtime reported
    as unhandled, in order, and the state of the canvas and encoder.
  - [Spec], [Sample]: statements of the specification and sample
    environments.
  - [Config], [More]: the name of the slash command, and what further
    statements about the handler need: the requests it sends to Slack, the
    calls of the chain behind the frames, projections of the trace.

  The proofs: [CalendarFacts], [PromiseFacts], [BotFacts], [SampleFacts],
  [MoreFacts], [TextFacts], [ChainFacts], [RunFacts], [StampFacts]; then
  the properties C1 to C10, and the further properties X1 to X24. *)

From Stdlib Require Import ZArith Lia Bool Ascii.
From stdpp Require Import gmap strings list pretty.

Local Open Scope Z_scope.

(* ================================================================== *)
(** ** Moments *)
(* ================================================================== *)

Module Moment.

(** A moment is an instant (milliseconds since the epoch, as [valueOf()]
    returns it) displayed at a UTC offset (minutes east of Greenwich, as
    [utcOffset()] returns it). *)
Record Moment : Type := mk {
  valueOf : Z;
  utcOffset : Z
}.

Definition msPerMinute : Z := 60000.
Definition msPerHour : Z := 3600000.
Definition msPerDay : Z := 86400000.

(** [moment()]: the current instant, displayed in the local time zone of
    the process. *)
Definition moment (clock : Z) (localOffset : Z) : Moment :=
  {| valueOf := clock; utcOffset := localOffset |}.

(** Asia/Tokyo is nine hours east of Greenwich; Japan has had no summer
    time since 1951, so the offset is the same at every instant a command
    can be invoked. *)
Definition tokyoOffset : Z := 540.

(** [m.tz('Asia/Tokyo')]: the same instant, displayed in Tokyo. *)
Definition tz_Tokyo (m : Moment) : Moment :=
  {| valueOf := valueOf m; utcOffset := tokyoOffset |}.

Inductive Unit : Type := Minutes | Hour | Day.

(** Minutes and hours are added to the instant.  Days are added on the
    calendar, keeping the time of day on the wall clock; where the offset
    of the zone never changes, that is 24 hours. *)
Definition msPer (u : Unit) : Z :=
  match u with
  | Minutes => msPerMinute
  | Hour => msPerHour
  | Day => msPerDay
  end.

Definition add (n : Z) (u : Unit) (m : Moment) : Moment :=
  {| valueOf := valueOf m + n * msPer u; utcOffset := utcOffset m |}.

Definition subtract (n : Z) (u : Unit) (m : Moment) : Moment :=
  {| valueOf := valueOf m - n * msPer u; utcOffset := utcOffset m |}.

(** The wall clock: the instant shifted by the offset, which the getters
    read as if it were UTC. *)
Definition wallClock (m : Moment) : Z :=
  valueOf m + utcOffset m * msPerMinute.

(** Day number and time within the day ([/] and [mod] round down). *)
Definition dayNumber (m : Moment) : Z := wallClock m / msPerDay.
Definition timeInDay (m : Moment) : Z := wallClock m mod msPerDay.

(** Year, month (1 to 12) and day of the month of a day number counted
    from 1970-01-01, in the proleptic Gregorian calendar.  The computation
    works in 400-year eras of 146097 days that start on 1 March. *)
Definition civil_of_era_day (era doe : Z) : Z * Z * Z :=
  let yoe := (doe - doe / 1460 + doe / 36524 - doe / 146096) / 365 in
  let y := yoe + era * 400 in
  let doy := doe - (365 * yoe + yoe / 4 - yoe / 100) in
  let mp := (5 * doy + 2) / 153 in
  let d := doy - (153 * mp + 2) / 5 + 1 in
  let mo := if mp <? 10 then mp + 3 else mp - 9 in
  (if mo <=? 2 then y + 1 else y, mo, d).

Definition civil_from_days (z : Z) : Z * Z * Z :=
  let z' := z + 719468 in
  let era := z' / 146097 in
  civil_of_era_day era (z' - era * 146097).

Definition year (m : Moment) : Z := fst (fst (civil_from_days (dayNumber m))).
(** [month()] counts from 0; the format token [MM] prints [month() + 1]. *)
Definition month (m : Moment) : Z := snd (fst (civil_from_days (dayNumber m))) - 1.
Definition date (m : Moment) : Z := snd (civil_from_days (dayNumber m)).
Definition hours (m : Moment) : Z := timeInDay m / msPerHour.
Definition minutes (m : Moment) : Z := timeInDay m mod msPerHour / msPerMinute.

Fixpoint zeros (n : nat) : string :=
  match n with
  | O => ""
  | S n' => String "0"%char (zeros n')
  end.

(** [zeroFill(number, targetLength)]: the decimal numeral of the absolute
    value, padded on the left with zeros up to the target length, with a
    minus sign for a negative number. *)
Definition zeroFill (number : Z) (targetLength : nat) : string :=
  let absNumber := pretty (Z.abs number) in
  let zerosToFill := (targetLength - String.length absNumber)%nat in
  (if 0 <=? number then "" else "-") +:+ zeros zerosToFill +:+ absNumber.

(** [m.format('YYYYMMDDHHmm')]. *)
Definition format_YYYYMMDDHHmm (m : Moment) : string :=
  zeroFill (year m) 4 +:+ zeroFill (month m + 1) 2 +:+ zeroFill (date m) 2
  +:+ zeroFill (hours m) 2 +:+ zeroFill (minutes m) 2.

End Moment.

(* ================================================================== *)
(** ** The calendar, as a specification *)
(* ================================================================== *)

Module Calendar.

Definition is_leap (y : Z) : bool :=
  (y mod 4 =? 0) && (negb (y mod 100 =? 0) || (y mod 400 =? 0)).

(** The extra day of February. *)
Definition leap_days (y : Z) : Z := if is_leap y then 1 else 0.

Definition days_in_month (y mo : Z) : Z :=
  if mo =? 2 then (if is_leap y then 29 else 28)
  else if (mo =? 4) || (mo =? 6) || (mo =? 9) || (mo =? 11) then 30
  else 31.

(** Days from 1970-01-01 to 1 January of year [y]. *)
Definition days_before_year (y : Z) : Z :=
  365 * (y - 1970)
  + ((y - 1) / 4 - 492) - ((y - 1) / 100 - 19) + ((y - 1) / 400 - 4).

(** Days from 1 January of year [y] to the first of month [mo]. *)
Fixpoint days_before_month_aux (y : Z) (k : nat) : Z :=
  match k with
  | O => 0
  | S k' => days_before_month_aux y k' + days_in_month y (Z.of_nat k)
  end.

Definition days_before_month (y mo : Z) : Z :=
  days_before_month_aux y (Z.to_nat (mo - 1)).

(** The day number of the calendar date [y]-[mo]-[d]. *)
Definition days_from_civil (y mo d : Z) : Z :=
  days_before_year y + days_before_month y mo + (d - 1).

(** A date of the calendar. *)
Definition valid_date (y mo d : Z) : Prop :=
  1 <= mo <= 12 /\ 1 <= d <= days_in_month y mo.

(** A time of day, to the minute. *)
Definition valid_time (h mi : Z) : Prop :=
  0 <= h < 24 /\ 0 <= mi < 60.

(** The decimal digit of a number from 0 to 9. *)
Definition digit (n : Z) : ascii := ascii_of_nat (48 + Z.to_nat n).

(** The last [k] decimal digits of [n], the most significant first. *)
Fixpoint decimal (k : nat) (n : Z) : string :=
  match k with
  | O => ""
  | S k' => decimal k' (n / 10) +:+ String (digit (n mod 10)) ""
  end.

(** [YYYYMMDDHHmm]: four digits of the year, two of the month, of the day
    of the month, of the hour and of the minute. *)
Definition stamp (y mo d h mi : Z) : string :=
  decimal 4 y +:+ decimal 2 mo +:+ decimal 2 d +:+ decimal 2 h
  +:+ decimal 2 mi.

End Calendar.

(* ================================================================== *)
(** ** JavaScript values that reach a template string *)
(* ================================================================== *)

Module Js.

(** A JavaScript number that the program only stores and prints.  It is
    kept as the decimal numeral that denotes it: every literal of the
    prefecture table has at most eleven significant digits, and for such a
    number the conversion to a string prints the numeral as written. *)
Definition Number : Type := string.

(** [`${x}`] for a value that may be [undefined]. *)
Definition interpolate (x : option string) : string :=
  match x with
  | Some s => s
  | None => "undefined"
  end.

(** Truthiness of a string that may be [undefined]. *)
Definition truthy (x : option string) : bool :=
  match x with
  | Some s => negb (String.eqb s "")
  | None => false
  end.

(** [x || fallback] on strings. *)
Definition or_else (x : option string) (fallback : string) : string :=
  match x with
  | Some s => if String.eqb s "" then fallback else s
  | None => fallback
  end.

End Js.

(* ================================================================== *)
(** ** The URL builder *)
(* ================================================================== *)

Module Url.
Import Moment.

(** The variables of [process.env] that the URL builder reads. *)
Record ProcessEnv : Type := {
  YAHOO_JAPAN_API_CLIENT_ID : option string;
  YAHOO_JAPAN_API_MAP_MODE : option string
}.

Definition yahooAppId (env : ProcessEnv) : option string :=
  YAHOO_JAPAN_API_CLIENT_ID env.

Definition yahooMapMode (env : ProcessEnv) : string :=
  Js.or_else (YAHOO_JAPAN_API_MAP_MODE env) "map".

Record ImageUrlArgs : Type := {
  lat : option Js.Number;
  lon : option Js.Number;
  width : Z;
  height : Z;
  m : Moment
}.

(** Everything of the URL before the date. *)
Definition urlBeforeDate (env : ProcessEnv) (args : ImageUrlArgs) : string :=
  "https://map.yahooapis.jp/map/V1/static?appid=" +:+ Js.interpolate (yahooAppId env)
  +:+ "&z=10&lat=" +:+ Js.interpolate (lat args)
  +:+ "&lon=" +:+ Js.interpolate (lon args)
  +:+ "&width=" +:+ pretty (width args)
  +:+ "&height=" +:+ pretty (height args)
  +:+ "&mode=" +:+ yahooMapMode env
  +:+ "&overlay=type:rainfall|datelabel:on|date:".

Definition buildImageUrl (env : ProcessEnv) (args : ImageUrlArgs) : string :=
  urlBeforeDate env args +:+ format_YYYYMMDDHHmm (m args).

End Url.

(* ================================================================== *)
(** ** The prefecture table *)
(* ================================================================== *)

Module Table.

Record Prefecture : Type := mkPrefecture {
  kanjiName : string;
  lat : Js.Number;
  lon : Js.Number
}.

(** The object literal. *)
Definition literal : list (string * Prefecture) := [
  ("hokkaido", mkPrefecture "北海道" "43.06417" "141.34694");
  ("aomori", mkPrefecture "青森県" "40.82444" "140.74");
  ("iwate", mkPrefecture "岩手県" "39.70361" "141.1525");
  ("miyagi", mkPrefecture "宮城県" "38.26889" "140.87194");
  ("akita", mkPrefecture "秋田県" "39.71861" "140.1025");
  ("yamagata", mkPrefecture "山形県" "38.24056" "140.36333");
  ("fukushima", mkPrefecture "福島県" "37.75" "140.46778");
  ("ibaraki", mkPrefecture "茨城県" "36.34139" "140.44667");
  ("tochigi", mkPrefecture "栃木県" "36.56583" "139.88361");
  ("gunma", mkPrefecture "群馬県" "36.39111" "139.06083");
  ("saitama", mkPrefecture "埼玉県" "35.85694" "139.64889");
  ("chiba", mkPrefecture "千葉県" "35.60472" "140.12333");
  ("tokyo", mkPrefecture "東京都" "35.68944" "139.69167");
  ("kanagawa", mkPrefecture "神奈川県" "35.44778" "139.6425");
  ("niigata", mkPrefecture "新潟県" "37.90222" "139.02361");
  ("toyama", mkPrefecture "富山県" "36.69528" "137.21139");
  ("ishikawa", mkPrefecture "石川県" "36.59444" "136.62556");
  ("fukui", mkPrefecture "福井県" "36.06528" "136.22194");
  ("yamanashi", mkPrefecture "山梨県" "35.66389" "138.56833");
  ("nagano", mkPrefecture "長野県" "36.65139" "138.18111");
  ("gifu", mkPrefecture "岐阜県" "35.39111" "136.72222");
  ("shizuoka", mkPrefecture "静岡県" "34.97694" "138.38306");
  ("aichi", mkPrefecture "愛知県" "35.18028" "136.90667");
  ("mie", mkPrefecture "三重県" "34.73028" "136.50861");
  ("shiga", mkPrefecture "滋賀県" "35.00444" "135.86833");
  ("kyoto", mkPrefecture "京都府" "35.02139" "135.75556");
  ("osaka", mkPrefecture "大阪府" "34.68639" "135.52");
  ("hyogo", mkPrefecture "兵庫県" "34.93228" "134.89879114");
  ("nara", mkPrefecture "奈良県" "34.68528" "135.83278");
  ("wakayama", mkPrefecture "和歌山県" "34.22611" "135.1675");
  ("tottori", mkPrefecture "鳥取県" "35.50361" "134.23833");
  ("shimane", mkPrefecture "島根県" "35.47222" "133.05056");
  ("okayama", mkPrefecture "岡山県" "34.66167" "133.935");
  ("hiroshima", mkPrefecture "広島県" "34.39639" "132.45944");
  ("yamaguchi", mkPrefecture "山口県" "34.18583" "131.47139");
  ("tokushima", mkPrefecture "徳島県" "34.06583" "134.55944");
  ("kagawa", mkPrefecture "香川県" "34.34028" "134.04333");
  ("ehime", mkPrefecture "愛媛県" "33.84167" "132.76611");
  ("kochi", mkPrefecture "高知県" "33.55972" "133.53111");
  ("fukuoka", mkPrefecture "福岡県" "33.60639" "130.41806");
  ("saga", mkPrefecture "佐賀県" "33.24944" "130.29889");
  ("nagasaki", mkPrefecture "長崎県" "32.74472" "129.87361");
  ("kumamoto", mkPrefecture "熊本県" "32.78972" "130.74167");
  ("oita", mkPrefecture "大分県" "33.23806" "131.6125");
  ("miyazaki", mkPrefecture "宮崎県" "31.91111" "131.42389");
  ("kagoshima", mkPrefecture "鹿児島県" "31.56028" "130.55806");
  ("okinawa", mkPrefecture "沖縄県" "26.2125" "127.68111")
].

(** [table[alias] = table[canonical]]: the alias gets the same record.
    Every canonical name below is a key of the literal. *)
Definition assign (alias canonical : string)
    (table : gmap string Prefecture) : gmap string Prefecture :=
  match table !! canonical with
  | Some p => <[alias := p]> table
  | None => table
  end.

(** The own properties of [prefectures] once the module is loaded: the
    literal, then the seven alias assignments in the order of the source. *)
Definition prefectures : gmap string Prefecture :=
  assign "ohita" "oita"
    (assign "ooita" "oita"
      (assign "kouchi" "kochi"
        (assign "hyougo" "hyogo"
          (assign "nigata" "niigata"
            (assign "ohsaka" "osaka"
              (assign "oosaka" "osaka" (list_to_map literal))))))).

(** [prefectures] is a plain object, so a property that is not its own is
    looked up on [Object.prototype].  These are the names defined there;
    each holds a function, except [__proto__], which yields the prototype
    object itself. *)
Definition objectPrototype : list string := [
  "constructor"; "__defineGetter__"; "__defineSetter__"; "hasOwnProperty";
  "__lookupGetter__"; "__lookupSetter__"; "isPrototypeOf";
  "propertyIsEnumerable"; "toString"; "valueOf"; "__proto__";
  "toLocaleString"
].

(** What [prefectures[name]] evaluates to, when it is not [undefined]. *)
Inductive Value : Type :=
| Own (p : Prefecture)
| Inherited (name : string).

(** [prefectures[name]]; [None] is [undefined]. *)
Definition get (name : string) : option Value :=
  match prefectures !! name with
  | Some p => Some (Own p)
  | None =>
      if bool_decide (name ∈ objectPrototype) then Some (Inherited name)
      else None
  end.

(** [a || b]: objects and functions are truthy, [undefined] is not. *)
Definition or (a b : option Value) : option Value :=
  match a with
  | Some v => Some v
  | None => b
  end.

(** [v.kanjiName], [v.lat] and [v.lon]; a function or the prototype object
    has no such property, and the access yields [undefined]. *)
Definition get_kanjiName (v : Value) : option string :=
  match v with
  | Own p => Some (kanjiName p)
  | Inherited _ => None
  end.

Definition get_lat (v : Value) : option Js.Number :=
  match v with
  | Own p => Some (lat p)
  | Inherited _ => None
  end.

Definition get_lon (v : Value) : option Js.Number :=
  match v with
  | Own p => Some (lon p)
  | Inherited _ => None
  end.

End Table.

(* ================================================================== *)
(** ** Promises *)
(* ================================================================== *)

Module Promise.

(** The reason of a rejection. *)
Definition Err : Type := string.

(** How an asynchronous operation ends. *)
Inductive Outcome (A : Type) : Type :=
| Fulfilled (a : A)
| Rejected (e : Err).
Arguments Fulfilled {A} a.
Arguments Rejected {A} e.

(** The state of a promise: still pending, or settled. *)
Inductive State (A : Type) : Type :=
| Pending
| Settled (o : Outcome A).
Arguments Pending {A}.
Arguments Settled {A} o.

Section All.
Context {A : Type}.

(** [Promise.all]: an array of results indexed like the input, a count
    of the elements not yet fulfilled, and the promise it returned. *)
Record AllState : Type := {
  values : list (option A);
  remaining : nat;
  result : State (list A)
}.

Definition all_start (n : nat) : AllState :=
  {| values := replicate n None;
     remaining := n;
     result := match n with
               | O => Settled (Fulfilled [])
               | S _ => Pending
               end |}.

(** Element [i] settles.  The first rejection rejects the whole; a
    fulfilment is stored at index [i], and the last one fulfils the
    whole with the array.  A settled promise does not change. *)
Definition all_settle (i : nat) (o : Outcome A) (st : AllState) : AllState :=
  match result st with
  | Settled _ => st
  | Pending =>
      match o with
      | Rejected e =>
          {| values := values st;
             remaining := remaining st;
             result := Settled (Rejected e) |}
      | Fulfilled a =>
          let vs := <[i := Some a]> (values st) in
          let r := pred (remaining st) in
          {| values := vs;
             remaining := r;
             result := match r with
                       | O => Settled (Fulfilled (omap id vs))
                       | S _ => Pending
                       end |}
      end
  end.

(** The elements settle in the order [order] (indices into [promises],
    each listed once). *)
Fixpoint all_run (promises : list (Outcome A)) (order : list nat)
    (st : AllState) : AllState :=
  match order with
  | [] => st
  | i :: order' =>
      match promises !! i with
      | Some o => all_run promises order' (all_settle i o st)
      | None => all_run promises order' st
      end
  end.

Definition all (promises : list (Outcome A)) (order : list nat)
    : State (list A) :=
  result (all_run promises order (all_start (length promises))).

End All.
Arguments AllState A : clear implicits.

End Promise.

(* ================================================================== *)
(** ** The bot *)
(* ================================================================== *)

Module Bot.
Import Promise Moment.

(** *** Data *)

(** The fields of the slash-command payload and of the listener context
    that the handler reads. *)
Record Command : Type := { text : string; channel_id : string }.
Record Context : Type := { botToken : string }.

(** A decoded image. *)
Inductive Image : Type := Decoded (bitmap : string).

(** The canvas: the images drawn on it, the latest first.  A drawing
    covers the whole canvas and is painted over what is there. *)
Definition Canvas : Type := list Image.

(** What the GIF encoder has written to its output so far. *)
Inductive Chunk : Type :=
| Header
| Frame (snapshot : Canvas)
| Trailer.

Record GIFEncoder : Type := {
  encWidth : Z;
  encHeight : Z;
  repeat : Z;
  delay : Z;
  quality : Z;
  out : list Chunk
}.

(** A byte buffer: the body of an HTTP response, or the output of the
    encoder. *)
Inductive Buffer : Type :=
| Body (bytes : string)
| Encoded (chunks : list Chunk).

(** The answer of the Slack Web API. *)
Record Message : Type := { ts : option string }.
Record WebAPICallResult : Type := { ok : bool; message : option Message }.

(** What [console.log] is given. *)
Inductive Logged : Type :=
| LogResult (res : WebAPICallResult)
| LogError (e : Err).

(** The arguments of [chat.postMessage]; the single context block of the
    call repeats [pmText]. *)
Record PostMessageRequest : Type := {
  pmToken : string;
  pmChannel : string;
  pmText : string;
  pmAsUser : bool
}.

Record UploadRequest : Type := {
  upToken : string;
  upTitle : string;
  upFile : Buffer;
  upFilename : string;
  upFiletype : string;
  upChannels : string
}.

Record DeleteRequest : Type := {
  delToken : string;
  delChannel : string;
  delTs : string
}.

(** The calls of one invocation, in the order they are made. *)
Inductive Event : Type :=
| Ack
| HttpGet (url : string)
| ChatPostMessage (req : PostMessageRequest)
| ConsoleLog (x : Logged)
| CreateCanvas (width height : Z)
| CreateEncoder (width height : Z)
| LoadImage (buf : Buffer)
| DrawImage (img : Image)
| AddFrame
| GetData
| FilesUpload (req : UploadRequest)
| ChatDelete (req : DeleteRequest)
| Finish
| ListenerError (e : Err)
| UnhandledRejection (e : Err).

(** When the response to a request arrives: while the handler awaits the
    answer to one of its calls of [chat.postMessage] (the first is call 0),
    or afterwards, when [Promise.all] holds the requests.  A response said
    to arrive during a call that the handler does not make arrives
    afterwards. *)
Inductive Arrival : Type :=
| During (post : nat)
| Afterwards.

(** What the handler does not decide: the clock, the time zone and the
    environment of the process, how each request to the map service, each
    image load and each call of the Slack API ends, and when and in which
    order the responses of the map service arrive.  Requests and loads are
    numbered in the order they are started; the calls of
    [chat.postMessage] are numbered in the order they are made.
    [getOrder] lists the requests in the order in which their responses
    arrive; a request that it does not list is never answered.  An image
    load ends inside the call that starts it: the image library decodes a
    buffer when it is assigned to [src]. *)
Record Env : Type := {
  clock : Z;
  localOffset : Z;
  processEnv : Url.ProcessEnv;
  httpGet : nat -> string -> Outcome Buffer;
  arrives : nat -> Arrival;
  getOrder : list nat;
  loadImage : nat -> Buffer -> Outcome Image;
  chatPostMessage : nat -> PostMessageRequest -> Outcome WebAPICallResult;
  filesUpload : UploadRequest -> Outcome WebAPICallResult;
  chatDelete : DeleteRequest -> Outcome WebAPICallResult
}.

(** The state of one invocation: the calls made so far, and the canvas
    and the encoder that the invocation owns. *)
Record World : Type := {
  trace : list Event;
  canvas : Canvas;
  gifEncoder : GIFEncoder
}.

Definition start : World :=
  {| trace := [];
     canvas := [];
     gifEncoder := {| encWidth := 0; encHeight := 0; repeat := 0;
                      delay := 0; quality := 10; out := [] |} |}.

(** *** Sequencing *)

Definition M (A : Type) : Type := World -> A * World.

Definition ret {A} (a : A) : M A := fun w => (a, w).

Definition bind {A B} (c : M A) (f : A -> M B) : M B :=
  fun w => let (a, w') := c w in f a w'.

Notation "x <- c1 ;; c2" := (bind c1 (fun x => c2))
  (at level 100, c1 at next level, right associativity).
Notation "c1 ;; c2" := (bind c1 (fun _ => c2))
  (at level 100, right associativity).

Definition emit (e : Event) : M unit :=
  fun w => (tt, {| trace := trace w ++ [e];
                   canvas := canvas w;
                   gifEncoder := gifEncoder w |}).

(** [p.then(f)], [p.catch(f)] and [p.finally(f)] once [p] has settled. *)
Definition then_ {A B} (p : Outcome A) (f : A -> M (Outcome B))
    : M (Outcome B) :=
  match p with
  | Fulfilled a => f a
  | Rejected e => ret (Rejected e)
  end.

Definition catch_ {A} (p : Outcome A) (f : Err -> M (Outcome A))
    : M (Outcome A) :=
  match p with
  | Fulfilled a => ret (Fulfilled a)
  | Rejected e => f e
  end.

Definition finally_ {A} (p : Outcome A) (f : M unit) : M (Outcome A) :=
  f ;; ret p.

(** A promise whose value the chain does not read. *)
Definition forget {A} (p : Outcome A) : Outcome unit :=
  match p with
  | Fulfilled _ => Fulfilled tt
  | Rejected e => Rejected e
  end.

(** A promise that nobody holds: its rejection is reported by the
    runtime as an unhandled rejection. *)
Definition floating {A} (p : Outcome A) : M unit :=
  match p with
  | Fulfilled _ => ret tt
  | Rejected e => emit (UnhandledRejection e)
  end.

(** *** The canvas and the encoder *)

Definition createCanvas (width height : Z) : M unit :=
  emit (CreateCanvas width height) ;;
  fun w => (tt, {| trace := trace w; canvas := [];
                   gifEncoder := gifEncoder w |}).

Definition setEncoder (enc : GIFEncoder) : M unit :=
  fun w => (tt, {| trace := trace w; canvas := canvas w;
                   gifEncoder := enc |}).

Definition write (c : Chunk) (enc : GIFEncoder) : GIFEncoder :=
  {| encWidth := encWidth enc; encHeight := encHeight enc;
     repeat := repeat enc; delay := delay enc; quality := quality enc;
     out := out enc ++ [c] |}.

Definition createGIFEncoder (width height : Z) : M unit :=
  emit (CreateEncoder width height) ;;
  (* new GIFEncoder; start(); setRepeat(0); setDelay(1000); setQuality(5) *)
  setEncoder {| encWidth := width; encHeight := height; repeat := 0;
                delay := 1000; quality := 5; out := [Header] |}.

(** [ctx.drawImage(img, 0, 0, width, height)]. *)
Definition drawImage (img : Image) : M unit :=
  emit (DrawImage img) ;;
  fun w => (tt, {| trace := trace w; canvas := img :: canvas w;
                   gifEncoder := gifEncoder w |}).

(** [gifEncoder.addFrame(ctx)]: the pixels of the canvas as they are. *)
Definition addFrame : M unit :=
  emit AddFrame ;;
  fun w => (tt, {| trace := trace w; canvas := canvas w;
                   gifEncoder := write (Frame (canvas w)) (gifEncoder w) |}).

(** [gifEncoder.out.getData()]. *)
Definition getData : M Buffer :=
  emit GetData ;;
  fun w => (Encoded (out (gifEncoder w)), w).

(** [gifEncoder.finish()]. *)
Definition finish : M unit :=
  emit Finish ;;
  fun w => (tt, {| trace := trace w; canvas := canvas w;
                   gifEncoder := write Trailer (gifEncoder w) |}).

(** *** The functions of the source *)

Definition printCompleteJSON (x : Logged) : M unit :=
  emit (ConsoleLog x).

Definition extractMode (inputs : list string) : option string :=
  if decide (2 <= length inputs)%nat then inputs !! 1%nat else None.

Module ChatPostMessageArgs.
Record t : Type := {
  token : string;
  channelId : string;
  prefectureKanjiName : option string;
  asUser : bool
}.
End ChatPostMessageArgs.

(** The number of calls of [chat.postMessage] made so far. *)
Fixpoint postCalls (tr : list Event) : nat :=
  match tr with
  | [] => 0
  | ChatPostMessage _ :: tr' => S (postCalls tr')
  | _ :: tr' => postCalls tr'
  end.

Definition loadingMessage (prefectureKanjiName : option string) : string :=
  ":mag: 現在、" +:+ Js.interpolate prefectureKanjiName
  +:+ "付近の雨雲レーダーの情報を取得中です... :thunder_cloud_and_rain:".

Definition callChatPostMessage (env : Env) (args : ChatPostMessageArgs.t)
    : M (Outcome WebAPICallResult) :=
  let req :=
    {| pmToken := ChatPostMessageArgs.token args;
       pmChannel := ChatPostMessageArgs.channelId args;
       pmText := loadingMessage (ChatPostMessageArgs.prefectureKanjiName args);
       pmAsUser := ChatPostMessageArgs.asUser args |} in
  fun w =>
    (chatPostMessage env (postCalls (trace w)) req,
     snd (emit (ChatPostMessage req) w)).

(** [res.ok ? res.message.ts : undefined]; reading [ts] of a missing
    [message] throws, which rejects the promise of the [then]. *)
Definition extractMessageTs (res : WebAPICallResult)
    : M (Outcome (option string)) :=
  printCompleteJSON (LogResult res) ;;
  ret (if ok res then
         match message res with
         | Some msg => Fulfilled (ts msg)
         | None => Rejected "TypeError"
         end
       else Fulfilled None).

Module UploadImageArgs.
Record t : Type := {
  token : string;
  channelId : string;
  prefName : string;
  prefKanjiName : option string;
  radarType : string;
  file : Buffer;
  filetype : string
}.
End UploadImageArgs.

Definition uploadImage (env : Env) (args : UploadImageArgs.t)
    : M (Outcome unit) :=
  let req :=
    {| upToken := UploadImageArgs.token args;
       upTitle := Js.interpolate (UploadImageArgs.prefKanjiName args)
                  +:+ "付近の" +:+ UploadImageArgs.radarType args
                  +:+ "雨雲レーダーを表示しています";
       upFile := UploadImageArgs.file args;
       upFilename := "amesh_" +:+ UploadImageArgs.prefName args +:+ "."
                     +:+ UploadImageArgs.filetype args;
       upFiletype := "image/" +:+ UploadImageArgs.filetype args;
       upChannels := UploadImageArgs.channelId args |} in
  emit (FilesUpload req) ;;
  then_ (filesUpload env req)
    (fun res => emit (ConsoleLog (LogResult res)) ;; ret (Fulfilled tt)).

(** [promisifyImageLoader(buf)] for the [i]-th buffer: assigning the
    buffer to [src] decodes it and calls [onload] or [onerror], so the
    promise is settled when it is returned, as the environment says. *)
Definition promisifyImageLoader (env : Env) (i : nat) (buf : Buffer)
    : M (Outcome Image) :=
  emit (LoadImage buf) ;;
  ret (loadImage env i buf).

(** *** The command handler *)

(** [commandText.toLowerCase()] and [commandText.split(/\s+/)] for a text
    of ASCII characters: the letters [A] to [Z] have a lower case, and the
    white space is the space and the characters 9 to 13.  Outside ASCII the
    functions of JavaScript know more letters and more white space; what is
    stated of a command text is stated of a text of ASCII characters. *)
Definition lowerChar (c : ascii) : ascii :=
  let n := nat_of_ascii c in
  if ((65 <=? n) && (n <=? 90))%nat then ascii_of_nat (n + 32) else c.

Fixpoint toLowerCase (s : string) : string :=
  match s with
  | EmptyString => EmptyString
  | String c s' => String (lowerChar c) (toLowerCase s')
  end.

Definition isSpace (c : ascii) : bool :=
  let n := nat_of_ascii c in
  ((n =? 32) || ((9 <=? n) && (n <=? 13)))%nat.

Fixpoint splitSpaces (s : string) (current : string) (inSeparator : bool)
    : list string :=
  match s with
  | EmptyString => [current]
  | String c s' =>
      if isSpace c then
        if inSeparator then splitSpaces s' current true
        else current :: splitSpaces s' "" true
      else splitSpaces s' (current +:+ String c "") false
  end.

Definition commandInputsOf (text : string) : list string :=
  let commandText := toLowerCase text in
  if String.eqb commandText "" then [] else splitSpaces commandText "" false.

(** The loop that builds the URLs and starts the requests: [count] times,
    one request for the moment [m], which then advances by [amount] units.
    The request is numbered by the requests pushed before it. *)
Fixpoint requestLoop (env : Env) (lat lon : option Js.Number)
    (width height : Z) (count : nat) (amount : Z) (unit : Unit)
    (imageFetchRequests : list (Outcome Buffer)) (m : Moment)
    : M (list (Outcome Buffer)) :=
  match count with
  | O => ret imageFetchRequests
  | S count' =>
      let url :=
        Url.buildImageUrl (processEnv env)
          {| Url.lat := lat; Url.lon := lon; Url.width := width;
             Url.height := height; Url.m := m |} in
      emit (HttpGet url) ;;
      let req := httpGet env (length imageFetchRequests) url in
      requestLoop env lat lon width height count' amount unit
        (imageFetchRequests ++ [req]) (add amount unit m)
  end.

(** [images.map(imageBuffer => promisifyImageLoader(imageBuffer).then(..))]:
    the loads are started in the order of the array. *)
Fixpoint startLoads (env : Env) (i : nat) (images : list Buffer)
    : M (list (Outcome Image)) :=
  match images with
  | [] => ret []
  | imageBuffer :: images' =>
      p <- promisifyImageLoader env i imageBuffer ;;
      ps <- startLoads env (S i) images' ;;
      ret (p :: ps)
  end.

(** The callbacks attached to the loads run in the order of the array, as
    jobs queued when [then] found each load settled: a load that succeeded
    has its image drawn and the canvas added as a frame; a load that failed
    passes its rejection on.  The promises of the callbacks are the elements
    of the inner [Promise.all]. *)
Fixpoint paintLoaded (loads : list (Outcome Image))
    : M (list (Outcome unit)) :=
  match loads with
  | [] => ret []
  | load :: loads' =>
      drawn <- then_ load (fun img =>
                 drawImage img ;; addFrame ;; ret (Fulfilled tt)) ;;
      rest <- paintLoaded loads' ;;
      ret (drawn :: rest)
  end.

(** The inner [Promise.all] is attached while the callbacks are queued; it
    sees them settle in the order of the array, after the last of them has
    run.  Then the rest of the chain, [k], runs. *)
Definition decodeAll (env : Env) (k : Outcome (list unit) -> M unit)
    (images : list Buffer) : M unit :=
  loads <- startLoads env 0 images ;;
  drawn <- paintLoaded loads ;;
  match Promise.all drawn (seq 0 (length drawn)) with
  | Settled o => k o
  | Pending => ret tt
  end.

(** [prefectures[prefectureName] || prefectures['tokyo']]. *)
Definition resolve (prefectureName : string) : option Table.Value :=
  Table.or (Table.get prefectureName) (Table.get "tokyo").

(** The branch of mode [now]: a single image is uploaded.  Neither the
    promise of [req.then] nor the promise of the upload inside it is kept. *)
Definition uploadNow (env : Env) (command : Command) (token : string)
    (prefectureName : string) (prefecture : Table.Value)
    (width height : Z) : M unit :=
  let m := tz_Tokyo (moment (clock env) (localOffset env)) in
  let url :=
    Url.buildImageUrl (processEnv env)
      {| Url.lat := Table.get_lat prefecture;
         Url.lon := Table.get_lon prefecture;
         Url.width := width; Url.height := height; Url.m := m |} in
  emit (HttpGet url) ;;
  let req := httpGet env 0 url in
  uploaded <- then_ req (fun image =>
    upload <- uploadImage env
      {| UploadImageArgs.token := token;
         UploadImageArgs.channelId := channel_id command;
         UploadImageArgs.prefName := prefectureName;
         UploadImageArgs.prefKanjiName := Table.get_kanjiName prefecture;
         UploadImageArgs.radarType := "現在の";
         UploadImageArgs.filetype := "png";
         UploadImageArgs.file := image |} ;;
    floating upload ;;
    ret (Fulfilled tt)) ;;
  floating uploaded.

(** The requests of the animation: 25 hourly frames from one day ago for
    mode [today], otherwise 7 frames ten minutes apart from ten minutes
    ago. *)
Definition requestFrames (env : Env) (prefecture : Table.Value)
    (width height : Z) (mode : option string)
    : M (list (Outcome Buffer)) :=
  let lat := Table.get_lat prefecture in
  let lon := Table.get_lon prefecture in
  let m := tz_Tokyo (moment (clock env) (localOffset env)) in
  if decide (mode = Some "today") then
    requestLoop env lat lon width height 25 1 Hour [] (subtract 1 Day m)
  else
    requestLoop env lat lon width height 7 10 Minutes []
      (subtract 10 Minutes m).

(** The rejections of the requests whose responses arrive while the
    [post]-th post is awaited, in the order of arrival. *)
Fixpoint rejectedDuring (env : Env) (post : nat)
    (requests : list (Outcome Buffer)) (order : list nat) : list Err :=
  match order with
  | [] => []
  | i :: order' =>
      match arrives env i, requests !! i with
      | During k, Some (Rejected e) =>
          if decide (k = post)
          then e :: rejectedDuring env post requests order'
          else rejectedDuring env post requests order'
      | _, _ => rejectedDuring env post requests order'
      end
  end.

(** The runtime reports rejections that nobody handles, and goes on. *)
Fixpoint report (errors : list Err) : M unit :=
  match errors with
  | [] => ret tt
  | e :: errors' => emit (UnhandledRejection e) ;; report errors'
  end.

(** The handler awaits the answer to its [post]-th post.  Nothing is
    attached to the promises of the requests yet: the runtime reports each
    rejection among them as unhandled, when it happens. *)
Definition meanwhile (env : Env) (post : nat)
    (requests : list (Outcome Buffer)) : M unit :=
  report (rejectedDuring env post requests (getOrder env)).

(** The status message: posted as the user; when that fails, once more
    with [asUser] off; when that fails too, there is no message.  The
    handler awaits the whole of it, with the requests in flight. *)
Definition postLoadingMessage (env : Env) (command : Command)
    (token : string) (prefecture : Table.Value)
    (imageFetchRequests : list (Outcome Buffer))
    : M (Outcome (option string)) :=
  let chatPostMessageArgs (asUser : bool) :=
    {| ChatPostMessageArgs.token := token;
       ChatPostMessageArgs.channelId := channel_id command;
       ChatPostMessageArgs.prefectureKanjiName :=
         Table.get_kanjiName prefecture;
       ChatPostMessageArgs.asUser := asUser |} in
  posted <- callChatPostMessage env (chatPostMessageArgs true) ;;
  meanwhile env 0 imageFetchRequests ;;
  extracted <- then_ posted extractMessageTs ;;
  catch_ extracted (fun error =>
    printCompleteJSON (LogError error) ;;
    posted' <- callChatPostMessage env (chatPostMessageArgs false) ;;
    meanwhile env 1 imageFetchRequests ;;
    extracted' <- then_ posted' extractMessageTs ;;
    catch_ extracted' (fun error =>
      printCompleteJSON (LogError error) ;;
      ret (Fulfilled None))).

(** The chain behind the inner [Promise.all]: upload, delete the status
    message, catch and log, finish the encoder.  Nobody holds the promise
    at the end of the chain. *)
Definition afterFrames (env : Env) (command : Command) (token : string)
    (prefectureName : string) (prefecture : Table.Value)
    (mode : option string) (loadingMessageTs : option string)
    (frames : Outcome (list unit)) : M unit :=
  uploaded <- then_ frames (fun _ =>
    data <- getData ;;
    uploadImage env
      {| UploadImageArgs.token := token;
         UploadImageArgs.channelId := channel_id command;
         UploadImageArgs.prefName := prefectureName;
         UploadImageArgs.prefKanjiName := Table.get_kanjiName prefecture;
         UploadImageArgs.radarType :=
           if decide (mode = Some "today") then "直近一日分の" else "予測";
         UploadImageArgs.filetype := "gif";
         UploadImageArgs.file := data |}) ;;
  deleted <- then_ uploaded (fun _ =>
    if Js.truthy loadingMessageTs then
      let req :=
        {| delToken := token;
           delChannel := channel_id command;
           delTs := Js.interpolate loadingMessageTs |} in
      emit (ChatDelete req) ;;
      catch_ (forget (chatDelete env req)) (fun error =>
        printCompleteJSON (LogError error) ;;
        ret (Fulfilled tt))
    else ret (Fulfilled tt)) ;;
  caught <- catch_ deleted (fun error =>
    printCompleteJSON (LogError error) ;;
    ret (Fulfilled tt)) ;;
  finished <- finally_ caught finish ;;
  floating finished.

(** A request whose response arrived while one of the [posts] posts made
    was awaited is settled when [Promise.all] is attached. *)
Definition settledEarly (env : Env) (posts : nat) (i : nat) : bool :=
  match arrives env i with
  | During k => bool_decide (k < posts)%nat && bool_decide (i ∈ getOrder env)
  | Afterwards => false
  end.

(** The order in which [Promise.all] sees [n] requests settle: first those
    that are settled when it is attached, in the order of the array; then
    the others, as their responses arrive. *)
Definition settleOrder (env : Env) (posts : nat) (n : nat) : list nat :=
  filter (fun i => settledEarly env posts i = true) (seq 0 n)
  ++ filter (fun i => settledEarly env posts i = false) (getOrder env).

(** The animation once the status message is settled: the canvas and the
    encoder are created, and the chain hangs on the outer [Promise.all] of
    the requests, attached now. *)
Definition animate (env : Env) (command : Command) (token : string)
    (prefectureName : string) (prefecture : Table.Value)
    (width height : Z) (mode : option string)
    (imageFetchRequests : list (Outcome Buffer))
    (loadingMessageTs : option string) : M unit :=
  fun w =>
    let posts := postCalls (trace w) in
    (createCanvas width height ;;
     createGIFEncoder width height ;;
     let k := afterFrames env command token prefectureName prefecture
                mode loadingMessageTs in
     match Promise.all imageFetchRequests
             (settleOrder env posts (length imageFetchRequests)) with
     | Pending => ret tt
     | Settled (Rejected e) => k (Rejected e)
     | Settled (Fulfilled images) => decodeAll env k images
     end) w.

(** The branch of the animated GIF.  The requests are started, then the
    handler awaits the status message, and only then attaches
    [Promise.all] to the requests; were the promise of the status message
    rejected, the listener would reject. *)
Definition uploadAnimation (env : Env) (command : Command) (token : string)
    (prefectureName : string) (prefecture : Table.Value)
    (width height : Z) (mode : option string) : M unit :=
  imageFetchRequests <- requestFrames env prefecture width height mode ;;
  awaited <- postLoadingMessage env command token prefecture
               imageFetchRequests ;;
  match awaited with
  | Rejected e => emit (ListenerError e)
  | Fulfilled loadingMessageTs =>
      animate env command token prefectureName prefecture width height
        mode imageFetchRequests loadingMessageTs
  end.

(** [commandInputs.length > 0 ? commandInputs[0] : 'tokyo']. *)
Definition prefectureNameOf (commandInputs : list string) : string :=
  match commandInputs with
  | first :: _ => first
  | [] => "tokyo"
  end.

(** The body of the handler once the command text is split.  Reading
    [lat] of [undefined] would throw and reject the listener. *)
Definition handle (env : Env) (command : Command) (context : Context)
    (commandInputs : list string) : M unit :=
  let prefectureName := prefectureNameOf commandInputs in
  match resolve prefectureName with
  | None => emit (ListenerError "TypeError")
  | Some prefecture =>
      let width := 400 in
      let height := 300 in
      let token := botToken context in
      let mode := extractMode commandInputs in
      if decide (mode = Some "now") then
        uploadNow env command token prefectureName prefecture width height
      else
        uploadAnimation env command token prefectureName prefecture
          width height mode
  end.

(** The listener of the slash command. *)
Definition handler (env : Env) (command : Command) (context : Context)
    : M unit :=
  emit Ack ;;
  handle env command context (commandInputsOf (text command)).

(** The world an invocation leaves behind. *)
Definition run (c : M unit) : World := snd (c start).

(** The world after the listener has acknowledged the command and run its
    body on the split command text. *)
Definition invoke (env : Env) (command : Command) (context : Context)
    (commandInputs : list string) : World :=
  snd (handle env command context commandInputs (snd (emit Ack start))).

(** The request of the status message. *)
Definition statusRequest (command : Command) (token : string)
    (prefecture : Table.Value) (asUser : bool) : PostMessageRequest :=
  {| pmToken := token;
     pmChannel := channel_id command;
     pmText := loadingMessage (Table.get_kanjiName prefecture);
     pmAsUser := asUser |}.

(** A promise that is never rejected. *)
Definition fulfils {A : Type} (c : M (Outcome A)) : Prop :=
  forall w, exists a, fst (c w) = Fulfilled a.

(** *** Reading a trace *)

(** The moments the loop of [requestLoop] passes through. *)
Fixpoint loopMoments (count : nat) (amount : Z) (unit : Unit) (m : Moment)
    : list Moment :=
  match count with
  | O => []
  | S count' => m :: loopMoments count' amount unit (add amount unit m)
  end.

(** The moments of the frames of an animation. *)
Definition frameMoments (clock localOffset : Z) (mode : option string)
    : list Moment :=
  let m := tz_Tokyo (moment clock localOffset) in
  if decide (mode = Some "today") then loopMoments 25 1 Hour (subtract 1 Day m)
  else loopMoments 7 10 Minutes (subtract 10 Minutes m).

(** The URL of the frame of a moment, and the URLs of an animation. *)
Definition frameUrl (env : Env) (prefecture : Table.Value) (m : Moment)
    : string :=
  Url.buildImageUrl (processEnv env)
    {| Url.lat := Table.get_lat prefecture;
       Url.lon := Table.get_lon prefecture;
       Url.width := 400; Url.height := 300; Url.m := m |}.

Definition frameUrls (env : Env) (prefecture : Table.Value)
    (mode : option string) : list string :=
  map (frameUrl env prefecture)
    (frameMoments (clock env) (localOffset env) mode).

Definition asUrl (e : Event) : option string :=
  match e with HttpGet url => Some url | _ => None end.

Definition asPost (e : Event) : option PostMessageRequest :=
  match e with ChatPostMessage req => Some req | _ => None end.

Definition asUpload (e : Event) : option UploadRequest :=
  match e with FilesUpload req => Some req | _ => None end.

Definition asLog (e : Event) : option Logged :=
  match e with ConsoleLog x => Some x | _ => None end.

Definition asDelete (e : Event) : option DeleteRequest :=
  match e with ChatDelete req => Some req | _ => None end.

(** The URLs requested, the status messages posted, the files uploaded,
    the values logged and the messages deleted, each in order. *)
Definition urlsOf (tr : list Event) : list string := omap asUrl tr.
Definition postsOf (tr : list Event) : list PostMessageRequest := omap asPost tr.
Definition uploadsOf (tr : list Event) : list UploadRequest := omap asUpload tr.
Definition logsOf (tr : list Event) : list Logged := omap asLog tr.
Definition deletesOf (tr : list Event) : list DeleteRequest := omap asDelete tr.

Definition isFinish (e : Event) : bool :=
  match e with Finish => true | _ => false end.

(** An event of decoding, compositing, encoding or delivering frames. *)
Definition isFrameWork (e : Event) : bool :=
  match e with
  | LoadImage _ | DrawImage _ | AddFrame | GetData | FilesUpload _ => true
  | _ => false
  end.

(** A failure that leaves the handler: a rejection that nobody handles, or
    an error thrown to the listener. *)
Definition isEscape (e : Event) : bool :=
  match e with
  | UnhandledRejection _ | ListenerError _ => true
  | _ => false
  end.

Definition keep (p : Event -> bool) (e : Event) : option Event :=
  if p e then Some e else None.

(** The number of events of a kind. *)
Definition count (p : Event -> bool) (tr : list Event) : nat :=
  length (omap (keep p) tr).

(** A computation takes every world to a world related to it. *)
Definition throughout {A : Type} (R : relation World) (c : M A) : Prop :=
  forall w, R w (snd (c w)).

(** The later world looks the same to an observer. *)
Definition same {Y : Type} (obs : World -> Y) : relation World :=
  fun w w' => obs w' = obs w.

(** The later world has made the calls of the earlier one, and more. *)
Definition longer : relation World :=
  fun w w' => trace w `prefix_of` trace w'.

(** A computation leaves an observation of the world as it is. *)
Definition preserves {Y A : Type} (obs : World -> Y) (c : M A) : Prop :=
  throughout (same obs) c.

(** The events of a trace that a projection selects. *)
Definition view {X : Type} (f : Event -> option X) (w : World) : list X :=
  omap f (trace w).

(** The canvas and the encoder. *)
Definition heap (w : World) : Canvas * GIFEncoder :=
  (canvas w, gifEncoder w).

(** Drawing an image and adding the canvas as a frame, as the callback of
    a load does; and the same for a list of images, one after the other. *)
Definition paint (img : Image) : M unit :=
  drawImage img ;; addFrame.

Fixpoint paintAll (imgs : list Image) (w : World) : World :=
  match imgs with
  | [] => w
  | img :: imgs' => paintAll imgs' (snd (paint img w))
  end.

(** The values of the promises that are fulfilled, in the order of the
    array. *)
Definition fulfilledOf {A : Type} (promises : list (Outcome A)) : list A :=
  omap (fun p => match p with Fulfilled a => Some a | Rejected _ => None end)
    promises.

(** The image on top of each frame of an encoded animation, in the order
    of the frames. *)
Definition frameImages (chunks : list Chunk) : list Image :=
  omap (fun c => match c with Frame (img :: _) => Some img | _ => None end)
    chunks.

End Bot.

(* ================================================================== *)
(** ** Statements of the specification, and sample invocations *)
(* ================================================================== *)

Module Spec.
Import Promise Moment Bot.

(** The frames of the forecast look back over the hour before the
    invocation. *)
Definition forecast_looks_back (clock localOffset : Z) : Prop :=
  forall m, m ∈ frameMoments clock localOffset None ->
    clock - msPerHour <= valueOf m <= clock.

(** What the [i]-th request and the load of its response give. *)
Definition imageOf (env : Env) (i : nat) (url : string) : Outcome Image :=
  match httpGet env i url with
  | Fulfilled buf => loadImage env i buf
  | Rejected e => Rejected e
  end.

(** Every animation that an invocation uploads has the images of the
    requests, in the order of the requests, on top of its frames. *)
Definition frames_in_request_order (w : World) (env : Env) : Prop :=
  forall req, req ∈ uploadsOf (trace w) ->
    exists chunks,
      upFile req = Encoded chunks /\
      Fulfilled <$> frameImages chunks = imap (imageOf env) (urlsOf (trace w)).

(** Every request is answered, once. *)
Definition completes (env : Env) (n : nat) : Prop :=
  getOrder env ≡ₚ seq 0 n.

End Spec.

Module Sample.
Import Promise Moment Bot.

Definition processEnv : Url.ProcessEnv :=
  {| Url.YAHOO_JAPAN_API_CLIENT_ID := Some "client";
     Url.YAHOO_JAPAN_API_MAP_MODE := None |}.

Definition posted : WebAPICallResult :=
  {| ok := true; message := Some {| ts := Some "1793689980.000100" |} |}.

Definition decode (buf : Buffer) : Outcome Image :=
  match buf with
  | Body bytes => Fulfilled (Decoded bytes)
  | Encoded _ => Rejected "not an image"
  end.

(** 2026-11-03 16:13 in Tokyo.  Everything succeeds; the responses arrive
    after the status message, in the reverse order of the requests. *)
Definition env : Env :=
  {| clock := 1793689980000;
     localOffset := 0;
     Bot.processEnv := processEnv;
     httpGet := fun i url => Fulfilled (Body url);
     arrives := fun i => Afterwards;
     getOrder := rev (seq 0 7);
     loadImage := fun i buf => decode buf;
     chatPostMessage := fun n req => Fulfilled posted;
     filesUpload := fun req => Fulfilled posted;
     chatDelete := fun req => Fulfilled posted |}.

(** The same for the 25 frames of a day. *)
Definition envToday : Env :=
  {| clock := clock env; localOffset := localOffset env;
     Bot.processEnv := processEnv;
     httpGet := httpGet env;
     arrives := arrives env; getOrder := rev (seq 0 25);
     loadImage := loadImage env;
     chatPostMessage := chatPostMessage env;
     filesUpload := filesUpload env; chatDelete := chatDelete env |}.

(** The map service does not answer the fourth request in time. *)
Definition envTimeout : Env :=
  {| clock := clock env; localOffset := localOffset env;
     Bot.processEnv := processEnv;
     httpGet := fun i url =>
       if decide (i = 3%nat) then Rejected "ETIMEDOUT" else Fulfilled (Body url);
     arrives := arrives env; getOrder := getOrder env;
     loadImage := loadImage env;
     chatPostMessage := chatPostMessage env;
     filesUpload := filesUpload env; chatDelete := chatDelete env |}.

(** The map service fails, whatever the request. *)
Definition envDown : Env :=
  {| clock := clock env; localOffset := localOffset env;
     Bot.processEnv := processEnv;
     httpGet := fun i url => Rejected "ECONNREFUSED";
     arrives := arrives env; getOrder := getOrder env;
     loadImage := loadImage env;
     chatPostMessage := chatPostMessage env;
     filesUpload := filesUpload env; chatDelete := chatDelete env |}.

(** The map service refuses the connections at once: every request is
    rejected while the answer to the first post is awaited. *)
Definition envDownEarly : Env :=
  {| clock := clock env; localOffset := localOffset env;
     Bot.processEnv := processEnv;
     httpGet := httpGet envDown;
     arrives := fun i => During 0; getOrder := getOrder env;
     loadImage := loadImage env;
     chatPostMessage := chatPostMessage env;
     filesUpload := filesUpload env; chatDelete := chatDelete env |}.

(** The third and the sixth request fail while the answer to the first
    post is awaited, the sixth before the third. *)
Definition envEarly : Env :=
  {| clock := clock env; localOffset := localOffset env;
     Bot.processEnv := processEnv;
     httpGet := fun i url =>
       if decide (i = 2%nat) then Rejected "ETIMEDOUT"
       else if decide (i = 5%nat) then Rejected "ECONNRESET"
       else Fulfilled (Body url);
     arrives := fun i => During 0; getOrder := getOrder env;
     loadImage := loadImage env;
     chatPostMessage := chatPostMessage env;
     filesUpload := filesUpload env; chatDelete := chatDelete env |}.

(** Slack refuses both posts of the status message. *)
Definition envMuted : Env :=
  {| clock := clock env; localOffset := localOffset env;
     Bot.processEnv := processEnv;
     httpGet := httpGet env;
     arrives := arrives env; getOrder := getOrder env;
     loadImage := loadImage env;
     chatPostMessage := fun n req =>
       match n with
       | O => Rejected "not_allowed_token_type"
       | S _ => Rejected "channel_not_found"
       end;
     filesUpload := filesUpload env; chatDelete := chatDelete env |}.

Definition command (text : string) : Command :=
  {| Bot.text := text; channel_id := "C024BE91L" |}.

Definition context : Context := {| botToken := "xoxb-token" |}.

End Sample.

(* ================================================================== *)
(** ** More of the program, and more statements *)
(* ================================================================== *)

Module Config.




End Config.

Module More.
Import Promise Moment Bot.

(** The alias assignments that follow the literal of the table. *)
Definition aliases : list (string * string) := [
  ("oosaka", "osaka"); ("ohsaka", "osaka"); ("nigata", "niigata");
  ("hyougo", "hyogo"); ("kouchi", "kochi"); ("ooita", "oita");
  ("ohita", "oita")
].

Definition tokyo : Table.Prefecture :=
  Table.mkPrefecture "東京都" "35.68944" "139.69167".

Definition isListenerError (e : Event) : bool :=
  match e with ListenerError _ => true | _ => false end.

(** An event of the canvas or of the encoder. *)
Definition isEncoderWork (e : Event) : bool :=
  match e with
  | CreateCanvas _ _ | CreateEncoder _ _ | LoadImage _ | DrawImage _
  | AddFrame | GetData | Finish => true
  | _ => false
  end.

(** The moment of the single image of mode [now]. *)
Definition nowMoment (env : Env) : Moment :=
  tz_Tokyo (moment (clock env) (localOffset env)).

(** What mode [now] uploads: the body of the response, as a PNG. *)
Definition nowUpload (command : Command) (context : Context)
    (prefectureName : string) (prefecture : Table.Value) (image : Buffer)
    : UploadRequest :=
  {| upToken := botToken context;
     upTitle := Js.interpolate (Table.get_kanjiName prefecture)
                +:+ "付近の現在の雨雲レーダーを表示しています";
     upFile := image;
     upFilename := "amesh_" +:+ prefectureName +:+ ".png";
     upFiletype := "image/png";
     upChannels := channel_id command |}.

(** What an animation uploads: what the encoder has written, as a GIF. *)
Definition animationUpload (command : Command) (context : Context)
    (prefectureName : string) (prefecture : Table.Value)
    (mode : option string) (data : Buffer) : UploadRequest :=
  {| upToken := botToken context;
     upTitle := Js.interpolate (Table.get_kanjiName prefecture)
                +:+ "付近の"
                +:+ (if decide (mode = Some "today") then "直近一日分の"
                     else "予測")
                +:+ "雨雲レーダーを表示しています";
     upFile := data;
     upFilename := "amesh_" +:+ prefectureName +:+ "." +:+ "gif";
     upFiletype := "image/" +:+ "gif";
     upChannels := channel_id command |}.

(** The deletion of the status message of time stamp [ts]. *)
Definition statusDeletion (command : Command) (context : Context)
    (ts : string) : DeleteRequest :=
  {| delToken := botToken context;
     delChannel := channel_id command;
     delTs := ts |}.

(** The frames that the encoder writes when the images are painted one
    after the other on a canvas: each frame is the canvas as it is then. *)
Fixpoint snapshots (canvas : Canvas) (imgs : list Image) : list Chunk :=
  match imgs with
  | [] => []
  | img :: imgs' => Frame (img :: canvas) :: snapshots (img :: canvas) imgs'
  end.

Definition isGetData (e : Event) : bool :=
  match e with GetData => true | _ => false end.

(** The environment with another order of arrival of the responses. *)
Definition withGetOrder (env : Env) (order : list nat) : Env :=
  {| clock := clock env; localOffset := localOffset env;
     processEnv := processEnv env;
     httpGet := httpGet env;
     arrives := arrives env; getOrder := order;
     loadImage := loadImage env;
     chatPostMessage := chatPostMessage env;
     filesUpload := filesUpload env; chatDelete := chatDelete env |}.

(** The environment with other answers to the posts of the status message,
    and with other ends of the image loads. *)
Definition withPosts (env : Env)
    (answer : nat -> PostMessageRequest -> Outcome WebAPICallResult) : Env :=
  {| clock := clock env; localOffset := localOffset env;
     processEnv := processEnv env;
     httpGet := httpGet env;
     arrives := arrives env; getOrder := getOrder env;
     loadImage := loadImage env;
     chatPostMessage := answer;
     filesUpload := filesUpload env; chatDelete := chatDelete env |}.

Definition withLoads (env : Env)
    (load : nat -> Buffer -> Outcome Image) : Env :=
  {| clock := clock env; localOffset := localOffset env;
     processEnv := processEnv env;
     httpGet := httpGet env;
     arrives := arrives env; getOrder := getOrder env;
     loadImage := load;
     chatPostMessage := chatPostMessage env;
     filesUpload := filesUpload env; chatDelete := chatDelete env |}.

(** Slack refuses the status message, or answers without a message. *)
Definition refused : WebAPICallResult := {| ok := false; message := None |}.
Definition malformed : WebAPICallResult := {| ok := true; message := None |}.

(** The third response is not an image. *)
Definition envCorrupt : Env :=
  withLoads Sample.env
    (fun i buf =>
       if decide (i = 2%nat) then Rejected "corrupt" else Sample.decode buf).

(** How the chain behind the frames ends, from the upload on. *)
Definition afterUpload (env : Env) (command : Command) (context : Context)
    (loadingMessageTs : option string) (req : UploadRequest) : list Event :=
  match filesUpload env req with
  | Rejected e => [ConsoleLog (LogError e)]
  | Fulfilled res =>
      ConsoleLog (LogResult res) ::
      (if Js.truthy loadingMessageTs then
         let del :=
           statusDeletion command context (Js.interpolate loadingMessageTs) in
         ChatDelete del ::
         match chatDelete env del with
         | Fulfilled _ => []
         | Rejected e => [ConsoleLog (LogError e)]
         end
       else [])
  end.

(** The calls of the chain behind the frames, when the frames came to
    [frames] and the encoder had written [data]. *)
Definition chainCalls (env : Env) (command : Command) (context : Context)
    (prefectureName : string) (prefecture : Table.Value)
    (mode : option string) (loadingMessageTs : option string)
    (frames : Outcome (list unit)) (data : Buffer) : list Event :=
  match frames with
  | Rejected e => [ConsoleLog (LogError e); Finish]
  | Fulfilled _ =>
      let req :=
        animationUpload command context prefectureName prefecture mode data in
      [GetData; FilesUpload req]
      ++ afterUpload env command context loadingMessageTs req
      ++ [Finish]
  end.

(** An event of the decoding of the responses: a load is started, an image
    is drawn, a frame is added. *)
Definition isDecoding (e : Event) : bool :=
  match e with
  | LoadImage _ | DrawImage _ | AddFrame => true
  | _ => false
  end.

(** The calls of an invocation other than those of the decoding. *)
Definition calls (w : World) : list Event :=
  view (keep (fun e => negb (isDecoding e))) w.

(** An event of the status message: a post, or a value logged. *)
Definition isStatus (e : Event) : bool :=
  match e with
  | ChatPostMessage _ | ConsoleLog _ => true
  | _ => false
  end.

(** An event of the time the handler awaits the status message: a post, a
    value logged, or a rejection that the runtime reports. *)
Definition isAwaited (e : Event) : bool :=
  match e with
  | ChatPostMessage _ | ConsoleLog _ | UnhandledRejection _ => true
  | _ => false
  end.

(** What the runtime reports while the [post]-th post is awaited. *)
Definition reports (env : Env) (post : nat)
    (requests : list (Outcome Buffer)) : list Event :=
  UnhandledRejection <$> rejectedDuring env post requests (getOrder env).

(** The rejections that the runtime reports while [posts] posts are
    awaited, one post after the other. *)
Definition unhandled (env : Env) (requests : list (Outcome Buffer))
    (posts : nat) : list Err :=
  seq 0 posts ≫= (fun post => rejectedDuring env post requests (getOrder env)).

(** How the answer to a post is read: what is logged, and the time stamp
    or the error that comes of it. *)
Definition readAnswer (posted : Outcome WebAPICallResult)
    : list Event * Outcome (option string) :=
  match posted with
  | Rejected e => ([], Rejected e)
  | Fulfilled res =>
      ([ConsoleLog (LogResult res)],
       if ok res then
         match message res with
         | Some msg => Fulfilled (ts msg)
         | None => Rejected "TypeError"
         end
       else Fulfilled None)
  end.

(** The events of the status message and its time stamp, when [n] posts
    were made before. *)
Definition statusCalls (env : Env) (command : Command) (token : string)
    (prefecture : Table.Value) (requests : list (Outcome Buffer)) (n : nat)
    : list Event * option string :=
  let first := statusRequest command token prefecture true in
  let second := statusRequest command token prefecture false in
  let answer1 := readAnswer (chatPostMessage env n first) in
  match snd answer1 with
  | Fulfilled ts =>
      (ChatPostMessage first :: reports env 0 requests ++ fst answer1, ts)
  | Rejected e1 =>
      let answer2 := readAnswer (chatPostMessage env (S n) second) in
      (ChatPostMessage first :: reports env 0 requests ++ fst answer1
       ++ [ConsoleLog (LogError e1); ChatPostMessage second]
       ++ reports env 1 requests ++ fst answer2
       ++ match snd answer2 with
          | Fulfilled _ => []
          | Rejected e2 => [ConsoleLog (LogError e2)]
          end,
       match snd answer2 with
       | Fulfilled ts => ts
       | Rejected _ => None
       end)
  end.

(** The rejection that arrives first, when the promises settle in the
    order [order]. *)
Fixpoint firstRejection {A : Type} (promises : list (Outcome A))
    (order : list nat) : option Err :=
  match order with
  | [] => None
  | i :: order' =>
      match promises !! i with
      | Some (Rejected e) => Some e
      | _ => firstRejection promises order'
      end
  end.

(** A call of the chain behind the frames, other than a log. *)
Definition isChainCall (e : Event) : bool :=
  match e with
  | GetData | FilesUpload _ | ChatDelete _ | Finish => true
  | _ => false
  end.

(** The calls that paint the images, one after the other. *)
Definition paintCalls (imgs : list Image) : list Event :=
  imgs ≫= (fun img => [DrawImage img; AddFrame]).

(** An upper-case letter of ASCII. *)
Definition isUpper (c : ascii) : bool :=
  let n := nat_of_ascii c in ((65 <=? n) && (n <=? 90))%nat.

Fixpoint allChars (p : ascii -> bool) (s : string) : bool :=
  match s with
  | EmptyString => true
  | String c s' => p c && allChars p s'
  end.

(** A text of ASCII characters. *)
Definition isAscii (s : string) : bool :=
  allChars (fun c => (nat_of_ascii c <? 128)%nat) s.

(** A character that a token can hold: no white space, no upper-case
    letter. *)
Definition isTokenChar (c : ascii) : bool :=
  negb (isSpace c) && negb (isUpper c).

(** A word as a user types it in lower case: not empty, of ASCII
    characters other than white space and upper-case letters. *)
Definition isWord (s : string) : bool :=
  negb (String.eqb s "")
  && allChars (fun c => isTokenChar c && (nat_of_ascii c <? 128)%nat) s.

(** The words, separated by single spaces. *)
Fixpoint joinSpaces (words : list string) : string :=
  match words with
  | [] => ""
  | [word] => word
  | word :: words' => word +:+ " " +:+ joinSpaces words'
  end.

End More.

(* ================================================================== *)
(** ** The date of a moment is its date on the calendar *)
(* ================================================================== *)

Module CalendarFacts.
Import Moment Calendar.

Lemma is_leap_spec y :
  is_leap y = true <-> (y mod 4 = 0 /\ (y mod 100 <> 0 \/ y mod 400 = 0)).
Proof.
  unfold is_leap.
  rewrite andb_true_iff, orb_true_iff, negb_true_iff, !Z.eqb_eq, Z.eqb_neq.
  tauto.
Qed.

Lemma leap_days_spec y :
  (leap_days y = 1 /\ y mod 4 = 0 /\ (y mod 100 <> 0 \/ y mod 400 = 0)) \/
  (leap_days y = 0 /\ ~ (y mod 4 = 0 /\ (y mod 100 <> 0 \/ y mod 400 = 0))).
Proof.
  unfold leap_days. destruct (is_leap y) eqn:E.
  - left. split; [reflexivity | now apply is_leap_spec].
  - right. split; [reflexivity |]. rewrite <- is_leap_spec, E. discriminate.
Qed.

Lemma days_in_month_cases y mo :
  days_in_month y mo =
    if mo =? 2 then 28 + leap_days y
    else if (mo =? 4) || (mo =? 6) || (mo =? 9) || (mo =? 11) then 30 else 31.
Proof.
  unfold days_in_month, leap_days.
  destruct (mo =? 2); [destruct (is_leap y) |]; reflexivity.
Qed.

Lemma days_in_month_le_31 y mo : days_in_month y mo <= 31.
Proof.
  rewrite days_in_month_cases. unfold leap_days.
  destruct (mo =? 2); [destruct (is_leap y); lia |].
  destruct ((mo =? 4) || (mo =? 6) || (mo =? 9) || (mo =? 11)); lia.
Qed.

(** The days before a month, in closed form: January and February come
    before the leap day, and from March on the months follow a pattern of
    153 days per five months. *)
Lemma days_before_month_cases y mo :
  1 <= mo <= 12 ->
  days_before_month y mo =
    if mo <=? 2 then 31 * (mo - 1)
    else (153 * (mo - 3) + 2) / 5 + 59 + leap_days y.
Proof.
  intros H.
  assert (Hc : mo = 1 \/ mo = 2 \/ mo = 3 \/ mo = 4 \/ mo = 5 \/ mo = 6 \/
               mo = 7 \/ mo = 8 \/ mo = 9 \/ mo = 10 \/ mo = 11 \/ mo = 12)
    by lia.
  unfold days_before_month, leap_days.
  repeat (destruct Hc as [-> | Hc]); try subst mo;
    cbv -[is_leap]; destruct (is_leap y); reflexivity.
Qed.

(** Within an era, the computed date is a date of the calendar, and it is
    the date of that day. *)
Lemma civil_of_era_day_correct era doe :
  0 <= doe <= 146096 ->
  let '(y, mo, d) := civil_of_era_day era doe in
  valid_date y mo d /\
  days_from_civil y mo d = era * 146097 + doe - 719468.
Proof.
  intros Hdoe. unfold civil_of_era_day.
  set (yoe := (doe - doe / 1460 + doe / 36524 - doe / 146096) / 365).
  set (doy := doe - (365 * yoe + yoe / 4 - yoe / 100)).
  set (mp := (5 * doy + 2) / 153).
  set (c := (153 * mp + 2) / 5).
  set (mo := if mp <? 10 then mp + 3 else mp - 9).
  set (y := if mo <=? 2 then yoe + era * 400 + 1 else yoe + era * 400).
  assert (Hr : 0 <= yoe <= 399 /\ 0 <= doy <= 365).
  { subst doy yoe. Z.div_mod_to_equations. lia. }
  assert (Hfeb : doy = 365 ->
            (yoe + 1) mod 4 = 0 /\
            ((yoe + 1) mod 100 <> 0 \/ (yoe + 1) mod 400 = 0)).
  { subst doy yoe. Z.div_mod_to_equations. lia. }
  assert (Hdoy : doe = 365 * yoe + yoe / 4 - yoe / 100 + doy)
    by (subst doy; lia).
  assert (Hmp : 0 <= mp <= 11).
  { subst mp. Z.div_mod_to_equations. lia. }
  assert (Hd : 153 * mp <= 5 * doy + 2 < 153 * mp + 153).
  { subst mp. Z.div_mod_to_equations. lia. }
  assert (Hc : 5 * c <= 153 * mp + 2 < 5 * c + 5).
  { subst c. Z.div_mod_to_equations. lia. }
  assert (Hmo : (mp < 10 /\ mo = mp + 3) \/ (10 <= mp /\ mo = mp - 9)).
  { subst mo. destruct (Z.ltb_spec mp 10); lia. }
  assert (Hy : (mo <= 2 /\ y = yoe + era * 400 + 1) \/
               (2 < mo /\ y = yoe + era * 400)).
  { subst y. destruct (Z.leb_spec mo 2); lia. }
  clearbody y mo c mp doy yoe.
  assert (Hmo' : 1 <= mo <= 12) by lia.
  unfold valid_date, days_from_civil, days_before_year.
  rewrite days_in_month_cases, days_before_month_cases by exact Hmo'.
  destruct (leap_days_spec y) as [[-> Hl] | [-> Hl]].
  all: destruct (Z.leb_spec mo 2); destruct (Z.eqb_spec mo 2);
       destruct (Z.eqb_spec mo 4); destruct (Z.eqb_spec mo 6);
       destruct (Z.eqb_spec mo 9); destruct (Z.eqb_spec mo 11);
       cbn [orb]; try lia.
  all: Z.div_mod_to_equations; lia.
Qed.

Lemma civil_from_days_correct z :
  let '(y, mo, d) := civil_from_days z in
  valid_date y mo d /\ days_from_civil y mo d = z.
Proof.
  unfold civil_from_days.
  set (era := (z + 719468) / 146097).
  pose proof (civil_of_era_day_correct era (z + 719468 - era * 146097)) as H.
  destruct (civil_of_era_day era (z + 719468 - era * 146097)) as [[y mo] d].
  destruct H as [Hv He].
  - subst era. Z.div_mod_to_equations. lia.
  - split; [exact Hv | lia].
Qed.

(** The first day of a year falls later in a later year. *)
Lemma days_before_year_mono y y' :
  y <= y' -> days_before_year y <= days_before_year y'.
Proof. unfold days_before_year. intros H. Z.div_mod_to_equations. lia. Qed.

Lemma day_of_year_bounds y mo d :
  valid_date y mo d ->
  0 <= days_before_month y mo + (d - 1) <= 364 + leap_days y.
Proof.
  unfold valid_date. intros [Hmo Hd].
  rewrite days_in_month_cases in Hd.
  rewrite days_before_month_cases by exact Hmo.
  assert (Hl : 0 <= leap_days y <= 1)
    by (unfold leap_days; destruct (is_leap y); lia).
  revert Hd.
  destruct (Z.leb_spec mo 2); destruct (Z.eqb_spec mo 2);
    destruct (Z.eqb_spec mo 4); destruct (Z.eqb_spec mo 6);
    destruct (Z.eqb_spec mo 9); destruct (Z.eqb_spec mo 11);
    cbn [orb]; intros Hd; try lia.
  all: Z.div_mod_to_equations; lia.
Qed.

(** From the epoch to the end of the year 9999, the year has four
    digits. *)
Lemma year_of_day_bounds y mo d :
  valid_date y mo d ->
  0 <= days_from_civil y mo d <= 2932896 ->
  1970 <= y <= 9999.
Proof.
  intros Hv. unfold days_from_civil. intros Hz.
  pose proof (day_of_year_bounds y mo d Hv) as Hb.
  assert (Hl : 0 <= leap_days y <= 1)
    by (unfold leap_days; destruct (is_leap y); lia).
  split.
  - destruct (Z.le_gt_cases 1970 y) as [|Hlt]; [assumption | exfalso].
    assert (Hy : y <= 1969) by lia.
    pose proof (days_before_year_mono y 1969 Hy) as Hm.
    change (days_before_year 1969) with (-365) in Hm.
    destruct (Z.eq_dec y 1969) as [-> | Hne].
    + change (leap_days 1969) with 0 in *. lia.
    + assert (Hy' : y <= 1968) by lia.
      pose proof (days_before_year_mono y 1968 Hy') as Hm'.
      change (days_before_year 1968) with (-731) in Hm'. lia.
  - destruct (Z.le_gt_cases y 9999) as [|Hgt]; [assumption | exfalso].
    assert (Hy : 10000 <= y) by lia.
    pose proof (days_before_year_mono 10000 y Hy) as Hm.
    change (days_before_year 10000) with 2932897 in Hm. lia.
Qed.

(** *** The length of a zero-filled numeral *)

Lemma length_append (s1 s2 : string) :
  String.length (s1 +:+ s2) = (String.length s1 + String.length s2)%nat.
Proof.
  induction s1 as [|c s1 IH]; simpl; [reflexivity | f_equal; exact IH].
Qed.

Lemma length_zeros n : String.length (zeros n) = n.
Proof.
  induction n as [|n IH]; simpl; [reflexivity | f_equal; exact IH].
Qed.

Lemma length_pretty_N_go (k : nat) : forall (x : N) (s : string),
  (x < 10 ^ N.of_nat k)%N ->
  (String.length (pretty_N_go x s) <= k + String.length s)%nat.
Proof.
  induction k as [|k IH]; intros x s Hx.
  - assert (x = 0%N) as -> by (cbn in Hx; lia).
    rewrite pretty_N_go_0. lia.
  - destruct (N.eq_dec x 0%N) as [-> | Hne].
    + rewrite pretty_N_go_0. lia.
    + rewrite pretty_N_go_step by lia.
      etransitivity; [apply IH | cbn; lia].
      rewrite Nat2N.inj_succ, N.pow_succ_r' in Hx.
      apply N.Div0.div_lt_upper_bound. lia.
Qed.

Lemma length_pretty_Z (k : nat) (n : Z) :
  (0 < k)%nat -> 0 <= n < 10 ^ Z.of_nat k ->
  (String.length (pretty n) <= k)%nat.
Proof.
  intros Hk Hn. destruct n as [|p|p]; [cbn; lia | | lia].
  change (pretty (Z.pos p)) with (pretty_N_go (N.pos p) "").
  pose proof (length_pretty_N_go k (N.pos p) "") as H. cbn in H.
  rewrite Nat.add_0_r in H. apply H.
  apply N2Z.inj_lt. rewrite N2Z.inj_pow, nat_N_Z. cbn. lia.
Qed.

Lemma length_zeroFill (n : Z) (k : nat) :
  (0 < k)%nat -> 0 <= n < 10 ^ Z.of_nat k ->
  String.length (zeroFill n k) = k.
Proof.
  intros Hk Hn. unfold zeroFill.
  pose proof (length_pretty_Z k n Hk Hn) as Hl.
  rewrite Z.abs_eq by lia.
  destruct (Z.leb_spec 0 n); [| lia].
  rewrite !length_append, length_zeros. cbn. lia.
Qed.

Lemma length_zeroFill_4 n : 0 <= n <= 9999 -> String.length (zeroFill n 4) = 4%nat.
Proof.
  intros H. apply length_zeroFill; [lia |].
  change (10 ^ Z.of_nat 4) with 10000. lia.
Qed.

Lemma length_zeroFill_2 n : 0 <= n <= 99 -> String.length (zeroFill n 2) = 2%nat.
Proof.
  intros H. apply length_zeroFill; [lia |].
  change (10 ^ Z.of_nat 2) with 100. lia.
Qed.

(** *** Date and time of a moment *)

Lemma moment_date_correct (m : Moment) :
  valid_date (year m) (month m + 1) (date m) /\
  valid_time (hours m) (minutes m) /\
  days_from_civil (year m) (month m + 1) (date m) * 1440
    + hours m * 60 + minutes m = wallClock m / msPerMinute.
Proof.
  unfold year, month, date, hours, minutes, timeInDay.
  pose proof (civil_from_days_correct (dayNumber m)) as H.
  destruct (civil_from_days (dayNumber m)) as [[y mo] d]. cbn [fst snd].
  destruct H as [Hv He].
  replace (mo - 1 + 1) with mo by lia.
  split; [exact Hv |]. rewrite He. unfold dayNumber, valid_time.
  unfold msPerDay, msPerHour, msPerMinute.
  generalize (wallClock m). intros w.
  Z.div_mod_to_equations. lia.
Qed.

Lemma moment_year_bounds (m : Moment) :
  0 <= wallClock m < 253402300800000 ->
  1970 <= year m <= 9999.
Proof.
  intros Hw.
  pose proof (civil_from_days_correct (dayNumber m)) as H.
  unfold year.
  destruct (civil_from_days (dayNumber m)) as [[y mo] d]. cbn [fst snd].
  destruct H as [Hv He].
  apply (year_of_day_bounds y mo d Hv). rewrite He.
  unfold dayNumber, msPerDay. Z.div_mod_to_equations. lia.
Qed.

End CalendarFacts.

(* ================================================================== *)
(** ** [Promise.all] *)
(* ================================================================== *)

Module PromiseFacts.
Import Promise.

Section All.
Context {A : Type}.
Implicit Types (promises : list (Outcome A)) (order : list nat)
  (st : AllState A).

Lemma all_settle_settled i (o : Outcome A) st o' :
  result st = Settled o' -> all_settle i o st = st.
Proof. intros H. unfold all_settle. rewrite H. reflexivity. Qed.

(** Once settled, for good. *)
Lemma all_run_settled promises order : forall st o,
  result st = Settled o -> all_run promises order st = st.
Proof.
  induction order as [|i order IH]; intros st o H; cbn; [reflexivity |].
  destruct (promises !! i) as [oi|]; [| eapply IH, H].
  rewrite (all_settle_settled i oi st o H). eapply IH, H.
Qed.

Lemma all_settle_fulfilled i (a : A) st :
  result st = Pending ->
  values (all_settle i (Fulfilled a) st) = <[i := Some a]> (values st) /\
  remaining (all_settle i (Fulfilled a) st) = pred (remaining st) /\
  result (all_settle i (Fulfilled a) st) =
    match pred (remaining st) with
    | O => Settled (Fulfilled (omap id (<[i := Some a]> (values st))))
    | S _ => Pending
    end.
Proof. intros H. unfold all_settle. rewrite H. cbn. auto. Qed.

Lemma all_settle_rejected i (e : Err) st :
  result st = Pending ->
  result (all_settle i (Rejected e) st) = Settled (Rejected e).
Proof. intros H. unfold all_settle. rewrite H. reflexivity. Qed.

(** While as many elements are awaited as are left to settle, a rejection
    among them rejects the whole. *)
Lemma all_run_rejected promises order : forall st,
  result st = Pending ->
  remaining st = length order ->
  (forall i, i ∈ order -> i < length promises)%nat ->
  (exists i e, i ∈ order /\ promises !! i = Some (Rejected e)) ->
  exists e, result (all_run promises order st) = Settled (Rejected e).
Proof.
  induction order as [|i order IH]; intros st Hp Hr Hlt (j & e & Hj & He).
  - apply elem_of_nil in Hj. contradiction.
  - cbn [all_run].
    destruct (lookup_lt_is_Some_2 promises i) as [oi Hoi];
      [apply Hlt; left |]. rewrite Hoi.
    destruct oi as [a | e'].
    + destruct (all_settle_fulfilled i a st Hp) as (_ & Hr' & Hres).
      assert (Hin : j ∈ order).
      { apply elem_of_cons in Hj as [-> | Hj]; [congruence | exact Hj]. }
      assert (Hlen : pred (remaining st) = length order)
        by (rewrite Hr; reflexivity).
      apply IH.
      * rewrite Hres, Hlen. destruct order; [| reflexivity].
        apply elem_of_nil in Hin. contradiction.
      * congruence.
      * intros i' Hi'. apply Hlt. right. exact Hi'.
      * exists j, e. auto.
    + exists e'.
      erewrite all_run_settled; apply all_settle_rejected, Hp.
Qed.

Lemma omap_id_Some (vs : list (option A)) (vals : list A) :
  length vs = length vals ->
  (forall j b, vals !! j = Some b -> vs !! j = Some (Some b)) ->
  omap id vs = vals.
Proof.
  intros Hlen H.
  assert (vs = Some <$> vals) as ->.
  { apply list_eq. intros j. rewrite list_lookup_fmap.
    destruct (vals !! j) as [b|] eqn:Hb; [apply H, Hb |].
    apply lookup_ge_None. rewrite Hlen. apply lookup_ge_None, Hb. }
  clear. induction vals as [|v vals IH]; cbn; [| rewrite IH]; reflexivity.
Qed.

(** When every element is fulfilled, the whole is fulfilled with the values
    in the order of the input, whatever the order of the fulfilments. *)
Lemma all_run_fulfilled (vals : list A) order : forall st,
  result st = Pending ->
  remaining st = length order ->
  order <> [] ->
  (forall i, i ∈ order -> i < length vals)%nat ->
  length (values st) = length vals ->
  (forall j a, j ∉ order -> vals !! j = Some a ->
     values st !! j = Some (Some a)) ->
  result (all_run (Fulfilled <$> vals) order st) = Settled (Fulfilled vals).
Proof.
  induction order as [|i order IH]; intros st Hp Hr Hne Hlt Hlen Hdone;
    [contradiction |].
  cbn [all_run].
  destruct (lookup_lt_is_Some_2 vals i) as [a Ha]; [apply Hlt; left |].
  rewrite list_lookup_fmap, Ha. cbn [fmap option_fmap option_map].
  destruct (all_settle_fulfilled i a st Hp) as (Hv & Hr' & Hres).
  assert (Hlen' : length (values (all_settle i (Fulfilled a) st))
                  = length vals) by (rewrite Hv, length_insert; exact Hlen).
  assert (Hdone' : forall j b, j ∉ order -> vals !! j = Some b ->
            values (all_settle i (Fulfilled a) st) !! j = Some (Some b)).
  { intros j b Hj Hb. rewrite Hv.
    destruct (decide (i = j)) as [-> | Hij].
    - rewrite list_lookup_insert_eq; [congruence |].
      rewrite Hlen. eapply lookup_lt_Some, Hb.
    - rewrite list_lookup_insert_ne by exact Hij.
      apply Hdone; [| exact Hb].
      intros [-> | Hin]%elem_of_cons; [congruence | contradiction]. }
  destruct order as [|i' order'].
  - cbn [all_run]. rewrite Hres, Hr. cbn [length pred]. do 2 f_equal.
    rewrite <- Hv. apply omap_id_Some; [exact Hlen' |].
    intros j b. apply Hdone', not_elem_of_nil.
  - apply IH.
    + rewrite Hres, Hr. reflexivity.
    + rewrite Hr', Hr. reflexivity.
    + discriminate.
    + intros j Hj. apply Hlt. right. exact Hj.
    + exact Hlen'.
    + exact Hdone'.
Qed.

(** While as many elements are awaited as are left to settle, the whole
    settles when the last of them does. *)
Lemma all_run_settles promises order : forall st,
  result st = Pending ->
  remaining st = length order ->
  order <> [] ->
  (forall i, i ∈ order -> i < length promises)%nat ->
  exists o, result (all_run promises order st) = Settled o.
Proof.
  induction order as [|i order IH]; intros st Hp Hr Hne Hlt;
    [contradiction |].
  cbn [all_run].
  destruct (lookup_lt_is_Some_2 promises i) as [oi Hoi];
    [apply Hlt; left |]. rewrite Hoi.
  destruct oi as [a | e].
  - destruct (all_settle_fulfilled i a st Hp) as (_ & Hr' & Hres).
    rewrite Hr in Hr', Hres. cbn [length pred] in Hr', Hres.
    destruct order as [|i' order'].
    + cbn [all_run]. rewrite Hres. eauto.
    + apply IH; [rewrite Hres; reflexivity | exact Hr' | discriminate |].
      intros j Hj. apply Hlt. right. exact Hj.
  - exists (Rejected e).
    erewrite all_run_settled; apply all_settle_rejected, Hp.
Qed.

Lemma all_start_spec n :
  values (@all_start A n) = replicate n None /\
  remaining (@all_start A n) = n /\
  (n <> O -> result (@all_start A n) = Pending).
Proof. destruct n; cbn; repeat split; congruence. Qed.

(** The three facts, for a [Promise.all] whose elements settle once each. *)
Lemma all_rejected promises order i e :
  order ≡ₚ seq 0 (length promises) ->
  promises !! i = Some (Rejected e) ->
  exists e', all promises order = Settled (Rejected e').
Proof.
  intros Hperm Hi. unfold all.
  assert (Hlen : length order = length promises)
    by (rewrite Hperm; apply length_seq).
  assert (Hin : forall j, j ∈ order <-> (j < length promises)%nat).
  { intros j. rewrite Hperm, elem_of_seq. lia. }
  destruct (all_start_spec (length promises)) as (_ & Hr & Hp).
  apply all_run_rejected.
  - apply Hp. apply lookup_lt_Some in Hi. lia.
  - congruence.
  - intros j. apply Hin.
  - exists i, e. split; [| exact Hi]. apply Hin. eapply lookup_lt_Some, Hi.
Qed.

Lemma all_fulfilled (vals : list A) order :
  order ≡ₚ seq 0 (length vals) ->
  all (Fulfilled <$> vals) order = Settled (Fulfilled vals).
Proof.
  intros Hperm. unfold all. rewrite length_fmap.
  assert (Hlen : length order = length vals)
    by (rewrite Hperm; apply length_seq).
  assert (Hin : forall j, j ∈ order <-> (j < length vals)%nat).
  { intros j. rewrite Hperm, elem_of_seq. lia. }
  destruct (all_start_spec (length vals)) as (Hv & Hr & Hp).
  destruct vals as [|v vals];
    [erewrite all_run_settled; reflexivity |].
  apply all_run_fulfilled.
  - apply Hp. discriminate.
  - congruence.
  - intros ->. discriminate.
  - intros j. apply Hin.
  - rewrite Hv. apply length_replicate.
  - intros j a Hj Ha. exfalso. apply Hj, Hin. eapply lookup_lt_Some, Ha.
Qed.

Lemma outcomes_cases promises :
  (exists vals, promises = Fulfilled <$> vals) \/
  (exists i e, promises !! i = Some (Rejected e)).
Proof.
  induction promises as [|[a | e] promises IH].
  - left. exists []. reflexivity.
  - destruct IH as [[vals ->] | (i & e & Hi)].
    + left. exists (a :: vals). reflexivity.
    + right. exists (S i), e. exact Hi.
  - right. exists 0%nat, e. reflexivity.
Qed.

Lemma all_fulfilled_inv promises order (vals : list A) :
  order ≡ₚ seq 0 (length promises) ->
  all promises order = Settled (Fulfilled vals) ->
  promises = Fulfilled <$> vals.
Proof.
  intros Hperm Hall.
  destruct (outcomes_cases promises) as [[vals' ->] | (i & e & Hi)].
  - rewrite length_fmap in Hperm. rewrite (all_fulfilled vals' order Hperm) in Hall.
    congruence.
  - destruct (all_rejected promises order i e Hperm Hi) as [e' He'].
    congruence.
Qed.

Lemma all_settles promises order :
  order ≡ₚ seq 0 (length promises) ->
  exists o, all promises order = Settled o.
Proof.
  intros Hperm. unfold all.
  assert (Hlen : length order = length promises)
    by (rewrite Hperm; apply length_seq).
  destruct (all_start_spec (length promises)) as (_ & Hr & Hp).
  destruct promises as [|p promises];
    [erewrite all_run_settled; [eexists |]; reflexivity |].
  apply all_run_settles.
  - apply Hp. discriminate.
  - congruence.
  - intros ->. discriminate.
  - intros j. rewrite Hperm, elem_of_seq. lia.
Qed.

End All.
End PromiseFacts.

(* ================================================================== *)
(** ** How the stages of the handler change the world *)
(* ================================================================== *)

Module BotFacts.
Import Promise Moment Bot.

Lemma bind_eq {A B} (c : M A) (f : A -> M B) (w : World) :
  bind c f w = f (fst (c w)) (snd (c w)).
Proof. unfold bind. destruct (c w). reflexivity. Qed.

#[local] Instance same_preorder {Y} (obs : World -> Y) : PreOrder (same obs).
Proof.
  split; [intros w; reflexivity |].
  intros w1 w2 w3 H12 H23. unfold same in *. congruence.
Qed.

#[local] Instance longer_preorder : PreOrder longer.
Proof.
  split; [intros w; unfold longer; reflexivity |].
  intros w1 w2 w3 H12 H23. unfold longer in *. etransitivity; eassumption.
Qed.

(** *** Relations that hold throughout a stage *)

Section Throughout.
Context (R : relation World) `{!PreOrder R}.

Lemma throughout_ret {A} (a : A) : throughout R (ret a).
Proof. intros w. reflexivity. Qed.

Lemma throughout_bind {A B} (c : M A) (f : A -> M B) :
  throughout R c -> (forall a, throughout R (f a)) ->
  throughout R (bind c f).
Proof.
  intros Hc Hf w. rewrite bind_eq. etransitivity; [apply Hc | apply Hf].
Qed.

Lemma throughout_then {A B} (p : Outcome A) (f : A -> M (Outcome B)) :
  (forall a, throughout R (f a)) -> throughout R (then_ p f).
Proof. intros Hf. destruct p; [apply Hf | apply throughout_ret]. Qed.

Lemma throughout_catch {A} (p : Outcome A) (f : Err -> M (Outcome A)) :
  (forall e, throughout R (f e)) -> throughout R (catch_ p f).
Proof. intros Hf. destruct p; [apply throughout_ret | apply Hf]. Qed.

Lemma throughout_finally {A} (p : Outcome A) (f : M unit) :
  throughout R f -> throughout R (finally_ p f).
Proof.
  intros Hf. unfold finally_. apply throughout_bind; [exact Hf |].
  intros _. apply throughout_ret.
Qed.

Lemma throughout_floating {A} (p : Outcome A) :
  (forall e, throughout R (emit (UnhandledRejection e))) ->
  throughout R (floating p).
Proof. intros He. destruct p; [apply throughout_ret | apply He]. Qed.

Lemma throughout_startLoads env images : forall i,
  (forall buf, throughout R (emit (LoadImage buf))) ->
  throughout R (startLoads env i images).
Proof.
  induction images as [|buf images IH]; intros i He; cbn [startLoads].
  - apply throughout_ret.
  - apply throughout_bind.
    + unfold promisifyImageLoader. apply throughout_bind; [apply He |].
      intros _. apply throughout_ret.
    + intros p. apply throughout_bind; [apply IH, He |].
      intros ps. apply throughout_ret.
Qed.

Lemma throughout_report errors :
  (forall e, throughout R (emit (UnhandledRejection e))) ->
  throughout R (report errors).
Proof.
  intros He. induction errors as [|e errors IH]; cbn [report].
  - apply throughout_ret.
  - apply throughout_bind; [apply He | intros _; exact IH].
Qed.

Lemma throughout_paintLoaded loads :
  (forall img, throughout R (drawImage img)) ->
  throughout R addFrame ->
  throughout R (paintLoaded loads).
Proof.
  intros Hdraw Hadd. induction loads as [|load loads IH]; cbn [paintLoaded].
  - apply throughout_ret.
  - apply throughout_bind.
    + apply throughout_then. intros img.
      apply throughout_bind; [apply Hdraw |]. intros _.
      apply throughout_bind; [apply Hadd |]. intros _. apply throughout_ret.
    + intros drawn. apply throughout_bind; [exact IH |].
      intros rest. apply throughout_ret.
Qed.

Lemma throughout_decodeAll env k images :
  (forall o, throughout R (k o)) ->
  (forall buf, throughout R (emit (LoadImage buf))) ->
  (forall img, throughout R (drawImage img)) ->
  throughout R addFrame ->
  throughout R (decodeAll env k images).
Proof.
  intros Hk Hload Hdraw Hadd. unfold decodeAll.
  apply throughout_bind; [apply throughout_startLoads, Hload |].
  intros loads.
  apply throughout_bind; [apply throughout_paintLoaded; assumption |].
  intros drawn.
  destruct (all drawn (seq 0 (length drawn))); [apply throughout_ret | apply Hk].
Qed.

(** The animation, once the number of posts made is known. *)
Lemma throughout_animate env command token name prefecture mode requests ts :
  (forall o,
     throughout R (afterFrames env command token name prefecture mode ts o)) ->
  (forall buf, throughout R (emit (LoadImage buf))) ->
  (forall img, throughout R (drawImage img)) ->
  throughout R addFrame ->
  throughout R (createCanvas 400 300) ->
  throughout R (createGIFEncoder 400 300) ->
  throughout R
    (animate env command token name prefecture 400 300 mode requests ts).
Proof.
  intros Hk He Hdraw Hadd Hcanvas Hencoder.
  assert (H : forall posts,
            throughout R
              (createCanvas 400 300 ;;
               createGIFEncoder 400 300 ;;
               match all requests
                       (settleOrder env posts (length requests)) with
               | Pending => ret tt
               | Settled (Rejected e) =>
                   afterFrames env command token name prefecture mode ts
                     (Rejected e)
               | Settled (Fulfilled images) =>
                   decodeAll env
                     (afterFrames env command token name prefecture mode ts)
                     images
               end)).
  { intros posts.
    apply throughout_bind; [exact Hcanvas |]. intros _.
    apply throughout_bind; [exact Hencoder |]. intros _.
    destruct (all requests _) as [|[images | e]].
    - apply throughout_ret.
    - apply throughout_decodeAll; assumption.
    - apply Hk. }
  intros w. apply (H (postCalls (trace w))).
Qed.

End Throughout.

(** A step that only appends events: the trace grows, and a projection
    that drops the events sees no change. *)
Ltac quiet_step :=
  let w := fresh "w" in
  intros w; unfold same, longer, view, heap; cbn;
  first
    [ rewrite ?omap_app; cbn; rewrite ?app_nil_r; reflexivity
    | repeat apply prefix_app_r; reflexivity ].

Ltac quiet :=
  unfold preserves;
  repeat first
    [ apply throughout_decodeAll;
        [solve [typeclasses eauto] | intros ? | intros ? | intros ? |]
    | apply throughout_animate;
        [solve [typeclasses eauto] | intros ? | intros ? | intros ? | | |]
    | apply throughout_report; [solve [typeclasses eauto] | intros ?]
    | apply throughout_finally; [solve [typeclasses eauto] |]
    | apply throughout_floating; [solve [typeclasses eauto] | intros ?]
    | apply throughout_then; [solve [typeclasses eauto] | intros ?]
    | apply throughout_catch; [solve [typeclasses eauto] | intros ?]
    | match goal with
      | |- throughout _ (if ?b then _ else _) => destruct b
      | |- throughout _ (match ?x with _ => _ end) => destruct x
      end
    | quiet_step
    | apply throughout_bind; [solve [typeclasses eauto] | | intros ?]
    | apply throughout_ret; solve [typeclasses eauto] ].

(** The stages, unfolded down to the calls. *)
Ltac stages :=
  unfold uploadAnimation, afterFrames, postLoadingMessage, meanwhile,
    uploadImage, extractMessageTs, printCompleteJSON.

Lemma urls_postLoadingMessage env command token prefecture requests :
  preserves (view asUrl)
    (postLoadingMessage env command token prefecture requests).
Proof. stages. quiet. Qed.

Lemma longer_animate env command token name prefecture mode requests ts :
  throughout longer
    (animate env command token name prefecture 400 300 mode requests ts).
Proof. stages. quiet. Qed.

Lemma urls_animate env command token name prefecture mode requests ts :
  preserves (view asUrl)
    (animate env command token name prefecture 400 300 mode requests ts).
Proof. stages. quiet. Qed.

Lemma posts_animate env command token name prefecture mode requests ts :
  preserves (view asPost)
    (animate env command token name prefecture 400 300 mode requests ts).
Proof. stages. quiet. Qed.

(** *** The requests *)

Lemma resolve_some (prefectureName : string) :
  exists prefecture, resolve prefectureName = Some prefecture.
Proof.
  unfold resolve, Table.or.
  destruct (Table.get prefectureName) as [v|]; [exists v; reflexivity |].
  eexists. vm_compute. reflexivity.
Qed.

Lemma requestLoop_spec env lat lon width height amount unit
    (url := fun mj =>
       Url.buildImageUrl (processEnv env)
         {| Url.lat := lat; Url.lon := lon; Url.width := width;
            Url.height := height; Url.m := mj |}) :
  forall n reqs m w,
  requestLoop env lat lon width height n amount unit reqs m w =
    (reqs ++ imap (fun j mj => httpGet env (length reqs + j) (url mj))
               (loopMoments n amount unit m),
     {| trace := trace w
                 ++ map (fun mj => HttpGet (url mj))
                      (loopMoments n amount unit m);
        canvas := canvas w; gifEncoder := gifEncoder w |}).
Proof.
  induction n as [|n IH]; intros reqs m w.
  - cbn. rewrite !app_nil_r. destruct w; reflexivity.
  - cbn [requestLoop loopMoments]. rewrite bind_eq. cbn [emit fst snd].
    rewrite IH. cbn [trace canvas gifEncoder imap map].
    rewrite <- !app_assoc. cbn [app]. f_equal.
    f_equal. rewrite Nat.add_0_r. f_equal.
    apply imap_ext. intros j mj _. cbn.
    rewrite length_app. cbn. f_equal. lia.
Qed.

Lemma requestFrames_spec env prefecture mode w :
  requestFrames env prefecture 400 300 mode w =
    (imap (httpGet env) (frameUrls env prefecture mode),
     {| trace := trace w ++ map HttpGet (frameUrls env prefecture mode);
        canvas := canvas w; gifEncoder := gifEncoder w |}).
Proof.
  unfold requestFrames, frameUrls, frameMoments.
  destruct (decide (mode = Some "today")); rewrite requestLoop_spec;
    cbn [app length Nat.add]; rewrite imap_fmap, <- list_fmap_compose;
    reflexivity.
Qed.

Lemma urlsOf_map_HttpGet urls : urlsOf (map HttpGet urls) = urls.
Proof.
  unfold urlsOf. induction urls as [|u urls IH]; cbn; [| rewrite IH];
    reflexivity.
Qed.

(** *** The status message never rejects the listener *)

Lemma fulfils_ret {A} (a : A) : fulfils (ret (Fulfilled a)).
Proof. intros w. exists a. reflexivity. Qed.

Lemma fulfils_bind {A B} (c : M A) (f : A -> M (Outcome B)) :
  (forall a, fulfils (f a)) -> fulfils (bind c f).
Proof. intros Hf w. rewrite bind_eq. apply Hf. Qed.

Lemma fulfils_catch {A} (p : Outcome A) (f : Err -> M (Outcome A)) :
  (forall e, fulfils (f e)) -> fulfils (catch_ p f).
Proof. intros Hf. destruct p; [apply fulfils_ret | apply Hf]. Qed.

Lemma postLoadingMessage_fulfils env command token prefecture requests :
  fulfils (postLoadingMessage env command token prefecture requests).
Proof.
  unfold postLoadingMessage.
  repeat first
    [ apply fulfils_ret
    | apply fulfils_catch; intros ?
    | apply fulfils_bind; intros ? ].
Qed.

(** *** The shape of an invocation *)

Lemma run_handler env command context :
  run (handler env command context)
  = invoke env command context (commandInputsOf (text command)).
Proof. unfold run, handler, invoke. rewrite bind_eq. reflexivity. Qed.

Lemma handle_animation env command context inputs :
  extractMode inputs <> Some "now" ->
  exists prefecture,
    resolve (prefectureNameOf inputs) = Some prefecture /\
    handle env command context inputs
    = uploadAnimation env command (botToken context) (prefectureNameOf inputs)
        prefecture 400 300 (extractMode inputs).
Proof.
  intros Hmode. unfold handle.
  destruct (resolve_some (prefectureNameOf inputs)) as [prefecture ->].
  exists prefecture. split; [reflexivity |].
  destruct (decide (extractMode inputs = Some "now")); [contradiction |].
  reflexivity.
Qed.

(** An animation: the requests, then the status message, then the rest. *)
Lemma uploadAnimation_run env command token name prefecture mode w :
  let requested := requestFrames env prefecture 400 300 mode w in
  let posted :=
    postLoadingMessage env command token prefecture (fst requested)
      (snd requested) in
  exists ts,
    fst posted = Fulfilled ts /\
    snd (uploadAnimation env command token name prefecture 400 300 mode w)
    = snd (animate env command token name prefecture 400 300 mode
             (fst requested) ts (snd posted)).
Proof.
  cbn zeta. unfold uploadAnimation. rewrite !bind_eq.
  destruct (postLoadingMessage_fulfils env command token prefecture
              (fst (requestFrames env prefecture 400 300 mode w))
              (snd (requestFrames env prefecture 400 300 mode w)))
    as [ts Hts].
  exists ts. rewrite Hts. split; reflexivity.
Qed.

Lemma animation_urls env command context inputs :
  extractMode inputs <> Some "now" ->
  exists prefecture,
    resolve (prefectureNameOf inputs) = Some prefecture /\
    urlsOf (trace (invoke env command context inputs))
    = frameUrls env prefecture (extractMode inputs).
Proof.
  intros Hmode.
  destruct (handle_animation env command context inputs Hmode)
    as (prefecture & Hres & Heq).
  exists prefecture. split; [exact Hres |].
  unfold invoke. rewrite Heq.
  destruct (uploadAnimation_run env command (botToken context)
              (prefectureNameOf inputs) prefecture (extractMode inputs)
              (snd (emit Ack start))) as (ts & _ & ->).
  change (urlsOf (trace ?w)) with (view asUrl w).
  rewrite urls_animate, urls_postLoadingMessage, requestFrames_spec.
  unfold view. cbn [snd trace]. rewrite omap_app.
  apply urlsOf_map_HttpGet.
Qed.

(** *** The chain behind the frames *)

(** Every way the upload and the deletion of the status message can end. *)
Ltac chain_cases :=
  unfold afterFrames, uploadImage, printCompleteJSON, getData, finish,
    finally_, floating, forget, then_, catch_, bind, ret, emit;
  intros; unfold same, view; cbn;
  repeat (match goal with
          | |- context [filesUpload ?env ?req] =>
              destruct (filesUpload env req)
          | |- context [chatDelete ?env ?req] =>
              destruct (chatDelete env req)
          | |- context [Js.truthy ?ts] => destruct (Js.truthy ts)
          end; cbn);
  rewrite ?omap_app; cbn; rewrite ?app_nil_r, <- ?app_assoc.

(** Whatever the frames came to, the encoder is finished, once. *)
Lemma afterFrames_finish env command token name prefecture mode ts o w :
  view (keep isFinish)
    (snd (afterFrames env command token name prefecture mode ts o w))
  = view (keep isFinish) w ++ [Finish].
Proof. destruct o; chain_cases; reflexivity. Qed.

(** Without frames there is no upload. *)
Lemma afterFrames_rejected env command token name prefecture mode ts e :
  preserves (view (keep isFrameWork))
    (afterFrames env command token name prefecture mode ts (Rejected e)).
Proof. intros w. chain_cases; reflexivity. Qed.

(** With frames, what the encoder has written is uploaded, once. *)
Lemma afterFrames_upload env command token name prefecture mode ts vs w :
  exists req,
    upFile req = Encoded (out (gifEncoder w)) /\
    view asUpload
      (snd (afterFrames env command token name prefecture mode ts
              (Fulfilled vs) w))
    = view asUpload w ++ [req].
Proof. eexists. split; [| chain_cases; reflexivity]. reflexivity. Qed.

(** Nothing leaves the chain. *)
Lemma afterFrames_escape env command token name prefecture mode ts o :
  preserves (view (keep isEscape))
    (afterFrames env command token name prefecture mode ts o).
Proof. intros w. destruct o; chain_cases; reflexivity. Qed.

(** Without a status message there is none to delete. *)
Lemma afterFrames_no_delete env command token name prefecture mode o :
  preserves (view asDelete)
    (afterFrames env command token name prefecture mode None o).
Proof. intros w. destruct o; chain_cases; reflexivity. Qed.

(** *** The loads and the inner [Promise.all] *)

Lemma paint_callback img w :
  (drawImage img ;; addFrame ;; ret (Fulfilled tt)) w
  = (Fulfilled tt, snd (paint img w)).
Proof. reflexivity. Qed.

(** The callbacks paint the images of the loads that succeeded, in the
    order of the array, and pass the rejections on. *)
Lemma paintLoaded_eq loads : forall w,
  paintLoaded loads w = (forget <$> loads, paintAll (fulfilledOf loads) w).
Proof.
  induction loads as [|[img | e] loads IH]; intros w; [reflexivity | |].
  - cbn [paintLoaded then_]. rewrite bind_eq, paint_callback. cbn [fst snd].
    rewrite bind_eq, IH. reflexivity.
  - cbn [paintLoaded then_]. rewrite bind_eq. cbn [ret fst snd].
    rewrite bind_eq, IH. reflexivity.
Qed.

Lemma fulfilledOf_fulfilled {A} (vals : list A) :
  fulfilledOf (Fulfilled <$> vals) = vals.
Proof.
  unfold fulfilledOf. induction vals as [|v vals IH]; [reflexivity |].
  cbn. rewrite IH. reflexivity.
Qed.

Lemma forget_fulfilled {A} (vals : list A) :
  forget <$> (Fulfilled <$> vals) = Fulfilled <$> ((fun _ => tt) <$> vals).
Proof. rewrite <- !list_fmap_compose. reflexivity. Qed.

Lemma startLoads_spec env images : forall i w,
  fst (startLoads env i images w)
  = imap (fun j buf => loadImage env (i + j) buf) images.
Proof.
  induction images as [|buf images IH]; intros i w; [reflexivity |].
  cbn [startLoads imap]. rewrite !bind_eq. cbn [ret fst].
  rewrite IH. unfold promisifyImageLoader. rewrite bind_eq. cbn [ret fst].
  rewrite Nat.add_0_r. f_equal. apply imap_ext. intros j b _. cbn.
  f_equal. lia.
Qed.

(** Painting leaves the trace to the projections that drop its events, and
    puts the images on top of the frames, in order. *)
Lemma paintAll_view {X} (f : Event -> option X) imgs :
  (forall img, f (DrawImage img) = None) -> f AddFrame = None ->
  forall w, view f (paintAll imgs w) = view f w.
Proof.
  intros Hd Ha. induction imgs as [|img imgs IH]; intros w; [reflexivity |].
  cbn [paintAll]. rewrite IH. unfold view. cbn.
  rewrite !omap_app. cbn. rewrite Hd, Ha, !app_nil_r. reflexivity.
Qed.

Lemma frameImages_app c1 c2 :
  frameImages (c1 ++ c2) = frameImages c1 ++ frameImages c2.
Proof. apply omap_app. Qed.

Lemma paintAll_frames imgs : forall w,
  frameImages (out (gifEncoder (paintAll imgs w)))
  = frameImages (out (gifEncoder w)) ++ imgs.
Proof.
  induction imgs as [|img imgs IH]; intros w; cbn [paintAll].
  - rewrite app_nil_r. reflexivity.
  - rewrite IH. cbn. rewrite frameImages_app. cbn.
    rewrite <- app_assoc. reflexivity.
Qed.

(** *** The animation *)

(** An animation itself leaves no rejection unhandled, and throws nothing
    to the listener. *)
Lemma animate_escape env command token name prefecture mode requests ts :
  preserves (view (keep isEscape))
    (animate env command token name prefecture 400 300 mode requests ts).
Proof.
  apply throughout_animate; try typeclasses eauto; try quiet_step.
  - intros o. apply afterFrames_escape.
  - intros buf. quiet_step.
  - intros img. quiet_step.
Qed.

(** Without a status message, an animation deletes none. *)
Lemma animate_no_delete env command token name prefecture mode requests :
  preserves (view asDelete)
    (animate env command token name prefecture 400 300 mode requests None).
Proof.
  apply throughout_animate; try typeclasses eauto; try quiet_step.
  - intros o. apply afterFrames_no_delete.
  - intros buf. quiet_step.
  - intros img. quiet_step.
Qed.

(** The canvas is blank and the encoder has written its header when the
    chain starts. *)
Lemma animate_start w :
  let w' := snd (createGIFEncoder 400 300 (snd (createCanvas 400 300 w))) in
  out (gifEncoder w') = [Header] /\
  trace w' = trace w ++ [CreateCanvas 400 300; CreateEncoder 400 300].
Proof. cbn. rewrite <- app_assoc. split; reflexivity. Qed.

Lemma animate_eq env command token name prefecture mode requests ts w :
  animate env command token name prefecture 400 300 mode requests ts w
  = (let k := afterFrames env command token name prefecture mode ts in
     match all requests
             (settleOrder env (postCalls (trace w)) (length requests)) with
     | Pending => ret tt
     | Settled (Rejected e) => k (Rejected e)
     | Settled (Fulfilled images) => decodeAll env k images
     end) (snd (createGIFEncoder 400 300 (snd (createCanvas 400 300 w)))).
Proof. unfold animate. cbn zeta. rewrite !bind_eq. reflexivity. Qed.

Lemma view_animate_start {X} (f : Event -> option X) w :
  f (CreateCanvas 400 300) = None -> f (CreateEncoder 400 300) = None ->
  view f (snd (createGIFEncoder 400 300 (snd (createCanvas 400 300 w))))
  = view f w.
Proof.
  intros H1 H2. unfold view. cbn. rewrite !omap_app. cbn.
  rewrite H1, H2, !app_nil_r. reflexivity.
Qed.

(** The loads are started, the images of those that succeeded are painted,
    and then the rest of the chain runs, with the outcome of the inner
    [Promise.all]. *)
Lemma decodeAll_eq env k images w :
  decodeAll env k images w
  = (let loads := imap (loadImage env) images in
     match all (forget <$> loads) (seq 0 (length images)) with
     | Settled o => k o
     | Pending => ret tt
     end)
      (paintAll (fulfilledOf (imap (loadImage env) images))
         (snd (startLoads env 0 images w))).
Proof.
  unfold decodeAll. rewrite bind_eq, startLoads_spec.
  rewrite bind_eq, paintLoaded_eq. cbn [fst snd].
  rewrite length_fmap, length_imap. reflexivity.
Qed.

(** The inner [Promise.all] settles: every load has ended. *)
Lemma loads_settle (loads : list (Outcome Image)) n :
  n = length loads ->
  exists o, all (forget <$> loads) (seq 0 n) = Settled o.
Proof.
  intros ->. apply PromiseFacts.all_settles.
  rewrite length_fmap. reflexivity.
Qed.

Lemma view_startLoads {X} (f : Event -> option X) env images i :
  (forall buf, f (LoadImage buf) = None) ->
  preserves (view f) (startLoads env i images).
Proof.
  intros H. apply throughout_startLoads; [typeclasses eauto |].
  intros buf w. unfold same, view. cbn. rewrite omap_app. cbn.
  rewrite H. apply app_nil_r.
Qed.

Lemma heap_startLoads env images i :
  preserves heap (startLoads env i images).
Proof.
  apply throughout_startLoads; [typeclasses eauto |]. intros buf. quiet_step.
Qed.

(** [Promise.all] sees every request settle once, when every response
    arrives once: those settled when it is attached, and the others. *)
Lemma settleOrder_perm env posts n :
  getOrder env ≡ₚ seq 0 n -> settleOrder env posts n ≡ₚ seq 0 n.
Proof.
  intros H. unfold settleOrder. rewrite H.
  rewrite (list_filter_iff (fun i => settledEarly env posts i = false)
             (fun i => ~ settledEarly env posts i = true)).
  - apply filter_app_complement.
  - intros i. destruct (settledEarly env posts i); split; congruence.
Qed.

(** With every request answered, the encoder is finished exactly once,
    however the requests and the loads ended. *)
Lemma animate_finish env command token name prefecture mode requests ts w :
  Spec.completes env (length requests) ->
  view (keep isFinish)
    (snd (animate env command token name prefecture 400 300 mode
            requests ts w))
  = view (keep isFinish) w ++ [Finish].
Proof.
  intros Hget. rewrite animate_eq. cbn zeta.
  destruct (PromiseFacts.all_settles requests
              (settleOrder env (postCalls (trace w)) (length requests))
              (settleOrder_perm env _ _ Hget)) as [o Ho].
  rewrite Ho. destruct o as [images | e].
  - rewrite decodeAll_eq. cbn zeta.
    destruct (loads_settle (imap (loadImage env) images) (length images))
      as [o' ->]; [rewrite length_imap; reflexivity |].
    rewrite afterFrames_finish, paintAll_view by reflexivity.
    rewrite view_startLoads by reflexivity.
    rewrite view_animate_start by reflexivity. reflexivity.
  - rewrite afterFrames_finish.
    rewrite view_animate_start by reflexivity. reflexivity.
Qed.

(** A request that fails leaves the frames alone: no load, no drawing, no
    frame, no data, no upload. *)
Lemma animate_rejected env command token name prefecture mode requests ts
    i e w :
  getOrder env ≡ₚ seq 0 (length requests) ->
  requests !! i = Some (Rejected e) ->
  view (keep isFrameWork)
    (snd (animate env command token name prefecture 400 300 mode
            requests ts w))
  = view (keep isFrameWork) w.
Proof.
  intros Hget Hi. rewrite animate_eq. cbn zeta.
  destruct (PromiseFacts.all_rejected requests
              (settleOrder env (postCalls (trace w)) (length requests)) i e
              (settleOrder_perm env _ _ Hget) Hi) as [e' ->].
  rewrite afterFrames_rejected.
  apply view_animate_start; reflexivity.
Qed.

(** With every request answered by a buffer and every buffer loaded as an
    image, one animation is uploaded; the images on top of its frames are
    the images of the requests, in the order of the requests. *)
Lemma animate_fulfilled env command token name prefecture mode ts
    (bufs : list Buffer) (imgs : list Image) w :
  Spec.completes env (length bufs) ->
  imap (loadImage env) bufs = Fulfilled <$> imgs ->
  exists req chunks,
    view asUpload
      (snd (animate env command token name prefecture 400 300 mode
              (Fulfilled <$> bufs) ts w))
    = view asUpload w ++ [req] /\
    upFile req = Encoded chunks /\
    frameImages chunks = imgs.
Proof.
  intros Hget Hloads. rewrite animate_eq. cbn zeta.
  rewrite length_fmap.
  rewrite PromiseFacts.all_fulfilled by (apply settleOrder_perm, Hget).
  rewrite decodeAll_eq. cbn zeta.
  rewrite Hloads, fulfilledOf_fulfilled, forget_fulfilled.
  assert (Hlen : length imgs = length bufs).
  { apply (f_equal length) in Hloads.
    rewrite length_imap, length_fmap in Hloads. congruence. }
  rewrite PromiseFacts.all_fulfilled
    by (rewrite length_fmap, Hlen; reflexivity).
  set (w2 := snd (createGIFEncoder 400 300 (snd (createCanvas 400 300 w)))).
  set (w3 := snd (startLoads env 0 bufs w2)).
  assert (Hout : out (gifEncoder w3) = [Header]).
  { pose proof (heap_startLoads env bufs 0 w2) as Hh.
    unfold same, heap in Hh. fold w3 in Hh.
    injection Hh as _ ->. reflexivity. }
  assert (Hup : view asUpload w3 = view asUpload w).
  { unfold w3. rewrite view_startLoads by reflexivity.
    apply view_animate_start; reflexivity. }
  destruct (afterFrames_upload env command token name prefecture mode ts
              ((fun _ => tt) <$> imgs) (paintAll imgs w3))
    as (req & Hfile & Hview).
  exists req, (out (gifEncoder (paintAll imgs w3))).
  rewrite Hview, paintAll_view, Hup by reflexivity.
  split; [reflexivity |]. split; [exact Hfile |].
  rewrite paintAll_frames, Hout. reflexivity.
Qed.

(** *** The status message *)

Lemma postCalls_app tr1 tr2 :
  postCalls (tr1 ++ tr2) = (postCalls tr1 + postCalls tr2)%nat.
Proof.
  induction tr1 as [|e tr1 IH]; [reflexivity |].
  destruct e; cbn; rewrite IH; reflexivity.
Qed.

Lemma postCalls_posts tr : postCalls tr = length (postsOf tr).
Proof.
  unfold postsOf. induction tr as [|e tr IH]; [reflexivity |].
  destruct e; cbn; rewrite IH; reflexivity.
Qed.

Lemma put_trace w : 
  {| trace := trace w; canvas := canvas w; gifEncoder := gifEncoder w |} = w.
Proof. destruct w; reflexivity. Qed.

(** The reports are appended to the trace. *)
Lemma report_eq errors : forall w,
  report errors w
  = (tt, {| trace := trace w ++ (UnhandledRejection <$> errors);
            canvas := canvas w; gifEncoder := gifEncoder w |}).
Proof.
  induction errors as [|e errors IH]; intros w; cbn [report].
  - cbn. rewrite app_nil_r, put_trace. reflexivity.
  - rewrite bind_eq. cbn [emit fst snd]. rewrite IH. cbn.
    rewrite <- app_assoc. reflexivity.
Qed.

Lemma readAnswer_eq posted w :
  then_ posted extractMessageTs w
  = (snd (More.readAnswer posted),
     {| trace := trace w ++ fst (More.readAnswer posted);
        canvas := canvas w; gifEncoder := gifEncoder w |}).
Proof.
  destruct posted as [res | e]; cbn.
  - reflexivity.
  - rewrite app_nil_r, put_trace. reflexivity.
Qed.

Lemma postCalls_awaited events :
  Forall (fun e => asPost e = None) events -> postCalls events = 0%nat.
Proof.
  induction 1 as [|e events He _ IH]; [reflexivity |].
  destruct e; try discriminate He; exact IH.
Qed.

Lemma reports_no_post env post requests :
  Forall (fun e => asPost e = None) (More.reports env post requests).
Proof. apply Forall_fmap, Forall_true. reflexivity. Qed.

Lemma readAnswer_no_post posted :
  Forall (fun e => asPost e = None) (fst (More.readAnswer posted)).
Proof. destruct posted; repeat constructor. Qed.

(** One post: the call, the reports of the runtime while it is awaited,
    and the reading of the answer; then the rest, [g]. *)
Lemma attempt_eq {B} env args post requests
    (g : Outcome (option string) -> M B) w :
  let req :=
    {| pmToken := ChatPostMessageArgs.token args;
       pmChannel := ChatPostMessageArgs.channelId args;
       pmText := loadingMessage (ChatPostMessageArgs.prefectureKanjiName args);
       pmAsUser := ChatPostMessageArgs.asUser args |} in
  let answer :=
    More.readAnswer (chatPostMessage env (postCalls (trace w)) req) in
  (posted <- callChatPostMessage env args ;;
   meanwhile env post requests ;;
   extracted <- then_ posted extractMessageTs ;;
   g extracted) w
  = g (snd answer)
      {| trace := trace w ++ ChatPostMessage req
                  :: More.reports env post requests ++ fst answer;
         canvas := canvas w; gifEncoder := gifEncoder w |}.
Proof.
  cbn zeta. rewrite bind_eq. unfold callChatPostMessage at 1 2.
  cbn [fst snd]. rewrite bind_eq. unfold meanwhile. rewrite report_eq.
  cbn [fst snd]. rewrite bind_eq, readAnswer_eq.
  cbn [trace canvas gifEncoder emit fst snd].
  rewrite <- !app_assoc. reflexivity.
Qed.

Lemma postCalls_attempt tr req reported logged :
  Forall (fun e => asPost e = None) reported ->
  Forall (fun e => asPost e = None) logged ->
  postCalls (tr ++ ChatPostMessage req :: reported ++ logged)
  = S (postCalls tr).
Proof.
  intros Hr Hl. rewrite postCalls_app. cbn [postCalls].
  rewrite postCalls_app, (postCalls_awaited reported Hr),
    (postCalls_awaited logged Hl). lia.
Qed.

(** The status message, event by event. *)
Lemma postLoadingMessage_eq env command token prefecture requests w :
  let status :=
    More.statusCalls env command token prefecture requests
      (postCalls (trace w)) in
  postLoadingMessage env command token prefecture requests w
  = (Fulfilled (snd status),
     {| trace := trace w ++ fst status;
        canvas := canvas w; gifEncoder := gifEncoder w |}).
Proof.
  cbn zeta. unfold postLoadingMessage. rewrite attempt_eq.
  cbn [ChatPostMessageArgs.token ChatPostMessageArgs.channelId
       ChatPostMessageArgs.prefectureKanjiName ChatPostMessageArgs.asUser].
  fold (statusRequest command token prefecture true).
  fold (statusRequest command token prefecture false).
  unfold More.statusCalls. cbn zeta.
  set (answer1 := More.readAnswer _).
  destruct (snd answer1) as [ts | e1] eqn:H1; cbn [catch_ ret fst snd].
  - reflexivity.
  - unfold printCompleteJSON. rewrite bind_eq. cbn [emit fst snd trace canvas gifEncoder].
    rewrite attempt_eq.
    cbn [ChatPostMessageArgs.token ChatPostMessageArgs.channelId
         ChatPostMessageArgs.prefectureKanjiName ChatPostMessageArgs.asUser
         trace canvas gifEncoder].
    fold (statusRequest command token prefecture false).
    rewrite <- app_assoc. cbn [app].
    replace (postCalls (trace w ++ ChatPostMessage
                          (statusRequest command token prefecture true)
                        :: (More.reports env 0 requests ++ fst answer1)
                           ++ [ConsoleLog (LogError e1)]))
      with (S (postCalls (trace w))).
    2: { symmetry. rewrite <- app_assoc. apply postCalls_attempt.
         - apply reports_no_post.
         - apply Forall_app. split; [apply readAnswer_no_post |].
           repeat constructor. }
    set (answer2 := More.readAnswer _).
    destruct (snd answer2) as [ts | e2]; cbn [catch_ ret fst snd].
    + rewrite app_nil_r. f_equal. f_equal.
      repeat (rewrite <- ?app_assoc; cbn [app]). reflexivity.
    + rewrite bind_eq. cbn [emit ret fst snd trace canvas gifEncoder].
      f_equal. f_equal.
      repeat (rewrite <- ?app_assoc; cbn [app]). reflexivity.
Qed.

(** *** What the status message leaves in the trace *)

Lemma reports_awaited env post requests :
  Forall (fun e => More.isAwaited e = true) (More.reports env post requests).
Proof. apply Forall_fmap, Forall_true. reflexivity. Qed.

Lemma statusCalls_awaited env command token prefecture requests n :
  Forall (fun e => More.isAwaited e = true)
    (fst (More.statusCalls env command token prefecture requests n)).
Proof.
  unfold More.statusCalls. cbn zeta.
  destruct (chatPostMessage env n _) as [res | e1]; cbn [More.readAnswer fst snd].
  - destruct (ok res); [destruct (message res) |]; cbn [fst snd].
    2: destruct (chatPostMessage env (S n) _) as [res2 | e2];
         cbn [More.readAnswer fst snd];
         [destruct (ok res2); [destruct (message res2) |]; cbn [fst snd] |].
    all: repeat first
           [ apply Forall_cons; split; [reflexivity |]
           | apply Forall_app; split
           | apply reports_awaited
           | apply Forall_nil_2 ].
  - destruct (chatPostMessage env (S n) _) as [res2 | e2];
      cbn [More.readAnswer fst snd];
      [destruct (ok res2); [destruct (message res2) |]; cbn [fst snd] |].
    all: repeat first
           [ apply Forall_cons; split; [reflexivity |]
           | apply Forall_app; split
           | apply reports_awaited
           | apply Forall_nil_2 ].
Qed.

(** No request is rejected while a post is awaited. *)
Lemma rejectedDuring_fulfilled env post (bufs : list Buffer) order :
  rejectedDuring env post (Fulfilled <$> bufs) order = [].
Proof.
  induction order as [|i order IH]; [reflexivity |].
  cbn [rejectedDuring]. rewrite list_lookup_fmap.
  destruct (arrives env i); [| exact IH].
  destruct (bufs !! i); exact IH.
Qed.

Lemma rejectedDuring_afterwards env post requests order :
  (forall i, arrives env i = Afterwards) ->
  rejectedDuring env post requests order = [].
Proof.
  intros H. induction order as [|i order IH]; [reflexivity |].
  cbn [rejectedDuring]. rewrite H. exact IH.
Qed.

(** Without reports, the status message is posts and logs. *)
Lemma statusCalls_status env command token prefecture requests n :
  (forall post, rejectedDuring env post requests (getOrder env) = []) ->
  Forall (fun e => More.isStatus e = true)
    (fst (More.statusCalls env command token prefecture requests n)).
Proof.
  intros Hquiet. unfold More.statusCalls, More.reports. cbn zeta.
  rewrite !Hquiet. cbn [fmap list_fmap app].
  destruct (chatPostMessage env n _) as [res | e1]; cbn [More.readAnswer fst snd].
  - destruct (ok res); [destruct (message res) |]; cbn [fst snd].
    2: destruct (chatPostMessage env (S n) _) as [res2 | e2];
         cbn [More.readAnswer fst snd];
         [destruct (ok res2); [destruct (message res2) |]; cbn [fst snd] |].
    all: repeat constructor.
  - destruct (chatPostMessage env (S n) _) as [res2 | e2];
      cbn [More.readAnswer fst snd];
      [destruct (ok res2); [destruct (message res2) |]; cbn [fst snd] |].
    all: repeat constructor.
Qed.

(** A time stamp comes from an answer of Slack that was logged. *)
Lemma statusCalls_ts env command token prefecture requests n :
  let status := More.statusCalls env command token prefecture requests n in
  snd status = None \/
  exists res msg,
    ConsoleLog (LogResult res) ∈ fst status /\
    ok res = true /\ message res = Some msg /\ snd status = Bot.ts msg.
Proof.
  cbn zeta. unfold More.statusCalls. cbn zeta.
  destruct (chatPostMessage env n _) as [res | e1]; cbn [More.readAnswer fst snd].
  - destruct (ok res) eqn:Hok; [destruct (message res) as [msg|] eqn:Hmsg |];
      cbn [fst snd].
    + right. exists res, msg. split; [| auto].
      apply elem_of_cons. right. apply elem_of_app. right. left.
    + destruct (chatPostMessage env (S n) _) as [res2 | e2];
        cbn [More.readAnswer fst snd]; [| left; reflexivity].
      destruct (ok res2) eqn:Hok2;
        [destruct (message res2) as [msg2|] eqn:Hmsg2 |]; cbn [fst snd];
        [| left; reflexivity..].
      right. exists res2, msg2. split; [| auto].
      apply elem_of_cons. right. apply elem_of_app. right.
      apply elem_of_app. right. apply elem_of_app. right.
      apply elem_of_app. right. apply elem_of_app. left. left.
    + left. reflexivity.
  - destruct (chatPostMessage env (S n) _) as [res2 | e2];
      cbn [More.readAnswer fst snd]; [| left; reflexivity].
    destruct (ok res2) eqn:Hok2;
      [destruct (message res2) as [msg2|] eqn:Hmsg2 |]; cbn [fst snd];
      [| left; reflexivity..].
    right. exists res2, msg2. split; [| auto].
    apply elem_of_cons. right. apply elem_of_app. right.
    apply elem_of_app. right. apply elem_of_app. right.
    apply elem_of_app. right. apply elem_of_app. left. left.
Qed.

Lemma omap_awaited {X} (f : Event -> option X) (events : list Event) :
  (forall req, f (ChatPostMessage req) = None) ->
  (forall x, f (ConsoleLog x) = None) ->
  (forall e, f (UnhandledRejection e) = None) ->
  Forall (fun e => More.isAwaited e = true) events ->
  omap f events = [].
Proof.
  intros Hp Hl Hu. induction 1 as [|e events He _ IH]; [reflexivity |].
  cbn. destruct e; try discriminate He; rewrite ?Hp, ?Hl, ?Hu; exact IH.
Qed.

Lemma omap_reports {X} (f : Event -> option X) env post requests :
  (forall e, f (UnhandledRejection e) = None) ->
  omap f (More.reports env post requests) = [].
Proof.
  intros Hu. unfold More.reports.
  induction (rejectedDuring env post requests (getOrder env)) as [|e l IH];
    [reflexivity |].
  cbn. rewrite Hu. exact IH.
Qed.

(** The posts of the status message: the first, and the second when the
    first comes to an error. *)
Lemma statusCalls_posts env command token prefecture requests n :
  postsOf (fst (More.statusCalls env command token prefecture requests n))
  = statusRequest command token prefecture true
    :: match snd (More.readAnswer
                    (chatPostMessage env n
                       (statusRequest command token prefecture true))) with
       | Fulfilled _ => []
       | Rejected _ => [statusRequest command token prefecture false]
       end.
Proof.
  unfold More.statusCalls, postsOf. cbn zeta.
  assert (Ha : forall posted, omap asPost (fst (More.readAnswer posted)) = [])
    by (intros [res | e]; reflexivity).
  destruct (snd (More.readAnswer (chatPostMessage env n _)));
    cbn [fst snd omap list_omap asPost];
    repeat (rewrite ?omap_app, ?Ha, ?omap_reports by reflexivity;
            cbn [fst snd omap list_omap asPost app]).
  - reflexivity.
  - destruct (snd (More.readAnswer (chatPostMessage env (S n) _)));
      reflexivity.
Qed.

(** What leaves the handler while the status message is awaited: the
    reports of the runtime, post after post. *)
Lemma statusCalls_escapes env command token prefecture requests n :
  let status := fst (More.statusCalls env command token prefecture requests n) in
  omap (keep isEscape) status
  = UnhandledRejection
    <$> More.unhandled env requests (length (postsOf status)).
Proof.
  cbn zeta. rewrite statusCalls_posts.
  unfold More.statusCalls, More.unhandled. cbn zeta.
  assert (Ha : forall posted,
            omap (keep isEscape) (fst (More.readAnswer posted)) = [])
    by (intros [res | e]; reflexivity).
  assert (Hr : forall post,
            omap (keep isEscape) (More.reports env post requests)
            = UnhandledRejection
              <$> rejectedDuring env post requests (getOrder env)).
  { intros post. unfold More.reports.
    induction (rejectedDuring env post requests (getOrder env)) as [|e l IH];
      [reflexivity |].
    cbn. rewrite IH. reflexivity. }
  destruct (snd (More.readAnswer (chatPostMessage env n _)));
    cbn [fst snd length seq mbind list_bind].
  - cbn [omap list_omap keep isEscape]. rewrite omap_app, Ha, Hr, !app_nil_r.
    reflexivity.
  - cbn [omap list_omap keep isEscape].
    rewrite !omap_app, Ha, !Hr. cbn [omap list_omap keep isEscape app].
    rewrite Ha, app_nil_r, fmap_app.
    destruct (snd (More.readAnswer (chatPostMessage env (S n) _)));
      cbn; rewrite ?app_nil_r; reflexivity.
Qed.

(** A projection that drops the posts, the logs and the reports of the
    runtime sees nothing of the status message. *)
Lemma view_postLoadingMessage {X} (f : Event -> option X)
    env command token prefecture requests :
  (forall req, f (ChatPostMessage req) = None) ->
  (forall x, f (ConsoleLog x) = None) ->
  (forall e, f (UnhandledRejection e) = None) ->
  preserves (view f) (postLoadingMessage env command token prefecture requests).
Proof.
  intros Hp Hl Hu w. unfold same, view. rewrite postLoadingMessage_eq.
  cbn [snd trace]. rewrite omap_app.
  rewrite (omap_awaited f _ Hp Hl Hu (statusCalls_awaited _ _ _ _ _ _)).
  apply app_nil_r.
Qed.

Lemma posted_view {X} (f : Event -> option X)
    env command token prefecture requests w1 ts w2 :
  (forall req, f (ChatPostMessage req) = None) ->
  (forall x, f (ConsoleLog x) = None) ->
  (forall e, f (UnhandledRejection e) = None) ->
  postLoadingMessage env command token prefecture requests w1
  = (Fulfilled ts, w2) ->
  view f w2 = view f w1.
Proof.
  intros Hp Hl Hu H.
  pose proof (view_postLoadingMessage f env command token prefecture requests
                Hp Hl Hu w1) as Hv.
  unfold same in Hv. rewrite H in Hv. exact Hv.
Qed.

(** *** An invocation that animates *)

Lemma invoke_animation env command context inputs :
  extractMode inputs <> Some "now" ->
  exists prefecture ts w2,
    resolve (prefectureNameOf inputs) = Some prefecture /\
    let urls := frameUrls env prefecture (extractMode inputs) in
    let w1 :=
      {| trace := Ack :: map HttpGet urls;
         canvas := []; gifEncoder := gifEncoder start |} in
    postLoadingMessage env command (botToken context) prefecture
      (imap (httpGet env) urls) w1
    = (Fulfilled ts, w2) /\
    invoke env command context inputs
    = snd (animate env command (botToken context) (prefectureNameOf inputs)
             prefecture 400 300 (extractMode inputs)
             (imap (httpGet env) urls) ts w2).
Proof.
  intros Hmode.
  destruct (handle_animation env command context inputs Hmode)
    as (prefecture & Hres & Heq).
  destruct (uploadAnimation_run env command (botToken context)
              (prefectureNameOf inputs) prefecture (extractMode inputs)
              (snd (emit Ack start))) as (ts & Hts & Hrun).
  set (w1 := {| trace := Ack :: map HttpGet
                           (frameUrls env prefecture (extractMode inputs));
                canvas := []; gifEncoder := gifEncoder start |}).
  assert (Hw1 : requestFrames env prefecture 400 300 (extractMode inputs)
                  (snd (emit Ack start))
                = (imap (httpGet env)
                     (frameUrls env prefecture (extractMode inputs)), w1))
    by (rewrite requestFrames_spec; reflexivity).
  rewrite Hw1 in Hts, Hrun. cbn [fst snd] in Hts, Hrun.
  exists prefecture, ts,
    (snd (postLoadingMessage env command (botToken context) prefecture
            (imap (httpGet env)
               (frameUrls env prefecture (extractMode inputs))) w1)).
  split; [exact Hres |]. cbn zeta. fold w1. split.
  - rewrite <- Hts. apply surjective_pairing.
  - unfold invoke. rewrite Heq. exact Hrun.
Qed.

Lemma imageOf_split (urls : list string) :
  forall (g : nat -> string -> Outcome Buffer)
    (h : nat -> Buffer -> Outcome Image) (imgs : list Image),
  imap (fun i url =>
          match g i url with
          | Fulfilled buf => h i buf
          | Rejected e => Rejected e
          end) urls = Fulfilled <$> imgs ->
  exists bufs,
    imap g urls = Fulfilled <$> bufs /\ imap h bufs = Fulfilled <$> imgs.
Proof.
  induction urls as [|url urls IH]; intros g h imgs H.
  - destruct imgs; [| discriminate]. exists []. split; reflexivity.
  - destruct imgs as [|img imgs]; [discriminate |].
    cbn [imap fmap list_fmap] in H. injection H as H0 H.
    destruct (g 0%nat url) as [buf | e] eqn:Hg; [| discriminate].
    destruct (IH (g ∘ S) (h ∘ S) imgs H) as (bufs & Hb & Hi).
    exists (buf :: bufs). cbn [imap fmap list_fmap].
    rewrite Hg, Hb, H0, Hi. split; reflexivity.
Qed.

(** *** What an invocation that animates leaves behind *)

Lemma view_requests {X} (f : Event -> option X) urls :
  (forall url, f (HttpGet url) = None) -> omap f (map HttpGet urls) = [].
Proof.
  intros H. induction urls as [|url urls IH]; [reflexivity |].
  cbn. rewrite H. exact IH.
Qed.

Lemma view_acknowledged {X} (f : Event -> option X) urls :
  f Ack = None -> (forall url, f (HttpGet url) = None) ->
  omap f (Ack :: map HttpGet urls) = [].
Proof. intros Ha H. cbn. rewrite Ha. apply view_requests, H. Qed.

Lemma view_acknowledged_app {X} (f : Event -> option X) urls rest :
  f Ack = None -> (forall url, f (HttpGet url) = None) ->
  omap f (Ack :: map HttpGet urls ++ rest) = omap f rest.
Proof.
  intros Ha H. cbn. rewrite Ha, omap_app, view_requests by exact H.
  reflexivity.
Qed.

Lemma postCalls_requests urls : postCalls (map HttpGet urls) = 0%nat.
Proof. induction urls as [|url urls IH]; [reflexivity | exact IH]. Qed.

Lemma count_view p w : count p (trace w) = length (view (keep p) w).
Proof. reflexivity. Qed.

Lemma omap_prefix {X} (f : Event -> option X) (l1 l2 : list Event) :
  l1 `prefix_of` l2 -> omap f l1 `prefix_of` omap f l2.
Proof. intros [k ->]. rewrite omap_app. apply prefix_app_r. reflexivity. Qed.

(** One failed request: nothing is decoded, drawn, encoded or uploaded. *)
Lemma animation_rejected env command context inputs i url e :
  extractMode inputs <> Some "now" ->
  getOrder env
    ≡ₚ seq 0 (length (urlsOf (trace (invoke env command context inputs)))) ->
  urlsOf (trace (invoke env command context inputs)) !! i = Some url ->
  httpGet env i url = Rejected e ->
  count isFrameWork (trace (invoke env command context inputs)) = 0%nat.
Proof.
  intros Hmode.
  destruct (animation_urls env command context inputs Hmode)
    as (prefecture & Hres & ->).
  destruct (invoke_animation env command context inputs Hmode)
    as (prefecture' & ts & w2 & Hres' & Hpost & ->).
  rewrite Hres in Hres'. injection Hres' as <-. cbn zeta in Hpost.
  intros Hget Hi He. rewrite count_view.
  rewrite (animate_rejected _ _ _ _ _ _ _ _ i e).
  - rewrite (posted_view _ _ _ _ _ _ _ _ _ (fun _ => eq_refl)
               (fun _ => eq_refl) (fun _ => eq_refl) Hpost).
    unfold view. cbn. rewrite view_requests by reflexivity. reflexivity.
  - rewrite length_imap. exact Hget.
  - rewrite list_lookup_imap, Hi. cbn. rewrite He. reflexivity.
Qed.

(** Whatever fails, the encoder is finished exactly once. *)
Lemma animation_finish env command context inputs :
  extractMode inputs <> Some "now" ->
  Spec.completes env
    (length (urlsOf (trace (invoke env command context inputs)))) ->
  count isFinish (trace (invoke env command context inputs)) = 1%nat.
Proof.
  intros Hmode.
  destruct (animation_urls env command context inputs Hmode)
    as (prefecture & Hres & ->).
  destruct (invoke_animation env command context inputs Hmode)
    as (prefecture' & ts & w2 & Hres' & Hpost & ->).
  rewrite Hres in Hres'. injection Hres' as <-. cbn zeta in Hpost.
  intros Hc. rewrite count_view. rewrite animate_finish.
  - rewrite (posted_view _ _ _ _ _ _ _ _ _ (fun _ => eq_refl)
               (fun _ => eq_refl) (fun _ => eq_refl) Hpost).
    unfold view. cbn. rewrite view_requests by reflexivity. reflexivity.
  - rewrite length_imap. exact Hc.
Qed.

(** Everything succeeds: one animation is uploaded, and the images on top
    of its frames are the images of the requests, in the order of the
    requests. *)
Lemma animation_upload env command context inputs imgs :
  extractMode inputs <> Some "now" ->
  Spec.completes env
    (length (urlsOf (trace (invoke env command context inputs)))) ->
  imap (Spec.imageOf env) (urlsOf (trace (invoke env command context inputs)))
  = Fulfilled <$> imgs ->
  exists req chunks,
    uploadsOf (trace (invoke env command context inputs)) = [req] /\
    upFile req = Encoded chunks /\
    frameImages chunks = imgs.
Proof.
  intros Hmode.
  destruct (animation_urls env command context inputs Hmode)
    as (prefecture & Hres & ->).
  destruct (invoke_animation env command context inputs Hmode)
    as (prefecture' & ts & w2 & Hres' & Hpost & ->).
  rewrite Hres in Hres'. injection Hres' as <-. cbn zeta in Hpost.
  intros Hc Himgs.
  destruct (imageOf_split _ (httpGet env) (loadImage env) imgs Himgs)
    as (bufs & Hbufs & Hloads).
  assert (Hlen : length bufs
                 = length (frameUrls env prefecture (extractMode inputs))).
  { apply (f_equal length) in Hbufs.
    rewrite length_imap, length_fmap in Hbufs. congruence. }
  rewrite Hbufs. rewrite <- Hlen in Hc.
  destruct (animate_fulfilled env command (botToken context)
              (prefectureNameOf inputs) prefecture (extractMode inputs)
              ts bufs imgs w2 Hc Hloads) as (req & chunks & Hv & Hf & Hall).
  exists req, chunks. split; [| split; assumption].
  change (uploadsOf (trace ?w)) with (view asUpload w). rewrite Hv.
  rewrite (posted_view _ _ _ _ _ _ _ _ _ (fun _ => eq_refl)
             (fun _ => eq_refl) (fun _ => eq_refl) Hpost).
  unfold view. cbn. rewrite view_requests by reflexivity. reflexivity.
Qed.

(** The moments of the frames follow each other in time. *)
Lemma loopMoments_lookup n amount unit : forall m i m',
  loopMoments n amount unit m !! i = Some m' ->
  valueOf m' = valueOf m + Z.of_nat i * (amount * msPer unit).
Proof.
  induction n as [|n IH]; intros m i m' H; [discriminate |].
  destruct i as [|i]; cbn in H.
  - injection H as <-. lia.
  - apply IH in H. rewrite H. cbn [add valueOf]. lia.
Qed.

Lemma frameMoments_increasing clock localOffset mode i j m m' :
  (i < j)%nat ->
  frameMoments clock localOffset mode !! i = Some m ->
  frameMoments clock localOffset mode !! j = Some m' ->
  valueOf m < valueOf m'.
Proof.
  unfold frameMoments. intros Hij.
  destruct (decide (mode = Some "today")); intros Hi Hj;
    apply loopMoments_lookup in Hi, Hj; rewrite Hi, Hj; cbn [msPer];
    unfold msPerHour, msPerMinute; nia.
Qed.

(** A name that is neither a key of the table nor a property of every
    object resolves to Tokyo. *)
Lemma resolve_unknown (name : string) :
  Table.prefectures !! name = None ->
  name ∉ Table.objectPrototype ->
  resolve name = resolve "tokyo".
Proof.
  intros Hown Hproto. unfold resolve at 1, Table.get at 1. rewrite Hown.
  rewrite bool_decide_eq_false_2 by exact Hproto. reflexivity.
Qed.

End BotFacts.

(* ================================================================== *)
(** ** The sample invocations *)
(* ================================================================== *)

Module SampleFacts.
Import Promise Moment Bot.

Lemma rev_seq_completes n : rev (seq 0 n) ≡ₚ seq 0 n.
Proof. symmetry. apply Permutation_rev. Qed.

Lemma env_completes : Spec.completes Sample.env 7.
Proof. apply rev_seq_completes. Qed.

Lemma envToday_completes : Spec.completes Sample.envToday 25.
Proof. apply rev_seq_completes. Qed.

Lemma envTimeout_completes : Spec.completes Sample.envTimeout 7.
Proof. apply rev_seq_completes. Qed.

Lemma envEarly_completes : Spec.completes Sample.envEarly 7.
Proof. apply rev_seq_completes. Qed.

Lemma envMuted_completes : Spec.completes Sample.envMuted 7.
Proof. apply rev_seq_completes. Qed.

(** No response of the sample invocations arrives twice. *)
Lemma envDownEarly_once : NoDup (getOrder Sample.envDownEarly).
Proof.
  change (NoDup (rev (seq 0 7))).
  apply NoDup_ListNoDup, List.NoDup_rev, List.seq_NoDup.
Qed.

(** The frames of a day, requested at 16:13: the first is the frame of
    16:13 the day before, the last the frame of 16:13. *)
Example today_first_and_last :
  let urls :=
    urlsOf (trace (run (handler Sample.envToday (Sample.command "tokyo today")
                          Sample.context))) in
  length urls = 25%nat /\
  head urls
  = Some "https://map.yahooapis.jp/map/V1/static?appid=client&z=10&lat=35.68944&lon=139.69167&width=400&height=300&mode=map&overlay=type:rainfall|datelabel:on|date:202611021613" /\
  last urls
  = Some "https://map.yahooapis.jp/map/V1/static?appid=client&z=10&lat=35.68944&lon=139.69167&width=400&height=300&mode=map&overlay=type:rainfall|datelabel:on|date:202611031613".
Proof. vm_compute. repeat split. Qed.

End SampleFacts.

(* ================================================================== *)
(** ** More facts about the handler *)
(* ================================================================== *)

Module MoreFacts.
Import Promise Moment Bot BotFacts.

(** *** Mode [now] *)

Lemma handle_now env command context inputs :
  extractMode inputs = Some "now" ->
  exists prefecture,
    resolve (prefectureNameOf inputs) = Some prefecture /\
    handle env command context inputs
    = uploadNow env command (botToken context) (prefectureNameOf inputs)
        prefecture 400 300.
Proof.
  intros Hmode. unfold handle.
  destruct (resolve_some (prefectureNameOf inputs)) as [prefecture ->].
  exists prefecture. split; [reflexivity |].
  destruct (decide (extractMode inputs = Some "now")); [| contradiction].
  reflexivity.
Qed.

(** The calls of mode [now], whichever way the request and the upload
    end. *)
Lemma invoke_now env command context inputs :
  extractMode inputs = Some "now" ->
  exists prefecture,
    resolve (prefectureNameOf inputs) = Some prefecture /\
    let url := frameUrl env prefecture (More.nowMoment env) in
    trace (invoke env command context inputs)
    = Ack :: HttpGet url ::
      match httpGet env 0 url with
      | Fulfilled image =>
          let req :=
            More.nowUpload command context (prefectureNameOf inputs)
              prefecture image in
          FilesUpload req ::
          match filesUpload env req with
          | Fulfilled res => [ConsoleLog (LogResult res)]
          | Rejected e => [UnhandledRejection e]
          end
      | Rejected e => [UnhandledRejection e]
      end.
Proof.
  intros Hmode.
  destruct (handle_now env command context inputs Hmode)
    as (prefecture & Hres & Heq).
  exists prefecture. split; [exact Hres |]. cbn zeta.
  unfold invoke. rewrite Heq.
  unfold uploadNow, uploadImage, floating, then_, bind, ret, emit. cbn.
  fold (More.nowMoment env). fold (frameUrl env prefecture (More.nowMoment env)).
  destruct (httpGet env 0 _) as [image | e]; cbn; [| reflexivity].
  fold (More.nowUpload command context (prefectureNameOf inputs) prefecture
          image).
  destruct (filesUpload env _) as [res | e]; reflexivity.
Qed.

(** *** The listener *)

Lemma animation_no_listener_error env command context inputs :
  extractMode inputs <> Some "now" ->
  count More.isListenerError (trace (invoke env command context inputs))
  = 0%nat.
Proof.
  intros Hmode.
  destruct (invoke_animation env command context inputs Hmode)
    as (prefecture & ts & w2 & _ & Hpost & ->).
  cbn zeta in Hpost. rewrite count_view.
  assert (Ha : preserves (view (keep More.isListenerError))
                 (animate env command (botToken context)
                    (prefectureNameOf inputs) prefecture 400 300
                    (extractMode inputs)
                    (imap (httpGet env)
                       (frameUrls env prefecture (extractMode inputs))) ts)).
  { apply throughout_animate; try apply same_preorder; try quiet_step.
    - intros o. unfold throughout. intros w.
      destruct o; chain_cases; reflexivity.
    - intros buf. quiet_step.
    - intros img. quiet_step. }
  rewrite Ha.
  rewrite (posted_view _ _ _ _ _ _ _ _ _ (fun _ => eq_refl)
             (fun _ => eq_refl) (fun _ => eq_refl) Hpost).
  unfold view. cbn [trace].
  rewrite view_acknowledged by reflexivity. reflexivity.
Qed.

End MoreFacts.

(* ================================================================== *)
(** ** The command text *)
(* ================================================================== *)

Module TextFacts.
Import Promise Moment Bot.

Lemma lowerChar_token c : More.isUpper c = false -> lowerChar c = c.
Proof. unfold More.isUpper, lowerChar. cbn zeta. intros ->. reflexivity. Qed.

Lemma lowerChar_not_upper c : More.isUpper (lowerChar c) = false.
Proof.
  unfold lowerChar. cbn zeta.
  destruct ((65 <=? nat_of_ascii c)%nat && (nat_of_ascii c <=? 90)%nat)
    eqn:E.
  - apply andb_true_iff in E as [E1 E2].
    apply Nat.leb_le in E1, E2.
    unfold More.isUpper. cbn zeta.
    rewrite nat_ascii_embedding by lia.
    apply andb_false_iff. right. apply Nat.leb_gt. lia.
  - exact E.
Qed.

Lemma lowerChar_space c : isSpace (lowerChar c) = isSpace c.
Proof.
  unfold lowerChar. cbn zeta.
  destruct ((65 <=? nat_of_ascii c)%nat && (nat_of_ascii c <=? 90)%nat)
    eqn:E; [| reflexivity].
  apply andb_true_iff in E as [E1 E2].
  apply Nat.leb_le in E1, E2.
  unfold isSpace. cbn zeta. rewrite nat_ascii_embedding by lia.
  repeat match goal with
         | |- context [(?a =? ?b)%nat] => destruct (Nat.eqb_spec a b); try lia
         | |- context [(?a <=? ?b)%nat] => destruct (Nat.leb_spec a b); try lia
         end; reflexivity.
Qed.

(** Lower case does nothing to a text without upper-case letters. *)
Lemma toLowerCase_id s :
  More.allChars (fun c => negb (More.isUpper c)) s = true ->
  toLowerCase s = s.
Proof.
  induction s as [|c s IH]; cbn; [reflexivity |].
  intros [Hc Hs]%andb_true_iff. apply negb_true_iff in Hc.
  rewrite lowerChar_token by exact Hc. rewrite IH by exact Hs. reflexivity.
Qed.

Lemma toLowerCase_tokens s :
  More.allChars (fun c => negb (More.isUpper c)) (toLowerCase s) = true.
Proof.
  induction s as [|c s IH]; cbn; [reflexivity |].
  rewrite lowerChar_not_upper, IH. reflexivity.
Qed.

Lemma allChars_app p s1 s2 :
  More.allChars p (s1 +:+ s2) = More.allChars p s1 && More.allChars p s2.
Proof.
  induction s1 as [|c s1 IH]; simpl; [reflexivity |].
  rewrite IH. apply andb_assoc.
Qed.

Lemma allChars_impl (p q : ascii -> bool) s :
  (forall c, p c = true -> q c = true) ->
  More.allChars p s = true -> More.allChars q s = true.
Proof.
  intros Hpq. induction s as [|c s IH]; cbn; [reflexivity |].
  intros [Hc Hs]%andb_true_iff. rewrite (Hpq c Hc), IH by exact Hs.
  reflexivity.
Qed.

(** The tokens of a text without upper-case letters hold no white space
    and no upper-case letter. *)
Lemma splitSpaces_tokens s : forall current inSeparator,
  More.allChars (fun c => negb (More.isUpper c)) s = true ->
  More.allChars More.isTokenChar current = true ->
  Forall (fun token => More.allChars More.isTokenChar token = true)
    (splitSpaces s current inSeparator).
Proof.
  induction s as [|c s IH]; intros current inSeparator Hs Hcur;
    cbn [splitSpaces].
  - constructor; [exact Hcur | constructor].
  - cbn in Hs. apply andb_true_iff in Hs as [Hc Hs].
    destruct (isSpace c) eqn:Hsp.
    + destruct inSeparator.
      * apply IH; assumption.
      * constructor; [exact Hcur |]. apply IH; [exact Hs | reflexivity].
    + apply IH; [exact Hs |].
      rewrite allChars_app, Hcur. cbn.
      unfold More.isTokenChar. rewrite Hsp, Hc. reflexivity.
Qed.

Lemma string_app_empty_r (s : string) : s +:+ "" = s.
Proof.
  induction s as [|c s IH]; [reflexivity |].
  change (String c (s +:+ "") = String c s). rewrite IH. reflexivity.
Qed.

Lemma string_app_snoc (s : string) (c : ascii) (t : string) :
  (s +:+ String c "") +:+ t = s +:+ String c t.
Proof.
  induction s as [|a s IH]; [reflexivity |].
  change (String a ((s +:+ String c "") +:+ t) = String a (s +:+ String c t)).
  rewrite IH. reflexivity.
Qed.

(** A run of characters that are no white space goes into the current
    token. *)
Lemma splitSpaces_word word : forall rest current inSeparator,
  More.allChars (fun c => negb (isSpace c)) word = true ->
  splitSpaces (word +:+ rest) current inSeparator
  = splitSpaces rest (current +:+ word)
      (if String.eqb word "" then inSeparator else false).
Proof.
  induction word as [|c word IH]; intros rest current inSeparator Hw.
  - rewrite string_app_empty_r. reflexivity.
  - simpl in Hw. apply andb_true_iff in Hw as [Hc Hw].
    apply negb_true_iff in Hc.
    change (String c word +:+ rest) with (String c (word +:+ rest)).
    cbn [splitSpaces]. rewrite Hc.
    rewrite IH by exact Hw. rewrite string_app_snoc.
    change (String.eqb (String c word) "") with false.
    destruct (String.eqb word ""); reflexivity.
Qed.

Lemma isWord_spec word :
  More.isWord word = true ->
  word <> "" /\
  More.allChars (fun c => negb (isSpace c)) word = true /\
  More.allChars (fun c => negb (More.isUpper c)) word = true.
Proof.
  unfold More.isWord. intros [Hne Hall]%andb_true_iff.
  apply negb_true_iff, String.eqb_neq in Hne.
  split; [exact Hne |].
  split; eapply allChars_impl; try exact Hall; cbn beta;
    unfold More.isTokenChar; intros c Hc;
    apply andb_true_iff in Hc as [Hc _];
    apply andb_true_iff in Hc as [H1 H2]; assumption.
Qed.

Lemma splitSpaces_join words : forall word inSeparator,
  Forall (fun w => More.isWord w = true) (word :: words) ->
  splitSpaces (More.joinSpaces (word :: words)) "" inSeparator
  = word :: words.
Proof.
  induction words as [|word' words IH]; intros word inSeparator Hall.
  - apply Forall_cons in Hall as [Hw _].
    apply isWord_spec in Hw as (Hne & Hsp & _). cbn [More.joinSpaces].
    rewrite <- (string_app_empty_r word) at 1.
    rewrite splitSpaces_word by exact Hsp. reflexivity.
  - apply Forall_cons in Hall as [Hw Hall].
    apply isWord_spec in Hw as (Hne & Hsp & _).
    change (More.joinSpaces (word :: word' :: words))
      with (word +:+ " " +:+ More.joinSpaces (word' :: words)).
    rewrite splitSpaces_word by exact Hsp.
    apply String.eqb_neq in Hne. rewrite Hne.
    change (splitSpaces (String " " (More.joinSpaces (word' :: words)))
              word false = word :: word' :: words).
    cbn [splitSpaces]. change (isSpace " ") with true. cbn iota.
    rewrite IH by exact Hall. reflexivity.
Qed.

Lemma joinSpaces_lower words :
  Forall (fun w => More.isWord w = true) words ->
  More.allChars (fun c => negb (More.isUpper c)) (More.joinSpaces words)
  = true.
Proof.
  induction words as [|word words IH]; intros Hall; [reflexivity |].
  apply Forall_cons in Hall as [Hw Hall].
  apply isWord_spec in Hw as (_ & _ & Hup).
  destruct words as [|word' words]; [exact Hup |].
  change (More.joinSpaces (word :: word' :: words))
    with (word +:+ " " +:+ More.joinSpaces (word' :: words)).
  rewrite !allChars_app, Hup, IH by exact Hall. reflexivity.
Qed.

Lemma joinSpaces_empty word words :
  word <> "" -> More.joinSpaces (word :: words) <> "".
Proof.
  intros Hne. destruct words; cbn [More.joinSpaces]; [exact Hne |].
  destruct word; [contradiction | discriminate].
Qed.

Lemma toLowerCase_idempotent s : toLowerCase (toLowerCase s) = toLowerCase s.
Proof. apply toLowerCase_id, toLowerCase_tokens. Qed.

Lemma commandInputsOf_tokens text :
  Forall (fun token => More.allChars More.isTokenChar token = true)
    (commandInputsOf text).
Proof.
  unfold commandInputsOf. cbn zeta.
  destruct (String.eqb (toLowerCase text) ""); [constructor |].
  apply splitSpaces_tokens; [apply toLowerCase_tokens | reflexivity].
Qed.

Lemma commandInputsOf_join words :
  Forall (fun w => More.isWord w = true) words ->
  commandInputsOf (More.joinSpaces words) = words.
Proof.
  intros Hall. unfold commandInputsOf. cbn zeta.
  rewrite toLowerCase_id by (apply joinSpaces_lower, Hall).
  destruct words as [|word words]; [reflexivity |].
  assert (Hne : word <> "").
  { apply Forall_cons in Hall as [Hw _]. apply isWord_spec in Hw as [Hne _].
    exact Hne. }
  apply (joinSpaces_empty word words), String.eqb_neq in Hne.
  rewrite Hne. apply splitSpaces_join, Hall.
Qed.

Lemma commandInputsOf_leading_space c rest :
  isSpace c = true ->
  commandInputsOf (String c rest)
  = "" :: splitSpaces (toLowerCase rest) "" true.
Proof.
  intros Hc. unfold commandInputsOf. cbn zeta. cbn [toLowerCase].
  change (String.eqb (String (lowerChar c) (toLowerCase rest)) "") with false.
  cbn [splitSpaces]. rewrite lowerChar_space, Hc. reflexivity.
Qed.

(** A word typed after one white-space character is the second token. *)
Lemma commandInputsOf_leading_word c word :
  isSpace c = true -> More.isWord word = true ->
  commandInputsOf (String c word) = [""; word].
Proof.
  intros Hc Hw. rewrite commandInputsOf_leading_space by exact Hc.
  apply isWord_spec in Hw as (Hne & Hsp & Hup).
  rewrite toLowerCase_id by exact Hup.
  rewrite <- (string_app_empty_r word) at 1.
  rewrite splitSpaces_word by exact Hsp.
  apply String.eqb_neq in Hne. rewrite Hne. reflexivity.
Qed.

End TextFacts.

(* ================================================================== *)
(** ** The chain behind the frames, call by call *)
(* ================================================================== *)

Module ChainFacts.
Import Promise Moment Bot BotFacts.

(** Lists of calls, flattened. *)
Ltac flat :=
  repeat first
    [ rewrite <- app_assoc | rewrite <- app_comm_cons | rewrite app_nil_l ].

(** Without frames: the rejection is logged and the encoder finished. *)
Lemma afterFrames_rejected_eq env command token name prefecture mode ts e w :
  afterFrames env command token name prefecture mode ts (Rejected e) w
  = (tt, {| trace := trace w ++ [ConsoleLog (LogError e); Finish];
            canvas := canvas w;
            gifEncoder := write Trailer (gifEncoder w) |}).
Proof.
  unfold afterFrames, printCompleteJSON, finish, finally_, floating, then_,
    catch_, bind, ret, emit. cbn. rewrite <- app_assoc. reflexivity.
Qed.

(** With frames: the data of the encoder is read and uploaded; then the
    status message is deleted, if there is one and the upload succeeded;
    what fails is logged; the encoder is finished. *)
Lemma afterFrames_fulfilled_eq env command context name prefecture mode ts
    vs w :
  let req :=
    More.animationUpload command context name prefecture mode
      (Encoded (out (gifEncoder w))) in
  afterFrames env command (botToken context) name prefecture mode ts
    (Fulfilled vs) w
  = (tt, {| trace := trace w
                     ++ [GetData; FilesUpload req]
                     ++ More.afterUpload env command context ts req
                     ++ [Finish];
            canvas := canvas w;
            gifEncoder := write Trailer (gifEncoder w) |}).
Proof.
  cbn zeta.
  unfold afterFrames, uploadImage, getData, printCompleteJSON, finish,
    finally_, floating, forget, then_, catch_, bind, ret, emit,
    More.afterUpload, More.animationUpload, More.statusDeletion.
  cbn.
  repeat (match goal with
          | |- context [filesUpload ?env ?req] =>
              destruct (filesUpload env req)
          | |- context [chatDelete ?env ?req] =>
              destruct (chatDelete env req)
          | |- context [Js.truthy ?ts] => destruct (Js.truthy ts)
          end; cbn);
    rewrite <- ?app_assoc; reflexivity.
Qed.

(** *** The stages, call by call *)

Lemma startLoads_eq env images : forall i w,
  snd (startLoads env i images w)
  = {| trace := trace w ++ (LoadImage <$> images); canvas := canvas w;
       gifEncoder := gifEncoder w |}.
Proof.
  induction images as [|buf images IH]; intros i w.
  - cbn. rewrite app_nil_r. destruct w; reflexivity.
  - cbn [startLoads]. rewrite !bind_eq. cbn [ret snd]. rewrite IH.
    unfold promisifyImageLoader. rewrite bind_eq. cbn.
    rewrite <- app_assoc. reflexivity.
Qed.

Lemma paintAll_trace imgs : forall w,
  trace (paintAll imgs w) = trace w ++ More.paintCalls imgs.
Proof.
  induction imgs as [|img imgs IH]; intros w; cbn [paintAll].
  - cbn. rewrite app_nil_r. reflexivity.
  - rewrite IH. cbn. rewrite <- !app_assoc. reflexivity.
Qed.

Lemma paintAll_out imgs : forall w,
  out (gifEncoder (paintAll imgs w))
  = out (gifEncoder w) ++ More.snapshots (canvas w) imgs.
Proof.
  induction imgs as [|img imgs IH]; intros w; cbn [paintAll].
  - cbn. rewrite app_nil_r. reflexivity.
  - rewrite IH. cbn. rewrite <- app_assoc. reflexivity.
Qed.

Lemma snapshots_frames imgs : forall canvas,
  exists snapshots, More.snapshots canvas imgs = Frame <$> snapshots.
Proof.
  induction imgs as [|img imgs IH]; intros canvas.
  - exists []. reflexivity.
  - destruct (IH (img :: canvas)) as [snapshots Hs].
    exists ((img :: canvas) :: snapshots). cbn. rewrite Hs. reflexivity.
Qed.

(** When the chain behind the frames starts: the canvas and the encoder
    were created, the loads started, and the images painted. *)
Lemma decoded_trace env images imgs w :
  trace (paintAll imgs
           (snd (startLoads env 0 images
                   (snd (createGIFEncoder 400 300
                           (snd (createCanvas 400 300 w)))))))
  = trace w
    ++ [CreateCanvas 400 300; CreateEncoder 400 300]
    ++ (LoadImage <$> images) ++ More.paintCalls imgs.
Proof.
  rewrite paintAll_trace, startLoads_eq. cbn. rewrite <- !app_assoc.
  reflexivity.
Qed.

Lemma decoded_out env images imgs w :
  out (gifEncoder
         (paintAll imgs
            (snd (startLoads env 0 images
                    (snd (createGIFEncoder 400 300
                            (snd (createCanvas 400 300 w))))))))
  = Header :: More.snapshots [] imgs.
Proof. rewrite paintAll_out, startLoads_eq. reflexivity. Qed.

(** *** The calls of an animation *)

Lemma calls_afterUpload env command context ts req :
  omap (keep (fun e => negb (More.isDecoding e)))
    (More.afterUpload env command context ts req)
  = More.afterUpload env command context ts req.
Proof.
  unfold More.afterUpload.
  destruct (filesUpload env req); [| reflexivity].
  destruct (Js.truthy ts); [| reflexivity].
  cbn. destruct (chatDelete env _); reflexivity.
Qed.

Lemma afterFrames_calls env command context name prefecture mode ts o w :
  More.calls
    (snd (afterFrames env command (botToken context) name prefecture mode ts
            o w))
  = More.calls w
    ++ More.chainCalls env command context name prefecture mode ts o
         (Encoded (out (gifEncoder w))).
Proof.
  destruct o as [vs | e].
  - rewrite afterFrames_fulfilled_eq. cbn [snd].
    unfold More.calls, view. cbn [trace More.chainCalls].
    rewrite !omap_app, calls_afterUpload. reflexivity.
  - rewrite afterFrames_rejected_eq. cbn [snd].
    unfold More.calls, view. cbn [trace]. rewrite omap_app. reflexivity.
Qed.

Lemma calls_decoded env images imgs w :
  More.calls
    (paintAll imgs
       (snd (startLoads env 0 images
               (snd (createGIFEncoder 400 300
                       (snd (createCanvas 400 300 w)))))))
  = More.calls w ++ [CreateCanvas 400 300; CreateEncoder 400 300].
Proof.
  unfold More.calls.
  rewrite paintAll_view, view_startLoads by reflexivity.
  unfold view. cbn. rewrite !omap_app, <- app_assoc. reflexivity.
Qed.

(** The canvas and the encoder are created; then the chain behind the
    frames runs at most once, on an encoder that has written its header and
    frames. *)
Lemma animate_calls env command context name prefecture mode requests ts w :
  let final :=
    snd (animate env command (botToken context) name prefecture 400 300 mode
           requests ts w) in
  let created :=
    More.calls w ++ [CreateCanvas 400 300; CreateEncoder 400 300] in
  More.calls final = created \/
  exists o snapshots,
    More.calls final
    = created
      ++ More.chainCalls env command context name prefecture mode ts o
           (Encoded (Header :: (Frame <$> snapshots))).
Proof.
  cbn zeta. rewrite animate_eq. cbn zeta.
  destruct (all requests _) as [|[images | e]].
  - left. unfold More.calls, view. cbn. rewrite !omap_app, <- app_assoc.
    reflexivity.
  - rewrite decodeAll_eq. cbn zeta.
    destruct (all _ _) as [|o].
    + left. apply calls_decoded.
    + right.
      destruct (snapshots_frames
                  (fulfilledOf (imap (loadImage env) images)) [])
        as [snapshots Hs].
      exists o, snapshots.
      rewrite afterFrames_calls, calls_decoded, decoded_out, Hs. reflexivity.
  - right. exists (Rejected e), []. rewrite afterFrames_calls. f_equal.
    unfold More.calls, view. cbn. rewrite !omap_app, <- app_assoc.
    reflexivity.
Qed.

(** *** The calls of an invocation that animates *)

Lemma omap_keep_all (p : Event -> bool) (events : list Event) :
  Forall (fun e => p e = true) events -> omap (keep p) events = events.
Proof.
  induction 1 as [|e events He _ IH]; [reflexivity |].
  cbn. unfold keep at 1. rewrite He, IH. reflexivity.
Qed.

(** A projection that drops the decoding sees the trace in the calls. *)
Lemma view_calls {X} (f : Event -> option X) w :
  (forall e, More.isDecoding e = true -> f e = None) ->
  omap f (More.calls w) = view f w.
Proof.
  intros Hf. unfold More.calls, view.
  induction (trace w) as [|e tr IH]; [reflexivity |].
  cbn. unfold keep at 1.
  destruct (More.isDecoding e) eqn:He; cbn.
  - rewrite (Hf e He). exact IH.
  - rewrite IH. reflexivity.
Qed.

Lemma isAwaited_calls status :
  Forall (fun e => More.isAwaited e = true) status ->
  omap (keep (fun e => negb (More.isDecoding e))) status = status.
Proof.
  intros H. apply omap_keep_all. eapply Forall_impl; [exact H |].
  intros e He. destruct e; try discriminate He; reflexivity.
Qed.

Lemma isStatus_awaited status :
  Forall (fun e => More.isStatus e = true) status ->
  Forall (fun e => More.isAwaited e = true) status.
Proof.
  intros H. eapply Forall_impl; [exact H |].
  intros e He. destruct e; try discriminate He; reflexivity.
Qed.

Lemma calls_requests urls :
  omap (keep (fun e => negb (More.isDecoding e))) (Ack :: map HttpGet urls)
  = Ack :: map HttpGet urls.
Proof.
  apply omap_keep_all. constructor; [reflexivity |].
  apply Forall_forall. intros e [url [-> _]]%list_elem_of_fmap.
  reflexivity.
Qed.

(** An invocation that animates: the acknowledgement, the requests and
    the status message; then the animation, with the time stamp of the
    status message. *)
Lemma invoke_eq env command context inputs :
  extractMode inputs <> Some "now" ->
  exists prefecture,
    resolve (prefectureNameOf inputs) = Some prefecture /\
    let urls := frameUrls env prefecture (extractMode inputs) in
    let requests := imap (httpGet env) urls in
    let status :=
      More.statusCalls env command (botToken context) prefecture requests 0 in
    urlsOf (trace (invoke env command context inputs)) = urls /\
    invoke env command context inputs
    = snd (animate env command (botToken context) (prefectureNameOf inputs)
             prefecture 400 300 (extractMode inputs) requests (snd status)
             {| trace := Ack :: map HttpGet urls ++ fst status;
                canvas := []; gifEncoder := gifEncoder start |}).
Proof.
  intros Hmode.
  destruct (animation_urls env command context inputs Hmode)
    as (prefecture & Hres & Hurls).
  destruct (invoke_animation env command context inputs Hmode)
    as (prefecture' & ts & w2 & Hres' & Hpost & Heq).
  rewrite Hres in Hres'. injection Hres' as <-. cbn zeta in Hpost, Heq.
  exists prefecture. split; [exact Hres |]. cbn zeta.
  split; [exact Hurls |].
  rewrite postLoadingMessage_eq in Hpost. cbn zeta in Hpost.
  cbn [trace canvas gifEncoder postCalls] in Hpost.
  rewrite postCalls_requests in Hpost.
  injection Hpost as <- <-. exact Heq.
Qed.

(** The number of posts made when [Promise.all] is attached. *)
Lemma postCalls_status urls status :
  postCalls (Ack :: map HttpGet urls ++ status) = length (postsOf status).
Proof.
  cbn [postCalls]. rewrite postCalls_app, postCalls_requests.
  apply postCalls_posts.
Qed.

(** An invocation that animates: the acknowledgement, the requests, the
    status message, the canvas and the encoder; then the chain behind the
    frames, at most once. *)
Lemma invoke_calls env command context inputs :
  extractMode inputs <> Some "now" ->
  exists prefecture ts status,
    resolve (prefectureNameOf inputs) = Some prefecture /\
    Forall (fun e => More.isAwaited e = true) status /\
    (ts = None \/
     exists res msg,
       ConsoleLog (LogResult res) ∈ status /\
       ok res = true /\ message res = Some msg /\ ts = Bot.ts msg) /\
    let created :=
      Ack :: map HttpGet (frameUrls env prefecture (extractMode inputs))
      ++ status ++ [CreateCanvas 400 300; CreateEncoder 400 300] in
    More.calls (invoke env command context inputs) = created \/
    exists o snapshots,
      More.calls (invoke env command context inputs)
      = created
        ++ More.chainCalls env command context (prefectureNameOf inputs)
             prefecture (extractMode inputs) ts o
             (Encoded (Header :: (Frame <$> snapshots))).
Proof.
  intros Hmode.
  destruct (invoke_eq env command context inputs Hmode)
    as (prefecture & Hres & _ & ->).
  cbn zeta.
  set (urls := frameUrls env prefecture (extractMode inputs)).
  set (sc := More.statusCalls env command (botToken context) prefecture
               (imap (httpGet env) urls) 0).
  pose proof (statusCalls_awaited env command (botToken context) prefecture
                (imap (httpGet env) urls) 0) as Hstatus.
  pose proof (statusCalls_ts env command (botToken context) prefecture
                (imap (httpGet env) urls) 0) as Hts.
  cbn zeta in Hts. fold sc in Hstatus, Hts.
  exists prefecture, (snd sc), (fst sc).
  split; [exact Hres |]. split; [exact Hstatus |]. split; [exact Hts |].
  assert (Hcalls :
    More.calls {| trace := Ack :: map HttpGet urls ++ fst sc;
                  canvas := []; gifEncoder := gifEncoder start |}
    = Ack :: map HttpGet urls ++ fst sc).
  { unfold More.calls, view. cbn [trace].
    change (Ack :: map HttpGet urls ++ fst sc)
      with ((Ack :: map HttpGet urls) ++ fst sc).
    rewrite omap_app.
    rewrite (isAwaited_calls (fst sc) Hstatus), calls_requests.
    reflexivity. }
  pose proof (animate_calls env command context (prefectureNameOf inputs)
                prefecture (extractMode inputs) (imap (httpGet env) urls)
                (snd sc)
                {| trace := Ack :: map HttpGet urls ++ fst sc;
                   canvas := []; gifEncoder := gifEncoder start |}) as Ha.
  cbn zeta in Ha. rewrite Hcalls in Ha.
  do 2 (cbn [app] in Ha |- *; rewrite <- ?app_assoc in Ha;
        rewrite <- ?app_assoc).
  exact Ha.
Qed.

(** A projection that drops what a filter drops sees the trace in what the
    filter keeps. *)
Lemma view_keep {X} (f : Event -> option X) (p : Event -> bool) w :
  (forall e, p e = false -> f e = None) ->
  omap f (view (keep p) w) = view f w.
Proof.
  intros Hf. unfold view.
  induction (trace w) as [|e tr IH]; [reflexivity |].
  cbn. unfold keep at 1.
  destruct (p e) eqn:He; cbn.
  - rewrite IH. reflexivity.
  - rewrite (Hf e He). exact IH.
Qed.

Lemma omap_created {X} (f : Event -> option X) urls status :
  (forall e, More.isChainCall e = false -> f e = None) ->
  Forall (fun e => More.isAwaited e = true) status ->
  omap f (Ack :: map HttpGet urls ++ status
          ++ [CreateCanvas 400 300; CreateEncoder 400 300]) = [].
Proof.
  intros Hf Hstatus.
  change (Ack :: map HttpGet urls ++ ?l) with ((Ack :: map HttpGet urls) ++ l).
  rewrite !omap_app.
  rewrite view_acknowledged by (intros; apply Hf; reflexivity).
  cbn. rewrite !Hf by reflexivity. rewrite app_nil_r.
  induction Hstatus as [|e status He _ IH]; [reflexivity |].
  cbn. rewrite Hf; [exact IH |].
  destruct e; try discriminate He; reflexivity.
Qed.

(** The calls of the chain in an invocation that animates: none, or those
    of one run. *)
Lemma invoke_chain env command context inputs :
  extractMode inputs <> Some "now" ->
  exists prefecture ts,
    resolve (prefectureNameOf inputs) = Some prefecture /\
    let chain :=
      view (keep More.isChainCall) (invoke env command context inputs) in
    chain = [] \/
    exists o snapshots,
      chain
      = omap (keep More.isChainCall)
          (More.chainCalls env command context (prefectureNameOf inputs)
             prefecture (extractMode inputs) ts o
             (Encoded (Header :: (Frame <$> snapshots)))).
Proof.
  intros Hmode.
  destruct (invoke_calls env command context inputs Hmode)
    as (prefecture & ts & status & Hres & Hstatus & _ & Hcalls).
  exists prefecture, ts. split; [exact Hres |]. cbn zeta in *.
  rewrite <- (view_calls (keep More.isChainCall))
    by (intros []; cbn; congruence).
  assert (Hkeep : forall e, More.isChainCall e = false ->
                    keep More.isChainCall e = None)
    by (intros e He; unfold keep; rewrite He; reflexivity).
  destruct Hcalls as [-> | (o & snapshots & ->)].
  - left. apply omap_created; assumption.
  - right. exists o, snapshots.
    change (Ack :: map HttpGet ?urls ++ status ++ ?l)
      with ((Ack :: map HttpGet urls ++ status ++ l)).
    match goal with
    | |- omap ?f (?created ++ ?chain) = _ =>
        rewrite (omap_app f created chain)
    end.
    rewrite omap_created by assumption. reflexivity.
Qed.

(** Every way one run of the chain can go. *)
Ltac chain_runs :=
  unfold More.chainCalls, More.afterUpload;
  repeat (match goal with
          | |- context [filesUpload ?env ?req] =>
              let E := fresh "Hupload" in
              destruct (filesUpload env req) eqn:E
          | |- context [chatDelete ?env ?req] =>
              destruct (chatDelete env req)
          | |- context [Js.truthy ?ts] =>
              let E := fresh "Hts" in destruct (Js.truthy ts) eqn:E
          end; cbn).

(** The projections of the trace, read in the calls of the chain. *)
Lemma uploads_chain w :
  uploadsOf (trace w) = omap asUpload (view (keep More.isChainCall) w).
Proof.
  symmetry. apply (view_keep asUpload). intros []; cbn; congruence.
Qed.

Lemma deletes_chain w :
  deletesOf (trace w) = omap asDelete (view (keep More.isChainCall) w).
Proof.
  symmetry. apply (view_keep asDelete). intros []; cbn; congruence.
Qed.

Lemma count_chain (p : Event -> bool) w :
  (forall e, More.isChainCall e = false -> p e = false) ->
  count p (trace w)
  = length (omap (keep p) (view (keep More.isChainCall) w)).
Proof.
  intros Hp. unfold count. f_equal. symmetry. apply (view_keep (keep p)).
  intros e He. unfold keep. rewrite (Hp e He). reflexivity.
Qed.

Ltac chain_views :=
  rewrite ?uploads_chain, ?deletes_chain,
    ?(count_chain isFinish) by (intros []; cbn; congruence);
  rewrite ?(count_chain More.isGetData) by (intros []; cbn; congruence).

End ChainFacts.

(* ================================================================== *)
(** ** Whole invocations *)
(* ================================================================== *)

Module RunFacts.
Import Promise Moment Bot BotFacts ChainFacts.

(** *** The rejection that arrives first *)

Section First.
Context {A : Type}.
Implicit Types (promises : list (Outcome A)) (order : list nat).

Lemma firstRejection_elem promises order e :
  More.firstRejection promises order = Some e ->
  exists i, i ∈ order /\ promises !! i = Some (Rejected e).
Proof.
  induction order as [|i order IH]; cbn; [discriminate |].
  destruct (promises !! i) as [[a | e']|] eqn:Hi; intros H.
  - destruct (IH H) as (j & Hj & He). exists j. split; [right |]; assumption.
  - injection H as ->. exists i. split; [left | exact Hi].
  - destruct (IH H) as (j & Hj & He). exists j. split; [right |]; assumption.
Qed.

Lemma all_run_first promises order e : forall st : AllState A,
  result st = Pending ->
  remaining st = length order ->
  (forall i, i ∈ order -> i < length promises)%nat ->
  More.firstRejection promises order = Some e ->
  result (all_run promises order st) = Settled (Rejected e).
Proof.
  induction order as [|i order IH]; intros st Hp Hr Hlt He;
    [discriminate He |].
  cbn [all_run More.firstRejection] in *.
  destruct (lookup_lt_is_Some_2 promises i) as [oi Hoi];
    [apply Hlt; left |]. rewrite Hoi in *.
  destruct oi as [a | e'].
  - destruct (PromiseFacts.all_settle_fulfilled i a st Hp)
      as (_ & Hr' & Hres).
    rewrite Hr in Hr', Hres. cbn [length pred] in Hr', Hres.
    apply IH; [| exact Hr' | | exact He].
    + rewrite Hres. destruct order; [discriminate He | reflexivity].
    + intros j Hj. apply Hlt. right. exact Hj.
  - injection He as ->.
    erewrite PromiseFacts.all_run_settled;
      apply PromiseFacts.all_settle_rejected, Hp.
Qed.

(** [Promise.all] is rejected with the rejection that arrives first. *)
Lemma all_first promises order e :
  order ≡ₚ seq 0 (length promises) ->
  More.firstRejection promises order = Some e ->
  all promises order = Settled (Rejected e).
Proof.
  intros Hperm He. unfold all.
  destruct (PromiseFacts.all_start_spec (A := A) (length promises))
    as (_ & Hr & Hp).
  destruct (firstRejection_elem promises order e He) as (i & _ & Hi).
  apply all_run_first; [| | | exact He].
  - apply Hp. apply lookup_lt_Some in Hi. lia.
  - rewrite Hr, Hperm, length_seq. reflexivity.
  - intros j. rewrite Hperm, elem_of_seq. lia.
Qed.

Lemma firstRejection_forget promises order :
  More.firstRejection (forget <$> promises) order
  = More.firstRejection promises order.
Proof.
  induction order as [|i order IH]; [reflexivity |].
  cbn [More.firstRejection]. rewrite list_lookup_fmap, IH.
  destruct (promises !! i) as [[a | e]|]; reflexivity.
Qed.

End First.

(** *** The animation, call by call *)

(** Every request answered, every response loaded: the loads are started
    and the images painted in the order of the requests; then the chain
    runs. *)
Lemma animate_fulfilled_trace env command context name prefecture mode ts
    (bufs : list Buffer) (imgs : list Image) w :
  Spec.completes env (length bufs) ->
  imap (loadImage env) bufs = Fulfilled <$> imgs ->
  trace (snd (animate env command (botToken context) name prefecture
                400 300 mode (Fulfilled <$> bufs) ts w))
  = trace w
    ++ [CreateCanvas 400 300; CreateEncoder 400 300]
    ++ (LoadImage <$> bufs)
    ++ More.paintCalls imgs
    ++ More.chainCalls env command context name prefecture mode ts
         (Fulfilled [])
         (Encoded (Header :: More.snapshots [] imgs)).
Proof.
  intros Hget Hloads. rewrite animate_eq. cbn zeta. rewrite length_fmap.
  rewrite PromiseFacts.all_fulfilled by (apply settleOrder_perm, Hget).
  rewrite decodeAll_eq. cbn zeta.
  rewrite Hloads, fulfilledOf_fulfilled, forget_fulfilled.
  assert (Hlen : length imgs = length bufs).
  { apply (f_equal length) in Hloads.
    rewrite length_imap, length_fmap in Hloads. congruence. }
  rewrite PromiseFacts.all_fulfilled
    by (rewrite length_fmap, Hlen; reflexivity).
  rewrite afterFrames_fulfilled_eq. cbn [snd trace].
  rewrite decoded_trace, decoded_out. rewrite <- !app_assoc. reflexivity.
Qed.

(** A request is rejected: the first rejection that [Promise.all] sees is
    logged, and the encoder is finished. *)
Lemma animate_rejected_trace env command token name prefecture mode requests
    ts e w :
  getOrder env ≡ₚ seq 0 (length requests) ->
  More.firstRejection requests
    (settleOrder env (postCalls (trace w)) (length requests)) = Some e ->
  trace (snd (animate env command token name prefecture 400 300 mode
                requests ts w))
  = trace w
    ++ [CreateCanvas 400 300; CreateEncoder 400 300;
        ConsoleLog (LogError e); Finish].
Proof.
  intros Hget He. rewrite animate_eq. cbn zeta.
  rewrite (all_first requests _ e (settleOrder_perm env _ _ Hget) He).
  rewrite afterFrames_rejected_eq. cbn. rewrite <- !app_assoc. reflexivity.
Qed.

(** A load is rejected: every load is started and the images of the other
    responses are painted; then the rejection of the first of the loads
    that failed is logged, and the encoder is finished. *)
Lemma animate_load_rejected env command token name prefecture mode ts
    (bufs : list Buffer) e w :
  Spec.completes env (length bufs) ->
  More.firstRejection (imap (loadImage env) bufs) (seq 0 (length bufs))
  = Some e ->
  trace (snd (animate env command token name prefecture 400 300 mode
                (Fulfilled <$> bufs) ts w))
  = trace w
    ++ [CreateCanvas 400 300; CreateEncoder 400 300]
    ++ (LoadImage <$> bufs)
    ++ More.paintCalls (fulfilledOf (imap (loadImage env) bufs))
    ++ [ConsoleLog (LogError e); Finish].
Proof.
  intros Hget He. rewrite animate_eq. cbn zeta. rewrite length_fmap.
  rewrite PromiseFacts.all_fulfilled by (apply settleOrder_perm, Hget).
  rewrite decodeAll_eq. cbn zeta.
  rewrite (all_first (forget <$> imap (loadImage env) bufs) _ e).
  - rewrite afterFrames_rejected_eq. cbn [snd trace].
    rewrite decoded_trace. rewrite <- !app_assoc. reflexivity.
  - rewrite length_fmap, length_imap. reflexivity.
  - rewrite firstRejection_forget. exact He.
Qed.

(** *** The status message, answer by answer *)

(** Slack answers the first post, with a refusal or with a message: the
    answer is logged, and there is no second post. *)
Lemma statusCalls_answered env command token prefecture requests n res :
  chatPostMessage env n (statusRequest command token prefecture true)
  = Fulfilled res ->
  (ok res = true -> message res <> None) ->
  More.statusCalls env command token prefecture requests n
  = (ChatPostMessage (statusRequest command token prefecture true)
     :: More.reports env 0 requests ++ [ConsoleLog (LogResult res)],
     if ok res then message res ≫= Bot.ts else None).
Proof.
  intros Hres Hmsg. unfold More.statusCalls. cbn zeta. rewrite Hres.
  cbn [More.readAnswer fst snd].
  destruct (ok res); [| reflexivity].
  destruct (message res) as [msg|]; [reflexivity |].
  exfalso. apply Hmsg; reflexivity.
Qed.

(** Slack answers the first post without a message: reading the time stamp
    throws, the error is logged, and the message is posted once more, with
    [asUser] off. *)
Lemma statusCalls_malformed env command token prefecture requests n res :
  chatPostMessage env n (statusRequest command token prefecture true)
  = Fulfilled res ->
  ok res = true -> message res = None ->
  exists logs,
    fst (More.statusCalls env command token prefecture requests n)
    = ChatPostMessage (statusRequest command token prefecture true)
      :: More.reports env 0 requests
      ++ [ConsoleLog (LogResult res); ConsoleLog (LogError "TypeError");
          ChatPostMessage (statusRequest command token prefecture false)]
      ++ More.reports env 1 requests
      ++ (ConsoleLog <$> logs).
Proof.
  intros Hres Hok Hmsg. unfold More.statusCalls. cbn zeta. rewrite Hres.
  cbn [More.readAnswer fst snd]. rewrite Hok, Hmsg. cbn [fst snd app].
  destruct (chatPostMessage env (S n) _) as [res2 | e2];
    cbn [More.readAnswer fst snd].
  - destruct (ok res2); [destruct (message res2) as [msg2|] |];
      cbn [fst snd app].
    + exists [LogResult res2]. reflexivity.
    + exists [LogResult res2; LogError "TypeError"]. reflexivity.
    + exists [LogResult res2]. reflexivity.
  - exists [LogError e2]. reflexivity.
Qed.

(** Both posts are rejected: both rejections are logged, and there is no
    time stamp. *)
Lemma statusCalls_twice env command token prefecture requests n e1 e2 :
  (forall req, chatPostMessage env n req = Rejected e1) ->
  (forall req, chatPostMessage env (S n) req = Rejected e2) ->
  More.statusCalls env command token prefecture requests n
  = (ChatPostMessage (statusRequest command token prefecture true)
     :: More.reports env 0 requests
     ++ [ConsoleLog (LogError e1);
         ChatPostMessage (statusRequest command token prefecture false)]
     ++ More.reports env 1 requests
     ++ [ConsoleLog (LogError e2)],
     None).
Proof.
  intros H1 H2. unfold More.statusCalls. cbn zeta. rewrite H1, H2.
  reflexivity.
Qed.

(** *** Invocations that animate *)

(** Everything succeeds. *)
Lemma invoke_fulfilled env command context inputs imgs :
  extractMode inputs <> Some "now" ->
  let tr := trace (invoke env command context inputs) in
  Spec.completes env (length (urlsOf tr)) ->
  imap (Spec.imageOf env) (urlsOf tr) = Fulfilled <$> imgs ->
  exists prefecture bufs,
    resolve (prefectureNameOf inputs) = Some prefecture /\
    let urls := frameUrls env prefecture (extractMode inputs) in
    let status :=
      More.statusCalls env command (botToken context) prefecture
        (Fulfilled <$> bufs) 0 in
    urlsOf tr = urls /\
    imap (httpGet env) urls = Fulfilled <$> bufs /\
    Forall (fun e => More.isStatus e = true) (fst status) /\
    tr = Ack :: map HttpGet urls
         ++ fst status
         ++ [CreateCanvas 400 300; CreateEncoder 400 300]
         ++ (LoadImage <$> bufs)
         ++ More.paintCalls imgs
         ++ More.chainCalls env command context (prefectureNameOf inputs)
              prefecture (extractMode inputs) (snd status) (Fulfilled [])
              (Encoded (Header :: More.snapshots [] imgs)).
Proof.
  intros Hmode tr. unfold tr.
  destruct (invoke_eq env command context inputs Hmode)
    as (prefecture & Hres & Hurls & Heq).
  cbn zeta in *. rewrite Hurls. intros Hc Himgs. rewrite Heq.
  destruct (imageOf_split _ (httpGet env) (loadImage env) imgs Himgs)
    as (bufs & Hbufs & Hloads).
  assert (Hlen : length bufs
                 = length (frameUrls env prefecture (extractMode inputs))).
  { apply (f_equal length) in Hbufs.
    rewrite length_imap, length_fmap in Hbufs. congruence. }
  rewrite <- Hlen in Hc. rewrite Hbufs.
  exists prefecture, bufs.
  split; [exact Hres |]. split; [reflexivity |]. split; [exact Hbufs |].
  split.
  { apply statusCalls_status. intros post. apply rejectedDuring_fulfilled. }
  rewrite (animate_fulfilled_trace env command context
             (prefectureNameOf inputs) prefecture (extractMode inputs) _
             bufs imgs _ Hc Hloads).
  cbn [trace]. flat. reflexivity.
Qed.

(** *** Reading a whole trace *)

Lemma omap_loads {X} (f : Event -> option X) (bufs : list Buffer) :
  (forall e, More.isDecoding e = true -> f e = None) ->
  omap f (LoadImage <$> bufs) = [].
Proof.
  intros Hf. induction bufs as [|buf bufs IH]; [reflexivity |].
  cbn. rewrite Hf by reflexivity. exact IH.
Qed.

Lemma omap_paintCalls {X} (f : Event -> option X) (imgs : list Image) :
  (forall e, More.isDecoding e = true -> f e = None) ->
  omap f (More.paintCalls imgs) = [].
Proof.
  intros Hf. induction imgs as [|img imgs IH]; [reflexivity |].
  cbn. rewrite !Hf by reflexivity. exact IH.
Qed.

Lemma omap_frames {X} (f : Event -> option X) bufs imgs chain :
  (forall e, More.isDecoding e = true -> f e = None) ->
  f (CreateCanvas 400 300) = None -> f (CreateEncoder 400 300) = None ->
  omap f ([CreateCanvas 400 300; CreateEncoder 400 300]
          ++ (LoadImage <$> bufs) ++ More.paintCalls imgs ++ chain)
  = omap f chain.
Proof.
  intros Hf H1 H2.
  rewrite !omap_app, omap_loads, omap_paintCalls by exact Hf.
  cbn. rewrite H1, H2. reflexivity.
Qed.

Lemma omap_logs {X} (f : Event -> option X) (logs : list Logged) :
  (forall x, f (ConsoleLog x) = None) -> omap f (ConsoleLog <$> logs) = [].
Proof.
  intros Hf. induction logs as [|x logs IH]; [reflexivity |].
  cbn. rewrite Hf. exact IH.
Qed.

Lemma logsOf_logs (logs : list Logged) : logsOf (ConsoleLog <$> logs) = logs.
Proof.
  unfold logsOf. induction logs as [|x logs IH]; [reflexivity |].
  cbn. rewrite IH. reflexivity.
Qed.

(** *** What leaves an animation *)

Lemma unhandled_nil env requests posts :
  (forall post, rejectedDuring env post requests (getOrder env) = []) ->
  More.unhandled env requests posts = [].
Proof.
  intros H. unfold More.unhandled.
  induction (seq 0 posts) as [|post l IH]; [reflexivity |].
  cbn. rewrite H, IH. reflexivity.
Qed.

(** The posts of an invocation that animates are those of the status
    message, and what leaves it are the reports of the runtime while the
    status message is awaited. *)
Lemma invoke_escapes env command context inputs :
  extractMode inputs <> Some "now" ->
  let tr := trace (invoke env command context inputs) in
  omap (keep isEscape) tr
  = UnhandledRejection
    <$> More.unhandled env (imap (httpGet env) (urlsOf tr))
          (length (postsOf tr)).
Proof.
  intros Hmode tr. unfold tr.
  destruct (invoke_eq env command context inputs Hmode)
    as (prefecture & Hres & Hurls & Heq).
  cbn zeta in Hurls, Heq. rewrite Hurls.
  set (urls := frameUrls env prefecture (extractMode inputs)) in *.
  set (sc := More.statusCalls env command (botToken context) prefecture
               (imap (httpGet env) urls) 0) in *.
  assert (Hposts : postsOf (trace (invoke env command context inputs))
                   = postsOf (fst sc)).
  { rewrite Heq. change (postsOf (trace ?w)) with (view asPost w).
    rewrite posts_animate. unfold view. cbn [trace].
    apply view_acknowledged_app; reflexivity. }
  rewrite Hposts, Heq.
  change (omap (keep isEscape) (trace ?w)) with (view (keep isEscape) w).
  rewrite animate_escape. unfold view. cbn [trace].
  rewrite view_acknowledged_app by reflexivity.
  apply statusCalls_escapes.
Qed.

(** *** The order of arrival of the responses *)

Lemma statusCalls_withGetOrder env order command token prefecture
    (bufs : list Buffer) n :
  More.statusCalls (More.withGetOrder env order) command token prefecture
    (Fulfilled <$> bufs) n
  = More.statusCalls env command token prefecture (Fulfilled <$> bufs) n.
Proof.
  unfold More.statusCalls, More.reports. cbn zeta.
  rewrite !rejectedDuring_fulfilled. reflexivity.
Qed.

Lemma animate_withGetOrder env order command token name prefecture mode
    (bufs : list Buffer) ts w :
  getOrder env ≡ₚ seq 0 (length bufs) ->
  order ≡ₚ seq 0 (length bufs) ->
  snd (animate (More.withGetOrder env order) command token name prefecture
         400 300 mode (Fulfilled <$> bufs) ts w)
  = snd (animate env command token name prefecture 400 300 mode
           (Fulfilled <$> bufs) ts w).
Proof.
  intros Hget Horder. rewrite !animate_eq. cbn zeta. rewrite length_fmap.
  rewrite !PromiseFacts.all_fulfilled
    by (apply settleOrder_perm; assumption).
  rewrite !decodeAll_eq. cbn zeta. rewrite !startLoads_eq.
  reflexivity.
Qed.

End RunFacts.

(* ================================================================== *)
(** ** The date stamp tells the minute *)
(* ================================================================== *)

Module StampFacts.
Import Moment Calendar CalendarFacts.

Lemma append_cancel_l (s t1 t2 : string) : s +:+ t1 = s +:+ t2 -> t1 = t2.
Proof.
  induction s as [|c s IH]; intros H; [exact H |].
  change (String c (s +:+ t1) = String c (s +:+ t2)) in H.
  injection H as H. apply IH, H.
Qed.

Lemma append_inj_length (s1 s2 t1 t2 : string) :
  String.length s1 = String.length s2 ->
  s1 +:+ t1 = s2 +:+ t2 -> s1 = s2 /\ t1 = t2.
Proof.
  revert s2. induction s1 as [|c s1 IH]; intros [|c' s2] Hlen H;
    try discriminate Hlen.
  - split; [reflexivity | exact H].
  - change (String c (s1 +:+ t1) = String c' (s2 +:+ t2)) in H.
    injection H as -> H. injection Hlen as Hlen.
    destruct (IH s2 Hlen H) as [-> ->]. split; reflexivity.
Qed.

(** The numeral of a positive number does not start with a zero. *)
Lemma pretty_N_go_head (x : N) : forall s,
  (0 < x)%N ->
  exists c rest, pretty_N_go x s = String c rest /\ c <> "0"%char.
Proof.
  induction (N.lt_wf_0 x) as [x _ IH]. intros s Hx.
  rewrite pretty_N_go_step by exact Hx.
  destruct (N.eq_dec (x / 10)%N 0%N) as [Hz | Hnz].
  - rewrite Hz, pretty_N_go_0. eexists _, _. split; [reflexivity |].
    apply N.div_small_iff in Hz; [| lia].
    rewrite N.mod_small by exact Hz.
    assert (x = 1 \/ x = 2 \/ x = 3 \/ x = 4 \/ x = 5 \/ x = 6
            \/ x = 7 \/ x = 8 \/ x = 9)%N as Hcases by lia.
    destruct Hcases as [-> | [-> | [-> | [-> | [-> | [-> | [-> | [-> | ->]]]]]]]];
      discriminate.
  - apply IH; [apply N.div_lt; lia | apply N.neq_0_lt_0, Hnz].
Qed.

Lemma pretty_head (n : Z) :
  0 <= n ->
  exists c rest,
    pretty n = String c rest /\ (c = "0"%char -> n = 0 /\ rest = "").
Proof.
  intros Hn. destruct n as [|p|p]; [| | lia].
  - exists "0"%char, "". split; [reflexivity | auto].
  - change (pretty (Z.pos p)) with (pretty_N_go (N.pos p) "").
    destruct (pretty_N_go_head (N.pos p) "") as (c & rest & -> & Hc); [lia |].
    exists c, rest. split; [reflexivity |]. intros ->. contradiction.
Qed.

Lemma zeros_pretty (a : nat) (n n' : Z) :
  0 <= n -> 0 <= n' ->
  pretty n = zeros (S a) +:+ pretty n' -> False.
Proof.
  intros Hn Hn' H.
  destruct (pretty_head n Hn) as (c & rest & Hp & Hc).
  destruct (pretty_head n' Hn') as (c' & rest' & Hp' & _).
  rewrite Hp, Hp' in H.
  change (String c rest = String "0" (zeros a +:+ String c' rest')) in H.
  injection H as -> Hrest.
  destruct (Hc eq_refl) as [_ ->].
  destruct a; discriminate Hrest.
Qed.

Lemma zeros_add (a b : nat) : zeros (a + b) = zeros a +:+ zeros b.
Proof.
  induction a as [|a IH]; [reflexivity |].
  change (String "0" (zeros (a + b)) = String "0" (zeros a +:+ zeros b)).
  rewrite IH. reflexivity.
Qed.

Lemma append_assoc (s1 s2 s3 : string) :
  (s1 +:+ s2) +:+ s3 = s1 +:+ s2 +:+ s3.
Proof.
  induction s1 as [|c s1 IH]; [reflexivity |].
  change (String c ((s1 +:+ s2) +:+ s3) = String c (s1 +:+ s2 +:+ s3)).
  rewrite IH. reflexivity.
Qed.

Lemma zeros_pretty_inj (a b : nat) (n n' : Z) :
  0 <= n -> 0 <= n' ->
  zeros a +:+ pretty n = zeros b +:+ pretty n' -> n = n'.
Proof.
  intros Hn Hn' H.
  destruct (Nat.lt_trichotomy a b) as [Hlt | [-> | Hgt]].
  - exfalso. replace b with (a + S (b - a - 1))%nat in H by lia.
    rewrite zeros_add, append_assoc in H. apply append_cancel_l in H.
    eapply zeros_pretty; [| | exact H]; assumption.
  - apply append_cancel_l in H. apply (inj pretty), H.
  - exfalso. replace a with (b + S (a - b - 1))%nat in H by lia.
    rewrite zeros_add, append_assoc in H. apply append_cancel_l in H.
    symmetry in H. eapply zeros_pretty; [| | exact H]; assumption.
Qed.

(** A zero-filled numeral tells its number. *)
Lemma zeroFill_inj (n n' : Z) (k : nat) :
  0 <= n -> 0 <= n' -> zeroFill n k = zeroFill n' k -> n = n'.
Proof.
  intros Hn Hn'. unfold zeroFill.
  rewrite !Z.abs_eq by assumption.
  destruct (Z.leb_spec 0 n); [| lia]. destruct (Z.leb_spec 0 n'); [| lia].
  change ("" +:+ ?s) with s. apply zeros_pretty_inj; assumption.
Qed.

(** The stamp of a moment tells the minute of its wall clock. *)
Lemma format_inj (m m' : Moment) :
  0 <= wallClock m < 253402300800000 ->
  0 <= wallClock m' < 253402300800000 ->
  format_YYYYMMDDHHmm m = format_YYYYMMDDHHmm m' ->
  wallClock m / msPerMinute = wallClock m' / msPerMinute.
Proof.
  intros Hw Hw' H.
  destruct (moment_date_correct m) as ([Hmo Hd] & [Hh Hmi] & <-).
  destruct (moment_date_correct m') as ([Hmo' Hd'] & [Hh' Hmi'] & <-).
  pose proof (moment_year_bounds m Hw) as Hy.
  pose proof (moment_year_bounds m' Hw') as Hy'.
  pose proof (days_in_month_le_31 (year m) (month m + 1)) as H31.
  pose proof (days_in_month_le_31 (year m') (month m' + 1)) as H31'.
  unfold format_YYYYMMDDHHmm in H.
  apply append_inj_length in H as [Hyear H];
    [| rewrite !length_zeroFill_4 by lia; reflexivity].
  apply append_inj_length in H as [Hmonth H];
    [| rewrite !length_zeroFill_2 by lia; reflexivity].
  apply append_inj_length in H as [Hdate H];
    [| rewrite !length_zeroFill_2 by lia; reflexivity].
  apply append_inj_length in H as [Hhours Hminutes];
    [| rewrite !length_zeroFill_2 by lia; reflexivity].
  apply zeroFill_inj in Hyear, Hmonth, Hdate, Hhours, Hminutes; try lia.
  assert (Hmonth' : month m = month m') by lia.
  rewrite Hyear, Hmonth', Hdate, Hhours, Hminutes. reflexivity.
Qed.

(** Moments of the same minute have the same stamp. *)
Lemma format_of_minute (m m' : Moment) :
  wallClock m / msPerMinute = wallClock m' / msPerMinute ->
  format_YYYYMMDDHHmm m = format_YYYYMMDDHHmm m'.
Proof.
  intros H.
  assert (Hday : dayNumber m = dayNumber m').
  { unfold dayNumber, msPerDay, msPerMinute in *.
    Z.div_mod_to_equations. lia. }
  assert (Hh : hours m = hours m').
  { unfold hours, timeInDay, msPerDay, msPerHour, msPerMinute in *.
    Z.div_mod_to_equations. lia. }
  assert (Hmi : minutes m = minutes m').
  { unfold minutes, timeInDay, msPerDay, msPerHour, msPerMinute in *.
    Z.div_mod_to_equations. lia. }
  unfold format_YYYYMMDDHHmm, year, month, date.
  rewrite Hday, Hh, Hmi. reflexivity.
Qed.

(** *** The digits of the stamp *)

Lemma length_decimal (k : nat) : forall n,
  String.length (decimal k n) = k.
Proof.
  induction k as [|k IH]; intros n; [reflexivity |].
  cbn [decimal]. rewrite length_append, IH. cbn. lia.
Qed.

Lemma length_stamp y mo d h mi : String.length (stamp y mo d h mi) = 12%nat.
Proof.
  unfold stamp. rewrite !length_append, !length_decimal. reflexivity.
Qed.

(** Below a bound, zero-filling a number to [k] characters gives its last
    [k] decimal digits: by trying every number. *)
Lemma zeroFill_decimal (k : nat) (bound : Z) :
  forallb (fun i => String.eqb (zeroFill (Z.of_nat i) k)
                      (decimal k (Z.of_nat i)))
    (seq 0 (Z.to_nat bound)) = true ->
  forall n, 0 <= n < bound -> zeroFill n k = decimal k n.
Proof.
  intros H n Hn. rewrite forallb_forall in H.
  specialize (H (Z.to_nat n)). rewrite Z2Nat.id in H by lia.
  apply String.eqb_eq, H, in_seq. lia.
Qed.

Lemma zeroFill_decimal_2 n : 0 <= n <= 99 -> zeroFill n 2 = decimal 2 n.
Proof.
  intros H. apply (zeroFill_decimal 2 100); [vm_compute; reflexivity | lia].
Qed.

Lemma zeroFill_decimal_4 n : 0 <= n <= 9999 -> zeroFill n 4 = decimal 4 n.
Proof.
  intros H. apply (zeroFill_decimal 4 10000); [vm_compute; reflexivity | lia].
Qed.

(** *** A minute has one date and one time *)

Lemma days_before_year_succ y :
  days_before_year (y + 1) = days_before_year y + 365 + leap_days y.
Proof.
  unfold days_before_year. replace (y + 1 - 1) with y by lia.
  destruct (leap_days_spec y) as [[-> H] | [-> H]];
    Z.div_mod_to_equations; lia.
Qed.

Lemma days_from_civil_year y mo d y' mo' d' :
  valid_date y mo d -> valid_date y' mo' d' -> y < y' ->
  days_from_civil y mo d < days_from_civil y' mo' d'.
Proof.
  intros Hv Hv' Hlt. unfold days_from_civil.
  pose proof (day_of_year_bounds y mo d Hv).
  pose proof (day_of_year_bounds y' mo' d' Hv').
  pose proof (days_before_year_succ y).
  pose proof (days_before_year_mono (y + 1) y' ltac:(lia)). lia.
Qed.

(** A month ends before a later month of the year starts. *)
Lemma days_before_month_next y mo mo' :
  1 <= mo -> mo < mo' -> mo' <= 12 ->
  days_before_month y mo + days_in_month y mo <= days_before_month y mo'.
Proof.
  intros H1 H2 H3.
  rewrite !days_before_month_cases by lia. rewrite days_in_month_cases.
  assert (Hl : 0 <= leap_days y <= 1)
    by (unfold leap_days; destruct (is_leap y); lia).
  destruct (Z.leb_spec mo 2); destruct (Z.leb_spec mo' 2);
    destruct (Z.eqb_spec mo 2); destruct (Z.eqb_spec mo 4);
    destruct (Z.eqb_spec mo 6); destruct (Z.eqb_spec mo 9);
    destruct (Z.eqb_spec mo 11); cbn [orb]; try lia.
  all: Z.div_mod_to_equations; lia.
Qed.

Lemma days_from_civil_inj y mo d y' mo' d' :
  valid_date y mo d -> valid_date y' mo' d' ->
  days_from_civil y mo d = days_from_civil y' mo' d' ->
  y = y' /\ mo = mo' /\ d = d'.
Proof.
  intros Hv Hv' He.
  assert (y = y') as <-.
  { destruct (Z.lt_trichotomy y y') as [H | [H | H]]; [| exact H |].
    - pose proof (days_from_civil_year y mo d y' mo' d' Hv Hv' H). lia.
    - pose proof (days_from_civil_year y' mo' d' y mo d Hv' Hv H). lia. }
  split; [reflexivity |].
  unfold days_from_civil in He.
  destruct Hv as [Hmo Hd], Hv' as [Hmo' Hd'].
  assert (mo = mo') as <-.
  { destruct (Z.lt_trichotomy mo mo') as [H | [H | H]]; [| exact H |].
    - pose proof (days_before_month_next y mo mo'). lia.
    - pose proof (days_before_month_next y mo' mo). lia. }
  split; [reflexivity | lia].
Qed.

Lemma civil_minute_inj y mo d h mi y' mo' d' h' mi' :
  valid_date y mo d -> valid_time h mi ->
  valid_date y' mo' d' -> valid_time h' mi' ->
  days_from_civil y mo d * 1440 + h * 60 + mi
  = days_from_civil y' mo' d' * 1440 + h' * 60 + mi' ->
  y = y' /\ mo = mo' /\ d = d' /\ h = h' /\ mi = mi'.
Proof.
  intros Hv [Hh Hmi] Hv' [Hh' Hmi'] He.
  assert (Hd : days_from_civil y mo d = days_from_civil y' mo' d') by lia.
  destruct (days_from_civil_inj _ _ _ _ _ _ Hv Hv' Hd) as (-> & -> & ->).
  repeat split; lia.
Qed.

(** The stamp of a moment is the stamp of its date and time. *)
Lemma format_stamp (m : Moment) y mo d h mi :
  0 <= wallClock m < 253402300800000 ->
  valid_date y mo d -> valid_time h mi ->
  days_from_civil y mo d * 1440 + h * 60 + mi = wallClock m / msPerMinute ->
  format_YYYYMMDDHHmm m = stamp y mo d h mi.
Proof.
  intros Hw Hv Ht He.
  destruct (moment_date_correct m) as (Hv' & Ht' & He').
  pose proof (moment_year_bounds m Hw) as Hy.
  rewrite <- He' in He.
  destruct (civil_minute_inj _ _ _ _ _ _ _ _ _ _ Hv Ht Hv' Ht' He)
    as (-> & -> & -> & -> & ->).
  destruct Hv' as [Hmo Hd], Ht' as [Hh Hmi].
  pose proof (days_in_month_le_31 (year m) (month m + 1)) as H31.
  unfold format_YYYYMMDDHHmm, stamp.
  rewrite zeroFill_decimal_4 by lia.
  rewrite !zeroFill_decimal_2 by lia. reflexivity.
Qed.

(** *** The URLs of the frames *)

Lemma frameUrl_inj (env : Bot.Env) prefecture (m m' : Moment) :
  0 <= wallClock m < 253402300800000 ->
  0 <= wallClock m' < 253402300800000 ->
  Bot.frameUrl env prefecture m = Bot.frameUrl env prefecture m' ->
  wallClock m / msPerMinute = wallClock m' / msPerMinute.
Proof.
  intros Hw Hw' H. apply format_inj; [assumption.. |].
  unfold Bot.frameUrl, Url.buildImageUrl in H. cbn [Url.m] in H.
  eapply append_cancel_l. exact H.
Qed.

Lemma loopMoments_offset n amount unit : forall m i m',
  Bot.loopMoments n amount unit m !! i = Some m' ->
  utcOffset m' = utcOffset m /\ (i < n)%nat.
Proof.
  induction n as [|n IH]; intros m i m' H; [discriminate |].
  destruct i as [|i]; cbn in H.
  - injection H as <-. split; [reflexivity | lia].
  - apply IH in H as [-> Hi]. split; [reflexivity | lia].
Qed.

(** The frames of an animation are a whole number of minutes apart, one
    after the other, from a day or ten minutes before the invocation. *)
Lemma frameMoments_wallClock clock localOffset mode i m :
  Bot.frameMoments clock localOffset mode !! i = Some m ->
  let today := bool_decide (mode = Some "today") in
  wallClock m
  = clock + 9 * msPerHour
    - (if today then msPerDay else 10 * msPerMinute)
    + Z.of_nat i * ((if today then 60 else 10) * msPerMinute) /\
  (i < if today then 25 else 7)%nat.
Proof.
  unfold Bot.frameMoments. cbn zeta.
  destruct (decide (mode = Some "today")) as [Hmode | Hmode]; intros H;
    [rewrite (bool_decide_eq_true_2 _ Hmode)
    | rewrite (bool_decide_eq_false_2 _ Hmode)];
    pose proof (BotFacts.loopMoments_lookup _ _ _ _ _ _ H) as Hv;
    apply loopMoments_offset in H as [Ho Hi];
    (split; [| exact Hi]);
    unfold wallClock; rewrite Hv, Ho;
    cbn [valueOf utcOffset subtract tz_Tokyo moment msPer];
    unfold tokyoOffset, msPerDay, msPerHour, msPerMinute; lia.
Qed.

Lemma frameUrls_NoDup env prefecture mode :
  msPerDay <= Bot.clock env ->
  Bot.clock env + 10 * msPerHour < 253402300800000 ->
  NoDup (Bot.frameUrls env prefecture mode).
Proof.
  intros Hlo Hhi. apply NoDup_alt. intros i j url Hi Hj.
  unfold Bot.frameUrls in Hi, Hj.
  rewrite list_lookup_fmap in Hi, Hj.
  destruct (Bot.frameMoments _ _ _ !! i) as [m|] eqn:Hm; [| discriminate].
  destruct (Bot.frameMoments _ _ _ !! j) as [m'|] eqn:Hm'; [| discriminate].
  cbn in Hi, Hj. injection Hi as Hi. injection Hj as Hj.
  destruct (frameMoments_wallClock _ _ _ _ _ Hm) as [Hw Hlt].
  destruct (frameMoments_wallClock _ _ _ _ _ Hm') as [Hw' Hlt'].
  assert (He : wallClock m / msPerMinute = wallClock m' / msPerMinute).
  { apply (frameUrl_inj env prefecture); [| | congruence];
      [rewrite Hw | rewrite Hw'];
      destruct (bool_decide (mode = Some "today"));
      unfold msPerDay, msPerHour, msPerMinute in *; lia. }
  rewrite Hw, Hw' in He. clear -He.
  destruct (bool_decide (mode = Some "today"));
    unfold msPerDay, msPerHour, msPerMinute in He;
    Z.div_mod_to_equations; lia.
Qed.

End StampFacts.

(* ================================================================== *)
(** ** The properties *)
(* ================================================================== *)

Import Promise Moment Bot.

(** C4.  In mode [today] (the second token of the command is [today]), the
    invocation requests exactly 25 URLs; they are the URLs of 25 moments in
    Tokyo, one hour apart, of which the first is 24 hours before the
    invocation and the last is the instant of the invocation. *)
Theorem today_requests_25_hourly_frames env command context first rest :
  let tr := trace (invoke env command context (first :: "today" :: rest)) in
  let moments := frameMoments (clock env) (localOffset env) (Some "today") in
  (exists prefecture,
     resolve first = Some prefecture /\
     urlsOf tr = map (frameUrl env prefecture) moments) /\
  length (urlsOf tr) = 25%nat /\
  Forall (fun m => utcOffset m = tokyoOffset) moments /\
  map valueOf moments
  = map (fun i => clock env - 24 * msPerHour + Z.of_nat i * msPerHour)
      (seq 0 25) /\
  valueOf <$> head moments = Some (clock env - 24 * msPerHour) /\
  valueOf <$> last moments = Some (clock env).
Proof.
  cbn zeta.
  destruct (BotFacts.animation_urls env command context
              (first :: "today" :: rest)) as (prefecture & Hres & Hurls);
    [discriminate |].
  change (extractMode (first :: "today" :: rest)) with (Some "today") in Hurls.
  split; [exists prefecture; split; [exact Hres | exact Hurls] |].
  split; [rewrite Hurls; reflexivity |].
  unfold frameMoments.
  destruct (decide (Some "today" = Some "today")); [| contradiction].
  cbn [loopMoments map seq head last fmap option_fmap option_map
       valueOf utcOffset add subtract tz_Tokyo moment msPer].
  unfold msPerDay, msPerHour.
  split; [repeat constructor |].
  split; [| split; f_equal; lia].
  repeat (apply (f_equal2 cons); [lia |]). reflexivity.
Qed.

(** C5, as the code has it.  In the default mode (no second token), the
    invocation requests exactly 7 URLs; they are the URLs of 7 moments in
    Tokyo, ten minutes apart, of which the first is ten minutes before the
    invocation and the last is fifty minutes after it. *)
Theorem forecast_requests_7_frames env command context inputs :
  extractMode inputs = None ->
  let tr := trace (invoke env command context inputs) in
  let moments := frameMoments (clock env) (localOffset env) None in
  (exists prefecture,
     resolve (prefectureNameOf inputs) = Some prefecture /\
     urlsOf tr = map (frameUrl env prefecture) moments) /\
  length (urlsOf tr) = 7%nat /\
  Forall (fun m => utcOffset m = tokyoOffset) moments /\
  map valueOf moments
  = map (fun i => clock env - 10 * msPerMinute + Z.of_nat i * (10 * msPerMinute))
      (seq 0 7) /\
  valueOf <$> head moments = Some (clock env - 10 * msPerMinute) /\
  valueOf <$> last moments = Some (clock env + 50 * msPerMinute).
Proof.
  intros Hmode. cbn zeta.
  destruct (BotFacts.animation_urls env command context inputs)
    as (prefecture & Hres & Hurls); [rewrite Hmode; discriminate |].
  rewrite Hmode in Hurls.
  split; [exists prefecture; split; [exact Hres | exact Hurls] |].
  split; [rewrite Hurls; reflexivity |].
  unfold frameMoments.
  destruct (decide (None = Some "today")); [discriminate |].
  cbn [loopMoments map seq head last fmap option_fmap option_map
       valueOf utcOffset add subtract tz_Tokyo moment msPer].
  unfold msPerMinute.
  split; [repeat constructor |].
  split; [| split; f_equal; lia].
  repeat (apply (f_equal2 cons); [lia |]). reflexivity.
Qed.

(** The forecast of the sample invocation has 7 requests. *)
Lemma forecast_requests_7_frames_witness :
  length (urlsOf (trace (invoke Sample.env (Sample.command "osaka")
                           Sample.context ["osaka"]))) = 7%nat.
Proof.
  apply (forecast_requests_7_frames Sample.env (Sample.command "osaka")
           Sample.context ["osaka"]).
  reflexivity.
Defined.

(** C5, as stated, fails: invoked at 16:13, the forecast requests the
    frames of 16:03 to 17:03, and those after 16:13 do not lie in the hour
    before the invocation. *)
Lemma forecast_does_not_look_back :
  ~ Spec.forecast_looks_back (clock Sample.env) (localOffset Sample.env).
Proof.
  intros H.
  specialize (H {| valueOf := 1793689980000 + 50 * 60000;
                   utcOffset := tokyoOffset |}).
  assert (Hin : {| valueOf := 1793689980000 + 50 * 60000;
                   utcOffset := tokyoOffset |}
                ∈ frameMoments (clock Sample.env) (localOffset Sample.env) None).
  { vm_compute. repeat (first [left; reflexivity | right]). }
  apply H in Hin. cbn in Hin. unfold msPerHour in Hin. lia.
Qed.

(** C6.  [buildImageUrl] is a function of its arguments and of the
    environment of the process, with no effect.  For a moment in Tokyo, of
    an instant from 1970 to the end of the year 9999, the minute of the
    wall clock nine hours east of Greenwich has a date and a time of the
    calendar, and the URL ends with their twelve decimal digits: four of
    the year, two of the month, of the day, of the hour and of the minute;
    the local time zone of the process has no part in it. *)
Theorem buildImageUrl_date_in_Tokyo
    (penv : Url.ProcessEnv) (lat lon : option Js.Number) (width height : Z)
    (instant : Z) :
  0 <= instant -> instant + 9 * msPerHour < 253402300800000 ->
  let minute := (instant + 9 * msPerHour) / msPerMinute in
  (exists y mo d h mi,
     Calendar.valid_date y mo d /\ Calendar.valid_time h mi /\
     Calendar.days_from_civil y mo d * 1440 + h * 60 + mi = minute) /\
  forall y mo d h mi,
    Calendar.valid_date y mo d -> Calendar.valid_time h mi ->
    Calendar.days_from_civil y mo d * 1440 + h * 60 + mi = minute ->
    String.length (Calendar.stamp y mo d h mi) = 12%nat /\
    forall localOffset,
      let args :=
        {| Url.lat := lat; Url.lon := lon; Url.width := width;
           Url.height := height;
           Url.m := tz_Tokyo (moment instant localOffset) |} in
      Url.buildImageUrl penv args
      = Url.urlBeforeDate penv args +:+ Calendar.stamp y mo d h mi.
Proof.
  intros Hlo Hhi. cbn zeta.
  set (m := tz_Tokyo (moment instant 0)).
  assert (Hw : wallClock m = instant + 9 * msPerHour)
    by (unfold m, wallClock, tz_Tokyo, moment, tokyoOffset, msPerHour,
          msPerMinute; cbn [valueOf utcOffset]; lia).
  split.
  - destruct (CalendarFacts.moment_date_correct m) as (Hd & Ht & He).
    exists (year m), (month m + 1), (date m), (hours m), (minutes m).
    split; [exact Hd |]. split; [exact Ht |]. rewrite He, Hw. reflexivity.
  - intros y mo d h mi Hd Ht He.
    split; [apply StampFacts.length_stamp |].
    intros localOffset. unfold Url.buildImageUrl. cbn [Url.m]. f_equal.
    change (format_YYYYMMDDHHmm m = Calendar.stamp y mo d h mi).
    apply StampFacts.format_stamp; [| exact Hd | exact Ht |].
    + rewrite Hw. unfold msPerHour in *. lia.
    + rewrite Hw. exact He.
Qed.

(** The URL of 2026-11-03 07:13 UTC, built in a process eight hours west
    of Greenwich: the date is 2026-11-03 16:13. *)
Lemma buildImageUrl_date_in_Tokyo_witness :
  Url.buildImageUrl Sample.processEnv
    {| Url.lat := Some "35.68944"; Url.lon := Some "139.69167";
       Url.width := 400; Url.height := 300;
       Url.m := tz_Tokyo (moment 1793689980000 (-480)) |}
  = "https://map.yahooapis.jp/map/V1/static?appid=client&z=10&lat=35.68944&lon=139.69167&width=400&height=300&mode=map&overlay=type:rainfall|datelabel:on|date:202611031613".
Proof.
  destruct (buildImageUrl_date_in_Tokyo Sample.processEnv
              (Some "35.68944") (Some "139.69167") 400 300 1793689980000)
    as [_ Hstamp].
  - lia.
  - unfold msPerHour. lia.
  - destruct (Hstamp 2026 11 3 16 13) as [_ Hurl].
    + vm_compute. repeat split; discriminate.
    + vm_compute. repeat split; discriminate.
    + vm_compute. reflexivity.
    + rewrite Hurl. vm_compute. reflexivity.
Defined.

(** C1.  When every request is answered and every response is loaded as
    an image, one animation is uploaded, and the images on top of its
    frames are the images of the requests in the order of the requests,
    which is the order of their moments in time: whatever the order in
    which the responses arrive, and whether they arrive while the status
    message is awaited or afterwards.  The image library decodes a buffer
    inside the call that starts the load, so the loads end in the order in
    which they are started. *)
Theorem frames_in_chronological_order env command context inputs imgs :
  extractMode inputs <> Some "now" ->
  let tr := trace (invoke env command context inputs) in
  let moments :=
    frameMoments (clock env) (localOffset env) (extractMode inputs) in
  Spec.completes env (length (urlsOf tr)) ->
  imap (Spec.imageOf env) (urlsOf tr) = Fulfilled <$> imgs ->
  (exists prefecture,
     resolve (prefectureNameOf inputs) = Some prefecture /\
     urlsOf tr = map (frameUrl env prefecture) moments) /\
  (forall i j m m',
     (i < j)%nat -> moments !! i = Some m -> moments !! j = Some m' ->
     valueOf m < valueOf m') /\
  (exists req chunks,
     uploadsOf tr = [req] /\
     upFile req = Encoded chunks /\
     frameImages chunks = imgs) /\
  Spec.frames_in_request_order (invoke env command context inputs) env.
Proof.
  intros Hmode tr moments Hc Himgs.
  split; [apply BotFacts.animation_urls, Hmode |].
  split; [apply BotFacts.frameMoments_increasing |].
  destruct (BotFacts.animation_upload env command context inputs imgs
              Hmode Hc Himgs) as (req & chunks & Hu & Hf & Hframes).
  split; [exists req, chunks; repeat split; assumption |].
  intros req' Hin. fold tr in Hu. fold tr in Hin. rewrite Hu in Hin.
  apply list_elem_of_singleton in Hin as ->.
  exists chunks. split; [exact Hf |]. fold tr. rewrite Hframes, Himgs.
  reflexivity.
Qed.

(** The responses of the sample invocation arrive in the reverse order of
    the requests; the frames of its animation are in the order of the
    requests. *)
Lemma frames_in_chronological_order_witness :
  exists req chunks,
    uploadsOf (trace (invoke Sample.env (Sample.command "osaka")
                        Sample.context ["osaka"])) = [req] /\
    upFile req = Encoded chunks /\
    frameImages chunks
    = Decoded <$> urlsOf (trace (invoke Sample.env (Sample.command "osaka")
                                   Sample.context ["osaka"])).
Proof.
  destruct (frames_in_chronological_order Sample.env (Sample.command "osaka")
              Sample.context ["osaka"]
              (Decoded <$> urlsOf (trace (invoke Sample.env
                                            (Sample.command "osaka")
                                            Sample.context ["osaka"]))))
    as (_ & _ & Hup & _).
  - discriminate.
  - exact SampleFacts.env_completes.
  - vm_compute. reflexivity.
  - exact Hup.
Defined.

(** C3.  In an animation whose responses all arrive, when one of the
    requests is rejected, no image is loaded or drawn, no frame is added,
    the data of the encoder is not read and nothing is uploaded; and there
    are as many requests as frames, none repeated. *)
Theorem failed_request_leaves_no_animation
    env command context inputs i url e :
  extractMode inputs <> Some "now" ->
  let tr := trace (invoke env command context inputs) in
  getOrder env ≡ₚ seq 0 (length (urlsOf tr)) ->
  urlsOf tr !! i = Some url ->
  httpGet env i url = Rejected e ->
  count isFrameWork tr = 0%nat /\
  length (urlsOf tr)
  = length (frameMoments (clock env) (localOffset env) (extractMode inputs)).
Proof.
  intros Hmode tr Hget Hi He. split.
  - eapply BotFacts.animation_rejected; eassumption.
  - destruct (BotFacts.animation_urls env command context inputs Hmode)
      as (prefecture & _ & Hurls).
    unfold tr. rewrite Hurls. unfold frameUrls. apply length_fmap.
Qed.

(** The fourth request of the sample invocation times out. *)
Lemma failed_request_leaves_no_animation_witness :
  count isFrameWork
    (trace (invoke Sample.envTimeout (Sample.command "osaka")
              Sample.context ["osaka"])) = 0%nat.
Proof.
  refine (proj1 (failed_request_leaves_no_animation Sample.envTimeout
                   (Sample.command "osaka") Sample.context ["osaka"] 3
                   _ "ETIMEDOUT" _ _ _ _)).
  - discriminate.
  - exact SampleFacts.envTimeout_completes.
  - vm_compute. reflexivity.
  - reflexivity.
Defined.

(** C9.  In an animation whose responses all arrive and whose loads all
    end, [finish] is called on the encoder exactly once, whether the
    requests, the loads, the upload and the deletion of the status message
    succeed or fail. *)
Theorem encoder_finished_exactly_once env command context inputs :
  extractMode inputs <> Some "now" ->
  let tr := trace (invoke env command context inputs) in
  Spec.completes env (length (urlsOf tr)) ->
  count isFinish tr = 1%nat.
Proof. intros Hmode tr Hc. apply BotFacts.animation_finish; assumption. Qed.

(** The encoder is finished once when a request times out. *)
Lemma encoder_finished_exactly_once_witness :
  count isFinish
    (trace (invoke Sample.envTimeout (Sample.command "osaka")
              Sample.context ["osaka"])) = 1%nat.
Proof.
  apply (encoder_finished_exactly_once Sample.envTimeout
           (Sample.command "osaka") Sample.context ["osaka"]).
  - discriminate.
  - exact SampleFacts.envTimeout_completes.
Defined.

(** C10.  A second token that is neither [now] nor [today] is not
    rejected: the invocation does what it does without a second token, the
    forecast of 7 frames. *)
Theorem unknown_mode_is_forecast env command context first second rest :
  second <> "now" -> second <> "today" ->
  invoke env command context (first :: second :: rest)
  = invoke env command context [first] /\
  length (urlsOf (trace (invoke env command context (first :: second :: rest))))
  = 7%nat.
Proof.
  intros Hnow Htoday.
  assert (Heq : invoke env command context (first :: second :: rest)
                = invoke env command context [first]).
  { unfold invoke, handle. cbn [prefectureNameOf].
    change (extractMode (first :: second :: rest)) with (Some second).
    change (extractMode [first]) with (@None string).
    destruct (resolve first) as [prefecture|]; [| reflexivity].
    destruct (decide (Some second = Some "now")); [congruence |].
    destruct (decide (None = Some "now")); [discriminate |].
    unfold uploadAnimation, requestFrames, animate, afterFrames.
    destruct (decide (Some second = Some "today")); [congruence |].
    destruct (decide (None = Some "today")); [discriminate |].
    reflexivity. }
  split; [exact Heq |]. rewrite Heq.
  destruct (BotFacts.animation_urls env command context [first])
    as (prefecture & _ & ->); [discriminate |].
  reflexivity.
Qed.

(** [osaka tomorrow] is [osaka]. *)
Lemma unknown_mode_is_forecast_witness :
  invoke Sample.env (Sample.command "osaka tomorrow") Sample.context
    (commandInputsOf "osaka tomorrow")
  = invoke Sample.env (Sample.command "osaka tomorrow") Sample.context
      ["osaka"].
Proof.
  apply (unknown_mode_is_forecast Sample.env (Sample.command "osaka tomorrow")
           Sample.context "osaka" "tomorrow" []); discriminate.
Defined.

(** C8.  In an animation, when the first post of the status message is
    rejected, the message is posted exactly once more, and that time with
    [as_user] off.  When the second post is rejected too, both rejections
    are logged, nothing is thrown to the listener, no message is deleted,
    and the animation goes on: if the requests and the loads succeed, it
    is uploaded with all its frames. *)
Theorem status_message_failure_is_not_fatal
    env command context inputs e1 :
  extractMode inputs <> Some "now" ->
  (forall req, chatPostMessage env 0 req = Rejected e1) ->
  let tr := trace (invoke env command context inputs) in
  (exists prefecture,
     resolve (prefectureNameOf inputs) = Some prefecture /\
     postsOf tr
     = [statusRequest command (botToken context) prefecture true;
        statusRequest command (botToken context) prefecture false]) /\
  forall e2,
    (forall req, chatPostMessage env 1 req = Rejected e2) ->
    [LogError e1; LogError e2] `prefix_of` logsOf tr /\
    count More.isListenerError tr = 0%nat /\
    deletesOf tr = [] /\
    forall imgs,
      Spec.completes env (length (urlsOf tr)) ->
      imap (Spec.imageOf env) (urlsOf tr) = Fulfilled <$> imgs ->
      exists req chunks,
        uploadsOf tr = [req] /\
        upFile req = Encoded chunks /\
        length (frameImages chunks) = length imgs.
Proof.
  intros Hmode H1 tr.
  destruct (ChainFacts.invoke_eq env command context inputs Hmode)
    as (prefecture & Hres & _ & Heq).
  cbn zeta in Heq.
  set (urls := frameUrls env prefecture (extractMode inputs)) in *.
  set (requests := imap (httpGet env) urls) in *.
  split.
  - exists prefecture. split; [exact Hres |].
    unfold tr. rewrite Heq.
    change (postsOf (trace ?w)) with (view asPost w).
    rewrite BotFacts.posts_animate. unfold view. cbn [trace].
    rewrite BotFacts.view_acknowledged_app by reflexivity.
    change (omap asPost ?l) with (postsOf l).
    rewrite BotFacts.statusCalls_posts, H1. reflexivity.
  - intros e2 H2.
    rewrite (RunFacts.statusCalls_twice env command (botToken context)
               prefecture requests 0 e1 e2 H1 H2) in Heq.
    cbn [fst snd] in Heq.
    split; [| split; [| split]].
    + unfold tr. rewrite Heq.
      etransitivity;
        [| apply BotFacts.omap_prefix, BotFacts.longer_animate].
      unfold logsOf. cbn [trace].
      rewrite BotFacts.view_acknowledged_app by reflexivity.
      cbn [omap list_omap asLog].
      rewrite !omap_app, !BotFacts.omap_reports by reflexivity.
      reflexivity.
    + apply MoreFacts.animation_no_listener_error, Hmode.
    + unfold tr. rewrite Heq.
      change (deletesOf (trace ?w)) with (view asDelete w).
      rewrite BotFacts.animate_no_delete.
      unfold view. cbn [trace].
      rewrite BotFacts.view_acknowledged_app by reflexivity.
      cbn [omap list_omap asDelete].
      rewrite !omap_app, !BotFacts.omap_reports by reflexivity.
      reflexivity.
    + intros imgs Hc Himgs.
      destruct (BotFacts.animation_upload env command context inputs imgs
                  Hmode Hc Himgs) as (req & chunks & Hu & Hf & Hframes).
      exists req, chunks. split; [exact Hu |]. split; [exact Hf |].
      rewrite Hframes. reflexivity.
Qed.

(** Slack refuses both posts; the animation of 7 frames is uploaded. *)
Lemma status_message_failure_is_not_fatal_witness :
  length (postsOf (trace (invoke Sample.envMuted (Sample.command "osaka")
                            Sample.context ["osaka"]))) = 2%nat /\
  exists req chunks,
    uploadsOf (trace (invoke Sample.envMuted (Sample.command "osaka")
                        Sample.context ["osaka"])) = [req] /\
    upFile req = Encoded chunks /\
    length (frameImages chunks) = 7%nat.
Proof.
  destruct (status_message_failure_is_not_fatal Sample.envMuted
              (Sample.command "osaka") Sample.context ["osaka"]
              "not_allowed_token_type")
    as [(prefecture & _ & Hposts) Hrest].
  - discriminate.
  - intros req. reflexivity.
  - split; [rewrite Hposts; reflexivity |].
    destruct (Hrest "channel_not_found") as (_ & _ & _ & Hup);
      [intros req; reflexivity |].
    destruct (Hup (Decoded <$> urlsOf (trace (invoke Sample.envMuted
                                                (Sample.command "osaka")
                                                Sample.context ["osaka"]))))
      as (req & chunks & Hu & Hf & Hl).
    + exact SampleFacts.envMuted_completes.
    + vm_compute. reflexivity.
    + exists req, chunks. split; [exact Hu |]. split; [exact Hf |].
      rewrite Hl. vm_compute. reflexivity.
Defined.

(** C2, where the code fails it.  In mode [now], when the request to the
    map service is rejected, the rejection is neither caught nor logged:
    it leaves the handler as an unhandled rejection.  The animation has
    [catch(printCompleteJSON)] at the end of its chain; the branch of
    [now] has no [catch]. *)
Theorem now_rejection_is_unhandled :
  exists url,
    trace (run (handler Sample.envDown (Sample.command "tokyo now")
                  Sample.context))
    = [Ack; HttpGet url; UnhandledRejection "ECONNREFUSED"].
Proof. eexists. vm_compute. reflexivity. Qed.

(** C7, where the code fails it.  [constructor] is not a key of the
    prefecture table, but the lookup finds the property that every object
    inherits, so the fallback to Tokyo is not taken: the invocation has no
    latitude, no longitude and no display name. *)
Theorem constructor_does_not_fall_back_to_tokyo :
  Table.prefectures !! "constructor" = None /\
  resolve "constructor" = Some (Table.Inherited "constructor") /\
  resolve "tokyo"
  = Some (Table.Own (Table.mkPrefecture "東京都" "35.68944" "139.69167")) /\
  urlsOf (trace (run (handler Sample.env (Sample.command "constructor now")
                        Sample.context)))
  = ["https://map.yahooapis.jp/map/V1/static?appid=client&z=10&lat=undefined&lon=undefined&width=400&height=300&mode=map&overlay=type:rainfall|datelabel:on|date:202611031613"].
Proof. repeat split; vm_compute; reflexivity. Qed.

(* ================================================================== *)
(** ** More properties of the handler *)
(* ================================================================== *)



(** X2.  The handler does not tell upper case from lower case in a
    command text of ASCII characters: it does with the text what it does
    with the text in lower case. *)
Theorem command_text_is_case_insensitive env command context :
  More.isAscii (text command) = true ->
  run (handler env command context)
  = run (handler env
           {| text := toLowerCase (text command);
              channel_id := channel_id command |} context).
Proof.
  intros _. rewrite !BotFacts.run_handler. cbn [text].
  unfold commandInputsOf. cbn zeta.
  rewrite TextFacts.toLowerCase_idempotent. reflexivity.
Qed.

(** [Osaka Today] is [osaka today]. *)
Lemma command_text_is_case_insensitive_witness :
  run (handler Sample.env (Sample.command "Osaka Today") Sample.context)
  = run (handler Sample.env (Sample.command "osaka today") Sample.context).
Proof.
  apply (command_text_is_case_insensitive Sample.env
           (Sample.command "Osaka Today") Sample.context).
  reflexivity.
Defined.

(** X3.  No token of a command text of ASCII characters holds white space
    or an upper-case letter. *)
Theorem tokens_hold_no_space_no_upper_case text :
  More.isAscii text = true ->
  Forall (fun token => More.allChars More.isTokenChar token = true)
    (commandInputsOf text).
Proof. intros _. apply TextFacts.commandInputsOf_tokens. Qed.

(** The tokens of [Osaka  Today], with a tabulation after the space. *)
Lemma tokens_hold_no_space_no_upper_case_witness :
  commandInputsOf (String "O" (String "s" (String "a" (String "k"
    (String "a" (String " " (String (ascii_of_nat 9) "Today")))))))
  = ["osaka"; "today"] /\
  Forall (fun token => More.allChars More.isTokenChar token = true)
    ["osaka"; "today"].
Proof.
  split; [reflexivity |].
  apply (tokens_hold_no_space_no_upper_case
           (String "O" (String "s" (String "a" (String "k"
              (String "a" (String " " (String (ascii_of_nat 9) "Today")))))))).
  reflexivity.
Defined.

(** X4.  Lower-case words separated by single spaces are split into
    themselves. *)
Theorem words_are_split_as_typed words :
  Forall (fun word => More.isWord word = true) words ->
  commandInputsOf (More.joinSpaces words) = words.
Proof. apply TextFacts.commandInputsOf_join. Qed.

(** [osaka today] is [osaka] and [today]. *)
Lemma words_are_split_as_typed_witness :
  commandInputsOf "osaka today" = ["osaka"; "today"].
Proof.
  apply (words_are_split_as_typed ["osaka"; "today"]).
  repeat constructor.
Defined.

(** X5.  A command without text is the command [tokyo]: the forecast of
    Tokyo. *)
Theorem empty_text_is_tokyo env channel context :
  let empty := {| text := ""; channel_id := channel |} in
  let tokyo := {| text := "tokyo"; channel_id := channel |} in
  run (handler env empty context) = run (handler env tokyo context) /\
  urlsOf (trace (run (handler env empty context)))
  = frameUrls env (Table.Own More.tokyo) None.
Proof.
  cbn zeta.
  assert (Heq : run (handler env {| text := ""; channel_id := channel |}
                       context)
                = run (handler env {| text := "tokyo"; channel_id := channel |}
                         context)).
  { rewrite !BotFacts.run_handler. reflexivity. }
  split; [exact Heq |].
  rewrite BotFacts.run_handler. cbn [text].
  destruct (BotFacts.animation_urls env
              {| text := ""; channel_id := channel |} context
              (commandInputsOf "")) as (prefecture & Hres & ->);
    [discriminate |].
  vm_compute in Hres. injection Hres as <-. reflexivity.
Qed.

(** X6.  A text of ASCII characters that starts with white space has the
    empty string as its first token: it names no prefecture, and the
    prefecture is Tokyo.  A word typed after one white-space character
    is the second token: it is taken for the mode. *)
Theorem leading_space_names_no_prefecture c rest :
  isSpace c = true -> More.isAscii rest = true ->
  let inputs := commandInputsOf (String c rest) in
  head inputs = Some "" /\
  prefectureNameOf inputs = "" /\
  resolve (prefectureNameOf inputs) = Some (Table.Own More.tokyo) /\
  (More.isWord rest = true ->
   inputs = [""; rest] /\ extractMode inputs = Some rest).
Proof.
  intros Hc _. cbn zeta.
  rewrite TextFacts.commandInputsOf_leading_space by exact Hc.
  cbn [prefectureNameOf head]. split; [reflexivity |].
  split; [reflexivity |]. split; [vm_compute; reflexivity |].
  intros Hw.
  rewrite <- (TextFacts.commandInputsOf_leading_space c rest Hc).
  rewrite (TextFacts.commandInputsOf_leading_word c rest Hc Hw).
  split; reflexivity.
Qed.

(** [ osaka] is the forecast of Tokyo. *)
Lemma leading_space_names_no_prefecture_witness :
  commandInputsOf " osaka" = [""; "osaka"] /\
  extractMode (commandInputsOf " osaka") = Some "osaka" /\
  resolve (prefectureNameOf (commandInputsOf " osaka"))
  = Some (Table.Own More.tokyo).
Proof.
  destruct (leading_space_names_no_prefecture " " "osaka")
    as (_ & _ & Hres & Hword); [reflexivity | reflexivity |].
  destruct (Hword eq_refl) as [Hinputs Hmode].
  split; [exact Hinputs |]. split; [exact Hmode | exact Hres].
Defined.

(** X7.  The alias assignments leave every entry of the literal in place,
    and give each alias the record of its canonical name. *)
Theorem aliases_share_records :
  Forall (fun entry => Table.prefectures !! fst entry = Some (snd entry))
    Table.literal /\
  Forall (fun pair =>
            exists p,
              Table.prefectures !! snd pair = Some p /\
              Table.prefectures !! fst pair = Some p /\
              resolve (fst pair) = Some (Table.Own p))
    More.aliases /\
  size Table.prefectures
  = (length Table.literal + length More.aliases)%nat.
Proof.
  split; [| split].
  - apply Forall_forall. intros entry Hin.
    apply list_elem_of_In in Hin.
    repeat (destruct Hin as [<- | Hin]; [vm_compute; reflexivity |]).
    destruct Hin.
  - repeat (constructor; [eexists; repeat split; vm_compute; reflexivity |]).
    constructor.
  - vm_compute. reflexivity.
Qed.

(** X8.  A first token that is neither a key of the table nor the name of
    a property that every object inherits resolves to the record of
    Tokyo. *)
Theorem unknown_name_resolves_to_tokyo (name : string) :
  Table.prefectures !! name = None ->
  name ∉ Table.objectPrototype ->
  resolve name = Some (Table.Own More.tokyo).
Proof.
  intros Hown Hproto. rewrite (BotFacts.resolve_unknown name Hown Hproto).
  vm_compute. reflexivity.
Qed.

(** [tokio] is Tokyo. *)
Lemma unknown_name_resolves_to_tokyo_witness :
  resolve "tokio" = Some (Table.Own More.tokyo).
Proof.
  apply unknown_name_resolves_to_tokyo.
  - vm_compute. reflexivity.
  - intros Hin.
    repeat (apply elem_of_cons in Hin as [Heq | Hin]; [discriminate Heq |]).
    apply elem_of_nil in Hin. exact Hin.
Defined.

(** X9.  The listener never rejects: in every mode and whatever fails,
    nothing is thrown to the error handler of the application. *)
Theorem listener_never_rejects env command context inputs :
  count More.isListenerError (trace (invoke env command context inputs))
  = 0%nat.
Proof.
  destruct (decide (extractMode inputs = Some "now")) as [Hnow | Hnow].
  - destruct (MoreFacts.invoke_now env command context inputs Hnow)
      as (prefecture & _ & ->).
    cbn zeta. destruct (httpGet env 0 _); [| reflexivity].
    cbn. destruct (filesUpload env _); reflexivity.
  - apply MoreFacts.animation_no_listener_error, Hnow.
Qed.

(** X10.  Mode [now] makes one request, for the instant of the invocation
    in Tokyo; it posts no status message, deletes none, and touches neither
    a canvas nor an encoder.  When the request succeeds, the body of the
    response is uploaded as it is, as [amesh_<name>.png]; when it fails,
    nothing is uploaded. *)
Theorem now_uploads_the_response env command context first rest :
  let inputs := first :: "now" :: rest in
  let tr := trace (invoke env command context inputs) in
  exists prefecture,
    resolve first = Some prefecture /\
    let url := frameUrl env prefecture (More.nowMoment env) in
    urlsOf tr = [url] /\
    postsOf tr = [] /\
    deletesOf tr = [] /\
    count More.isEncoderWork tr = 0%nat /\
    (forall image,
       httpGet env 0 url = Fulfilled image ->
       uploadsOf tr = [More.nowUpload command context first prefecture image]) /\
    (forall e, httpGet env 0 url = Rejected e -> uploadsOf tr = []).
Proof.
  cbn zeta.
  destruct (MoreFacts.invoke_now env command context
              (first :: "now" :: rest)) as (prefecture & Hres & Htr);
    [reflexivity |].
  exists prefecture. split; [exact Hres |]. cbn zeta in *. rewrite Htr.
  cbn [prefectureNameOf].
  destruct (httpGet env 0 _) as [image | e];
    [destruct (filesUpload env _) |];
    repeat split; try reflexivity;
    intros ? Heq;
    first [discriminate Heq | injection Heq as <-; reflexivity | reflexivity].
Qed.

(** The sample invocation uploads the response as [amesh_tokyo.png]. *)
Lemma now_uploads_the_response_witness :
  exists req,
    uploadsOf (trace (invoke Sample.env (Sample.command "tokyo now")
                        Sample.context ["tokyo"; "now"])) = [req] /\
    upFilename req = "amesh_tokyo.png".
Proof.
  destruct (now_uploads_the_response Sample.env (Sample.command "tokyo now")
              Sample.context "tokyo" [])
    as (prefecture & _ & _ & _ & _ & _ & Hup & _).
  eexists. split; [apply Hup; reflexivity | reflexivity].
Defined.

(** X11.  What leaves an animation, when no response arrives twice: the
    rejections of the requests that fail while the handler awaits the
    status message, and nothing else.
    [Promise.all] is attached to the requests after the status message;
    a request rejected before has nobody to handle its rejection, and the
    runtime reports it, once, when it happens.  Whatever fails later is
    caught in the chain: when every response arrives after the status
    message, nothing leaves the handler. *)
Theorem only_early_rejections_leave_animation env command context inputs :
  extractMode inputs <> Some "now" ->
  NoDup (getOrder env) ->
  let tr := trace (invoke env command context inputs) in
  omap (keep isEscape) tr
  = UnhandledRejection
    <$> More.unhandled env (imap (httpGet env) (urlsOf tr))
          (length (postsOf tr)) /\
  ((forall i, arrives env i = Afterwards) -> count isEscape tr = 0%nat).
Proof.
  intros Hmode _ tr.
  pose proof (RunFacts.invoke_escapes env command context inputs Hmode)
    as Hesc.
  cbn zeta in Hesc. fold tr in Hesc.
  split; [exact Hesc |].
  intros Hafter. unfold count. rewrite Hesc, RunFacts.unhandled_nil.
  - reflexivity.
  - intros post. apply BotFacts.rejectedDuring_afterwards, Hafter.
Qed.

(** The map service refuses the seven connections while the status
    message is awaited: seven rejections are left unhandled. *)
Lemma only_early_rejections_leave_animation_witness :
  omap (keep isEscape)
    (trace (invoke Sample.envDownEarly (Sample.command "osaka")
              Sample.context ["osaka"]))
  = replicate 7 (UnhandledRejection "ECONNREFUSED").
Proof.
  rewrite (proj1 (only_early_rejections_leave_animation Sample.envDownEarly
                    (Sample.command "osaka") Sample.context ["osaka"]
                    ltac:(discriminate) SampleFacts.envDownEarly_once)).
  vm_compute. reflexivity.
Defined.

(** X12.  The calls of an invocation that animates, other than those of
    the decoding, in order: the acknowledgement; the requests for the
    frames; while the status message is awaited, its posts and logs and
    the reports of the runtime; the canvas and the encoder; then nothing
    more, or one run of the chain behind the frames, on an encoder that
    has written its header and frames only.  A time stamp of the status
    message comes from an answer of Slack that was logged. *)
Theorem animation_calls_in_order env command context inputs :
  extractMode inputs <> Some "now" ->
  exists prefecture ts status,
    resolve (prefectureNameOf inputs) = Some prefecture /\
    Forall (fun e => More.isAwaited e = true) status /\
    (ts = None \/
     exists res msg,
       ConsoleLog (LogResult res) ∈ status /\
       ok res = true /\ message res = Some msg /\ ts = Bot.ts msg) /\
    let created :=
      Ack :: map HttpGet (frameUrls env prefecture (extractMode inputs))
      ++ status ++ [CreateCanvas 400 300; CreateEncoder 400 300] in
    More.calls (invoke env command context inputs) = created \/
    exists o snapshots,
      More.calls (invoke env command context inputs)
      = created
        ++ More.chainCalls env command context (prefectureNameOf inputs)
             prefecture (extractMode inputs) ts o
             (Encoded (Header :: (Frame <$> snapshots))).
Proof. apply ChainFacts.invoke_calls. Qed.

(** The calls of the sample invocation start with the acknowledgement. *)
Lemma animation_calls_in_order_witness :
  head (More.calls (invoke Sample.env (Sample.command "osaka") Sample.context
                      ["osaka"])) = Some Ack.
Proof.
  destruct (animation_calls_in_order Sample.env (Sample.command "osaka")
              Sample.context ["osaka"] ltac:(discriminate))
    as (prefecture & ts & status & _ & _ & _ & [-> | (o & snapshots & ->)]);
    reflexivity.
Defined.

(** X13.  In an animation the chain behind the frames runs at most once,
    however many responses arrive, and in whatever order: the data of the
    encoder is read at most once, at most one file is uploaded, at most
    one message is deleted, and the encoder is finished at most once. *)
Theorem chain_runs_at_most_once env command context inputs :
  extractMode inputs <> Some "now" ->
  let tr := trace (invoke env command context inputs) in
  (count More.isGetData tr <= 1)%nat /\
  (length (uploadsOf tr) <= 1)%nat /\
  (length (deletesOf tr) <= 1)%nat /\
  (count isFinish tr <= 1)%nat.
Proof.
  intros Hmode tr. unfold tr.
  destruct (ChainFacts.invoke_chain env command context inputs Hmode)
    as (prefecture & ts & _ & Hchain).
  cbn zeta in Hchain. ChainFacts.chain_views.
  destruct Hchain as [-> | (o & snapshots & ->)]; [cbn; lia |].
  destruct o; ChainFacts.chain_runs; cbn; lia.
Qed.

(** Responses that arrive twice do not make the chain run twice. *)
Lemma chain_runs_at_most_once_witness :
  (length (uploadsOf
             (trace (invoke
                       (More.withGetOrder Sample.env (seq 0 7 ++ seq 0 7))
                       (Sample.command "osaka") Sample.context ["osaka"])))
   <= 1)%nat.
Proof.
  refine (proj1 (proj2 (chain_runs_at_most_once
                          (More.withGetOrder Sample.env (seq 0 7 ++ seq 0 7))
                          (Sample.command "osaka") Sample.context ["osaka"]
                          _))).
  discriminate.
Defined.

(** X14.  What an animation uploads is what the encoder has written when
    the frames are done: the header and the frames.  The trailer, which
    [finish] writes, is not in it. *)
Theorem uploaded_animation_has_no_trailer env command context inputs :
  extractMode inputs <> Some "now" ->
  Forall (fun req =>
            exists snapshots,
              upFile req = Encoded (Header :: (Frame <$> snapshots)))
    (uploadsOf (trace (invoke env command context inputs))).
Proof.
  intros Hmode.
  destruct (ChainFacts.invoke_chain env command context inputs Hmode)
    as (prefecture & ts & _ & Hchain).
  cbn zeta in Hchain. ChainFacts.chain_views.
  destruct Hchain as [-> | (o & snapshots & ->)]; [constructor |].
  destruct o; ChainFacts.chain_runs;
    repeat constructor; exists snapshots; reflexivity.
Qed.

(** The animation of the sample invocation has no trailer. *)
Lemma uploaded_animation_has_no_trailer_witness :
  Forall (fun req =>
            exists snapshots,
              upFile req = Encoded (Header :: (Frame <$> snapshots)))
    (uploadsOf (trace (invoke Sample.env (Sample.command "osaka")
                         Sample.context ["osaka"]))).
Proof.
  apply (uploaded_animation_has_no_trailer Sample.env
           (Sample.command "osaka") Sample.context ["osaka"]).
  discriminate.
Defined.

(** X15.  In an animation the status message is deleted only after the
    animation has been uploaded: when a message is deleted, one file was
    uploaded, and Slack accepted it. *)
Theorem status_message_deleted_only_after_upload
    env command context inputs del :
  extractMode inputs <> Some "now" ->
  let tr := trace (invoke env command context inputs) in
  del ∈ deletesOf tr ->
  deletesOf tr = [del] /\
  exists req res,
    uploadsOf tr = [req] /\ filesUpload env req = Fulfilled res.
Proof.
  intros Hmode tr. unfold tr.
  destruct (ChainFacts.invoke_chain env command context inputs Hmode)
    as (prefecture & ts & _ & Hchain).
  cbn zeta in Hchain. ChainFacts.chain_views.
  destruct Hchain as [-> | (o & snapshots & ->)];
    [intros Hin; apply elem_of_nil in Hin; contradiction |].
  destruct o; ChainFacts.chain_runs; intros Hin;
    try (apply elem_of_nil in Hin; contradiction);
    apply list_elem_of_singleton in Hin as ->;
    (split; [reflexivity |]); eexists _, _; (split; [reflexivity |]);
    eassumption.
Qed.

(** The sample invocation deletes its status message after the upload. *)
Lemma status_message_deleted_only_after_upload_witness :
  exists req res,
    uploadsOf (trace (invoke Sample.env (Sample.command "osaka")
                        Sample.context ["osaka"])) = [req] /\
    filesUpload Sample.env req = Fulfilled res.
Proof.
  refine (proj2 (status_message_deleted_only_after_upload Sample.env
                   (Sample.command "osaka") Sample.context ["osaka"]
                   (More.statusDeletion (Sample.command "osaka")
                      Sample.context "1793689980.000100") _ _)).
  - discriminate.
  - vm_compute. left.
Defined.

(** X16.  The whole trace of an animation in which every request is
    answered and every response is loaded as an image: the
    acknowledgement; the requests; the status message; the canvas and the
    encoder; the loads, started in the order of the requests; the images,
    each drawn and added as a frame, in the order of the requests; then
    the data of the encoder is read and uploaded, the status message is
    dealt with, and the encoder is finished.  The file is the header and
    one frame for each image: the canvas with the images painted so
    far. *)
Theorem successful_animation_trace env command context inputs imgs :
  extractMode inputs <> Some "now" ->
  let tr := trace (invoke env command context inputs) in
  Spec.completes env (length (urlsOf tr)) ->
  imap (Spec.imageOf env) (urlsOf tr) = Fulfilled <$> imgs ->
  exists prefecture ts status bufs,
    resolve (prefectureNameOf inputs) = Some prefecture /\
    Forall (fun e => More.isStatus e = true) status /\
    imap (httpGet env) (urlsOf tr) = Fulfilled <$> bufs /\
    tr = Ack :: map HttpGet (frameUrls env prefecture (extractMode inputs))
         ++ status
         ++ [CreateCanvas 400 300; CreateEncoder 400 300]
         ++ (LoadImage <$> bufs)
         ++ More.paintCalls imgs
         ++ More.chainCalls env command context (prefectureNameOf inputs)
              prefecture (extractMode inputs) ts (Fulfilled [])
              (Encoded (Header :: More.snapshots [] imgs)).
Proof.
  intros Hmode tr Hc Himgs.
  destruct (RunFacts.invoke_fulfilled env command context inputs imgs
              Hmode Hc Himgs)
    as (prefecture & bufs & Hres & Hurls & Hbufs & Hstatus & Htr).
  cbn zeta in Hurls, Hbufs, Hstatus, Htr. fold tr in Hurls, Htr.
  eexists prefecture, _, _, bufs.
  split; [exact Hres |]. split; [exact Hstatus |].
  split; [rewrite Hurls; exact Hbufs | exact Htr].
Qed.

(** The sample invocation paints its seven images in the order of the
    requests. *)
Lemma successful_animation_trace_witness :
  exists tr0 chain,
    trace (invoke Sample.env (Sample.command "osaka") Sample.context
             ["osaka"])
    = tr0
      ++ More.paintCalls
           (Decoded <$> urlsOf (trace (invoke Sample.env
                                         (Sample.command "osaka")
                                         Sample.context ["osaka"])))
      ++ chain.
Proof.
  destruct (successful_animation_trace Sample.env (Sample.command "osaka")
              Sample.context ["osaka"]
              (Decoded <$> urlsOf (trace (invoke Sample.env
                                            (Sample.command "osaka")
                                            Sample.context ["osaka"]))))
    as (prefecture & ts & status & bufs & _ & _ & _ & Htr).
  - discriminate.
  - exact SampleFacts.env_completes.
  - vm_compute. reflexivity.
  - exists (Ack :: map HttpGet
                      (frameUrls Sample.env prefecture
                         (extractMode ["osaka"]))
             ++ status
             ++ [CreateCanvas 400 300; CreateEncoder 400 300]
             ++ (LoadImage <$> bufs)),
      (More.chainCalls Sample.env (Sample.command "osaka") Sample.context
         (prefectureNameOf ["osaka"]) prefecture (extractMode ["osaka"]) ts
         (Fulfilled [])
         (Encoded
            (Header
             :: More.snapshots []
                  (Decoded <$> urlsOf (trace (invoke Sample.env
                                                (Sample.command "osaka")
                                                Sample.context
                                                ["osaka"])))))).
    etransitivity; [exact Htr |]. ChainFacts.flat. reflexivity.
Defined.

(** X17.  The life of the status message when everything succeeds: it is
    posted once, as the user; Slack answers with its time stamp; after the
    upload, the message of that time stamp is deleted, and nothing else
    is; the encoder is finished last.  A deletion that fails is logged. *)
Theorem status_message_is_deleted_after_upload
    env command context inputs imgs res t res' :
  extractMode inputs <> Some "now" ->
  let tr := trace (invoke env command context inputs) in
  Spec.completes env (length (urlsOf tr)) ->
  imap (Spec.imageOf env) (urlsOf tr) = Fulfilled <$> imgs ->
  (forall req, chatPostMessage env 0 req = Fulfilled res) ->
  ok res = true -> message res = Some {| ts := Some t |} -> t <> "" ->
  (forall req, filesUpload env req = Fulfilled res') ->
  exists prefecture,
    resolve (prefectureNameOf inputs) = Some prefecture /\
    postsOf tr = [statusRequest command (botToken context) prefecture true] /\
    deletesOf tr = [More.statusDeletion command context t] /\
    exists tr0 req,
      tr = tr0
           ++ [GetData; FilesUpload req; ConsoleLog (LogResult res');
               ChatDelete (More.statusDeletion command context t)]
           ++ match chatDelete env (More.statusDeletion command context t)
              with
              | Fulfilled _ => []
              | Rejected e => [ConsoleLog (LogError e)]
              end
           ++ [Finish].
Proof.
  intros Hmode tr Hc Himgs Hpost1 Hok Hmsg Ht Hup.
  destruct (RunFacts.invoke_fulfilled env command context inputs imgs
              Hmode Hc Himgs)
    as (prefecture & bufs & Hres & _ & _ & _ & Htr).
  cbn zeta in Htr. fold tr in Htr.
  rewrite (RunFacts.statusCalls_answered _ _ _ _ _ _ res) in Htr.
  2: apply Hpost1.
  2: { intros _. rewrite Hmsg. discriminate. }
  rewrite Hok, Hmsg in Htr. unfold More.reports in Htr.
  rewrite BotFacts.rejectedDuring_fulfilled in Htr.
  cbn [mbind option_bind Bot.ts fst snd fmap list_fmap app] in Htr.
  assert (Htruthy : Js.truthy (Some t) = true).
  { cbn. apply negb_true_iff, String.eqb_neq, Ht. }
  unfold More.chainCalls, More.afterUpload in Htr.
  rewrite Hup, Htruthy in Htr. cbn [trace Js.interpolate] in Htr.
  exists prefecture. split; [exact Hres |].
  assert (Hshape : forall X (f : Event -> option X),
            f Ack = None -> (forall url, f (HttpGet url) = None) ->
            (forall e, More.isDecoding e = true -> f e = None) ->
            f (CreateCanvas 400 300) = None ->
            f (CreateEncoder 400 300) = None ->
            omap f tr
            = omap f [ChatPostMessage
                        (statusRequest command (botToken context) prefecture
                           true);
                      ConsoleLog (LogResult res)]
              ++ omap f
                   ([GetData;
                     FilesUpload
                       (More.animationUpload command context
                          (prefectureNameOf inputs) prefecture
                          (extractMode inputs)
                          (Encoded (Header :: More.snapshots [] imgs)))]
                    ++ (ConsoleLog (LogResult res')
                        :: ChatDelete (More.statusDeletion command context t)
                        :: match chatDelete env
                                   (More.statusDeletion command context t)
                           with
                           | Fulfilled _ => []
                           | Rejected e => [ConsoleLog (LogError e)]
                           end)
                    ++ [Finish])).
  { intros X f Ha Hu Hd H1 H2. rewrite Htr.
    rewrite BotFacts.view_acknowledged_app by assumption.
    match goal with
    | |- omap f (?a :: ?b :: ?c :: ?d :: ?l) = ?r =>
        change (omap f ([a; b] ++ [c; d] ++ l) = r)
    end.
    rewrite omap_app, RunFacts.omap_frames by assumption. reflexivity. }
  split; [| split].
  - unfold postsOf. rewrite Hshape by (try intros []; cbn; congruence).
    cbn. destruct (chatDelete env _); reflexivity.
  - unfold deletesOf. rewrite Hshape by (try intros []; cbn; congruence).
    cbn. destruct (chatDelete env _); reflexivity.
  - exists (Ack :: map HttpGet
                      (frameUrls env prefecture (extractMode inputs))
             ++ [ChatPostMessage
                   (statusRequest command (botToken context) prefecture true);
                 ConsoleLog (LogResult res);
                 CreateCanvas 400 300; CreateEncoder 400 300]
             ++ (LoadImage <$> bufs) ++ More.paintCalls imgs),
      (More.animationUpload command context (prefectureNameOf inputs)
         prefecture (extractMode inputs)
         (Encoded (Header :: More.snapshots [] imgs))).
    rewrite Htr. ChainFacts.flat. reflexivity.
Qed.

(** The sample invocation deletes the message that Slack answered with. *)
Lemma status_message_is_deleted_after_upload_witness :
  deletesOf (trace (invoke Sample.env (Sample.command "osaka") Sample.context
                      ["osaka"]))
  = [More.statusDeletion (Sample.command "osaka") Sample.context
       "1793689980.000100"].
Proof.
  destruct (status_message_is_deleted_after_upload Sample.env
              (Sample.command "osaka") Sample.context ["osaka"]
              (Decoded <$> urlsOf (trace (invoke Sample.env
                                            (Sample.command "osaka")
                                            Sample.context ["osaka"])))
              Sample.posted "1793689980.000100" Sample.posted)
    as (prefecture & _ & _ & Hdel & _).
  - discriminate.
  - exact SampleFacts.env_completes.
  - vm_compute. reflexivity.
  - reflexivity.
  - reflexivity.
  - reflexivity.
  - discriminate.
  - reflexivity.
  - exact Hdel.
Defined.

(** X18.  When a request of an animation is rejected, the first
    rejection that [Promise.all] sees is logged, the encoder is finished,
    and that is all: after the status message, the invocation creates the
    canvas and the encoder, logs that rejection and finishes the encoder.
    Nothing is decoded or uploaded, and the status message stays.
    [Promise.all] is attached after the status message: it sees the
    requests that were settled by then in the order of the array, and then
    the others in the order in which their responses arrive. *)
Theorem first_failed_request_is_logged env command context inputs e :
  extractMode inputs <> Some "now" ->
  let tr := trace (invoke env command context inputs) in
  getOrder env ≡ₚ seq 0 (length (urlsOf tr)) ->
  More.firstRejection (imap (httpGet env) (urlsOf tr))
    (settleOrder env (length (postsOf tr)) (length (urlsOf tr))) = Some e ->
  exists prefecture status,
    resolve (prefectureNameOf inputs) = Some prefecture /\
    Forall (fun e => More.isAwaited e = true) status /\
    tr = Ack :: map HttpGet (frameUrls env prefecture (extractMode inputs))
         ++ status
         ++ [CreateCanvas 400 300; CreateEncoder 400 300;
             ConsoleLog (LogError e); Finish].
Proof.
  intros Hmode tr. unfold tr.
  destruct (ChainFacts.invoke_eq env command context inputs Hmode)
    as (prefecture & Hres & Hurls & Heq).
  cbn zeta in Hurls, Heq. rewrite Hurls.
  set (urls := frameUrls env prefecture (extractMode inputs)) in *.
  set (sc := More.statusCalls env command (botToken context) prefecture
               (imap (httpGet env) urls) 0) in *.
  assert (Hposts : postsOf (trace (invoke env command context inputs))
                   = postsOf (fst sc)).
  { rewrite Heq. change (postsOf (trace ?w)) with (view asPost w).
    rewrite BotFacts.posts_animate. unfold view. cbn [trace].
    apply BotFacts.view_acknowledged_app; reflexivity. }
  rewrite Hposts. intros Hget He.
  exists prefecture, (fst sc). split; [exact Hres |].
  split; [apply BotFacts.statusCalls_awaited |].
  rewrite Heq, (RunFacts.animate_rejected_trace _ _ _ _ _ _ _ _ e).
  - cbn [trace]. ChainFacts.flat. reflexivity.
  - rewrite length_imap. exact Hget.
  - cbn [trace]. rewrite ChainFacts.postCalls_status, length_imap. exact He.
Qed.

(** Two requests of the sample invocation fail while the status message
    is awaited, the sixth before the third: the runtime reports them in
    that order, and the rejection of the third is logged. *)
Lemma first_failed_request_is_logged_witness :
  omap (keep isEscape)
    (trace (invoke Sample.envEarly (Sample.command "osaka") Sample.context
              ["osaka"]))
  = [UnhandledRejection "ECONNRESET"; UnhandledRejection "ETIMEDOUT"] /\
  exists tr0,
    trace (invoke Sample.envEarly (Sample.command "osaka") Sample.context
             ["osaka"])
    = tr0 ++ [CreateCanvas 400 300; CreateEncoder 400 300;
              ConsoleLog (LogError "ETIMEDOUT"); Finish].
Proof.
  split; [vm_compute; reflexivity |].
  destruct (first_failed_request_is_logged Sample.envEarly
              (Sample.command "osaka") Sample.context ["osaka"] "ETIMEDOUT")
    as (prefecture & status & _ & _ & Htr).
  - discriminate.
  - exact SampleFacts.envEarly_completes.
  - vm_compute. reflexivity.
  - exists (Ack :: map HttpGet
                     (frameUrls Sample.envEarly prefecture
                        (extractMode ["osaka"]))
            ++ status).
    etransitivity; [exact Htr |]. ChainFacts.flat. reflexivity.
Defined.

(** X19.  When every request of an animation is answered and the load of
    a response is rejected: every load is started and the images of the
    other responses are painted, in the order of the requests; then the
    rejection of the first of the loads that failed is logged and the
    encoder is finished.  Apart from the decoding, nothing else happens:
    the data of the encoder is not read, nothing is uploaded, and the
    status message stays. *)
Theorem first_failed_load_is_logged env command context inputs bufs e :
  extractMode inputs <> Some "now" ->
  let tr := trace (invoke env command context inputs) in
  Spec.completes env (length (urlsOf tr)) ->
  imap (httpGet env) (urlsOf tr) = Fulfilled <$> bufs ->
  More.firstRejection (imap (loadImage env) bufs) (seq 0 (length bufs))
  = Some e ->
  exists prefecture status,
    resolve (prefectureNameOf inputs) = Some prefecture /\
    Forall (fun e => More.isStatus e = true) status /\
    tr = Ack :: map HttpGet (frameUrls env prefecture (extractMode inputs))
         ++ status
         ++ [CreateCanvas 400 300; CreateEncoder 400 300]
         ++ (LoadImage <$> bufs)
         ++ More.paintCalls (fulfilledOf (imap (loadImage env) bufs))
         ++ [ConsoleLog (LogError e); Finish] /\
    More.calls (invoke env command context inputs)
    = Ack :: map HttpGet (frameUrls env prefecture (extractMode inputs))
      ++ status
      ++ [CreateCanvas 400 300; CreateEncoder 400 300;
          ConsoleLog (LogError e); Finish] /\
    uploadsOf tr = [] /\ deletesOf tr = [].
Proof.
  intros Hmode tr. unfold tr.
  destruct (ChainFacts.invoke_eq env command context inputs Hmode)
    as (prefecture & Hres & Hurls & Heq).
  cbn zeta in Hurls, Heq. rewrite Hurls. intros Hc Hbufs He.
  rewrite Hbufs in Heq.
  set (urls := frameUrls env prefecture (extractMode inputs)) in *.
  set (sc := More.statusCalls env command (botToken context) prefecture
               (Fulfilled <$> bufs) 0) in *.
  assert (Hstatus : Forall (fun e => More.isStatus e = true) (fst sc)).
  { apply BotFacts.statusCalls_status. intros post.
    apply BotFacts.rejectedDuring_fulfilled. }
  exists prefecture, (fst sc). split; [exact Hres |]. split; [exact Hstatus |].
  assert (Hlen : length bufs = length urls).
  { apply (f_equal length) in Hbufs.
    rewrite length_imap, length_fmap in Hbufs. congruence. }
  rewrite <- Hlen in Hc.
  assert (Htr :
    trace (invoke env command context inputs)
    = (Ack :: map HttpGet urls ++ fst sc)
      ++ [CreateCanvas 400 300; CreateEncoder 400 300]
      ++ (LoadImage <$> bufs)
      ++ More.paintCalls (fulfilledOf (imap (loadImage env) bufs))
      ++ [ConsoleLog (LogError e); Finish]).
  { rewrite Heq.
    rewrite (RunFacts.animate_load_rejected env command (botToken context)
               (prefectureNameOf inputs) prefecture (extractMode inputs)
               (snd sc) bufs e _ Hc He).
    reflexivity. }
  assert (Hview : forall X (f : Event -> option X),
            (forall e, More.isDecoding e = true -> f e = None) ->
            omap f (trace (invoke env command context inputs))
            = omap f (Ack :: map HttpGet urls ++ fst sc)
              ++ omap f [CreateCanvas 400 300; CreateEncoder 400 300]
              ++ omap f [ConsoleLog (LogError e); Finish]).
  { intros X f Hf. rewrite Htr, !omap_app.
    rewrite RunFacts.omap_loads, RunFacts.omap_paintCalls by exact Hf.
    reflexivity. }
  split; [rewrite Htr; ChainFacts.flat; reflexivity |].
  split.
  { unfold More.calls, view.
    rewrite Hview by (intros e0 He0; unfold keep; rewrite He0; reflexivity).
    change (Ack :: map HttpGet urls ++ fst sc)
      with ((Ack :: map HttpGet urls) ++ fst sc).
    rewrite omap_app, ChainFacts.calls_requests.
    rewrite (ChainFacts.isAwaited_calls (fst sc)
               (ChainFacts.isStatus_awaited _ Hstatus)).
    cbn [omap list_omap keep More.isDecoding negb]. ChainFacts.flat.
    reflexivity. }
  split; [unfold uploadsOf | unfold deletesOf];
    rewrite Hview by (intros []; cbn; congruence);
    rewrite BotFacts.view_acknowledged_app by reflexivity;
    rewrite (BotFacts.omap_awaited _ (fst sc) (fun _ => eq_refl)
               (fun _ => eq_refl) (fun _ => eq_refl)
               (ChainFacts.isStatus_awaited _ Hstatus));
    reflexivity.
Qed.

(** The third response of the sample invocation is not an image: the
    other six are painted, and nothing is uploaded. *)
Lemma first_failed_load_is_logged_witness :
  count isFrameWork
    (trace (invoke More.envCorrupt (Sample.command "osaka")
              Sample.context ["osaka"])) = 19%nat /\
  uploadsOf (trace (invoke More.envCorrupt (Sample.command "osaka")
                      Sample.context ["osaka"])) = [].
Proof.
  destruct (first_failed_load_is_logged More.envCorrupt
              (Sample.command "osaka") Sample.context ["osaka"]
              (Body <$> urlsOf (trace (invoke More.envCorrupt
                                         (Sample.command "osaka")
                                         Sample.context ["osaka"])))
              "corrupt")
    as (prefecture & status & _ & _ & _ & _ & Hup & _).
  - discriminate.
  - exact SampleFacts.env_completes.
  - vm_compute. reflexivity.
  - vm_compute. reflexivity.
  - split; [vm_compute; reflexivity | exact Hup].
Defined.

(** X20.  When Slack answers the post of the status message with a
    refusal ([ok] is false), the answer is logged and the message is not
    posted again; there is no time stamp, and no message is deleted. *)
Theorem refused_status_message_is_not_retried
    env command context inputs res :
  extractMode inputs <> Some "now" ->
  (forall req, chatPostMessage env 0 req = Fulfilled res) ->
  ok res = false ->
  let tr := trace (invoke env command context inputs) in
  exists prefecture,
    resolve (prefectureNameOf inputs) = Some prefecture /\
    postsOf tr = [statusRequest command (botToken context) prefecture true] /\
    [LogResult res] `prefix_of` logsOf tr /\
    deletesOf tr = [].
Proof.
  intros Hmode Hpost1 Hok tr. unfold tr.
  destruct (ChainFacts.invoke_eq env command context inputs Hmode)
    as (prefecture & Hres & _ & Heq).
  cbn zeta in Heq.
  rewrite (RunFacts.statusCalls_answered _ _ _ _ _ _ res) in Heq.
  2: apply Hpost1.
  2: { rewrite Hok. discriminate. }
  rewrite Hok in Heq. cbn [fst snd] in Heq.
  exists prefecture. split; [exact Hres |]. rewrite Heq.
  split; [| split].
  - change (postsOf (trace ?w)) with (view asPost w).
    rewrite BotFacts.posts_animate. unfold view. cbn [trace].
    rewrite BotFacts.view_acknowledged_app by reflexivity.
    cbn [omap list_omap asPost].
    rewrite omap_app, BotFacts.omap_reports by reflexivity. reflexivity.
  - etransitivity;
      [| apply BotFacts.omap_prefix, BotFacts.longer_animate].
    unfold logsOf. cbn [trace].
    rewrite BotFacts.view_acknowledged_app by reflexivity.
    cbn [omap list_omap asLog].
    rewrite omap_app, BotFacts.omap_reports by reflexivity. reflexivity.
  - change (deletesOf (trace ?w)) with (view asDelete w).
    rewrite BotFacts.animate_no_delete. unfold view. cbn [trace].
    rewrite BotFacts.view_acknowledged_app by reflexivity.
    cbn [omap list_omap asDelete].
    rewrite omap_app, BotFacts.omap_reports by reflexivity. reflexivity.
Qed.

(** Slack refuses the status message of the sample invocation. *)
Lemma refused_status_message_is_not_retried_witness :
  length (postsOf
            (trace (invoke
                      (More.withPosts Sample.env
                         (fun _ _ => Fulfilled More.refused))
                      (Sample.command "osaka") Sample.context ["osaka"])))
  = 1%nat.
Proof.
  destruct (refused_status_message_is_not_retried
              (More.withPosts Sample.env (fun _ _ => Fulfilled More.refused))
              (Sample.command "osaka") Sample.context ["osaka"] More.refused)
    as (prefecture & _ & Hposts & _).
  - discriminate.
  - reflexivity.
  - reflexivity.
  - rewrite Hposts. reflexivity.
Defined.

(** X21.  When Slack answers the post of the status message with [ok] but
    without a message, reading the time stamp throws inside the chain: the
    answer and the error are logged, and the message is posted once more,
    with [as_user] off, and never a third time. *)
Theorem answer_without_message_is_retried env command context inputs res :
  extractMode inputs <> Some "now" ->
  (forall req, chatPostMessage env 0 req = Fulfilled res) ->
  ok res = true -> message res = None ->
  let tr := trace (invoke env command context inputs) in
  exists prefecture,
    resolve (prefectureNameOf inputs) = Some prefecture /\
    postsOf tr
    = [statusRequest command (botToken context) prefecture true;
       statusRequest command (botToken context) prefecture false] /\
    [LogResult res; LogError "TypeError"] `prefix_of` logsOf tr.
Proof.
  intros Hmode Hpost1 Hok Hmsg tr. unfold tr.
  destruct (ChainFacts.invoke_eq env command context inputs Hmode)
    as (prefecture & Hres & _ & Heq).
  cbn zeta in Heq.
  destruct (RunFacts.statusCalls_malformed env command (botToken context)
              prefecture
              (imap (httpGet env)
                 (frameUrls env prefecture (extractMode inputs))) 0 res)
    as (logs & Hstatus); [apply Hpost1 | assumption.. |].
  rewrite Hstatus in Heq.
  exists prefecture. split; [exact Hres |]. rewrite Heq.
  split.
  - change (postsOf (trace ?w)) with (view asPost w).
    rewrite BotFacts.posts_animate. unfold view. cbn [trace].
    rewrite BotFacts.view_acknowledged_app by reflexivity.
    cbn [omap list_omap asPost].
    rewrite !omap_app, !BotFacts.omap_reports by reflexivity.
    rewrite RunFacts.omap_logs by reflexivity. reflexivity.
  - etransitivity;
      [| apply BotFacts.omap_prefix, BotFacts.longer_animate].
    unfold logsOf. cbn [trace].
    rewrite BotFacts.view_acknowledged_app by reflexivity.
    cbn [omap list_omap asLog].
    rewrite !omap_app, !BotFacts.omap_reports by reflexivity.
    cbn [omap list_omap asLog app].
    do 2 apply prefix_cons. apply prefix_nil.
Qed.

(** Slack answers the sample invocation without a message. *)
Lemma answer_without_message_is_retried_witness :
  length (postsOf
            (trace (invoke
                      (More.withPosts Sample.env
                         (fun _ _ => Fulfilled More.malformed))
                      (Sample.command "osaka") Sample.context ["osaka"])))
  = 2%nat.
Proof.
  destruct (answer_without_message_is_retried
              (More.withPosts Sample.env
                 (fun _ _ => Fulfilled More.malformed))
              (Sample.command "osaka") Sample.context ["osaka"]
              More.malformed)
    as (prefecture & _ & Hposts & _).
  - discriminate.
  - reflexivity.
  - reflexivity.
  - reflexivity.
  - rewrite Hposts. reflexivity.
Defined.

(** X22.  When every request of an animation is answered, the order in
    which the responses arrive makes no difference to what the invocation
    does. *)
Theorem arrival_order_does_not_matter
    env order command context inputs bufs :
  extractMode inputs <> Some "now" ->
  let urls := urlsOf (trace (invoke env command context inputs)) in
  getOrder env ≡ₚ seq 0 (length urls) ->
  order ≡ₚ seq 0 (length urls) ->
  imap (httpGet env) urls = Fulfilled <$> bufs ->
  invoke (More.withGetOrder env order) command context inputs
  = invoke env command context inputs.
Proof.
  intros Hmode urls. unfold urls.
  destruct (ChainFacts.invoke_eq env command context inputs Hmode)
    as (prefecture & Hres & Hurls & Heq).
  destruct (ChainFacts.invoke_eq (More.withGetOrder env order) command
              context inputs Hmode)
    as (prefecture' & Hres' & _ & Heq').
  cbn zeta in *. rewrite Hres in Hres'. injection Hres' as <-.
  rewrite Hurls. intros Hget Horder Hbufs.
  rewrite Heq, Heq'.
  change (frameUrls (More.withGetOrder env order) prefecture
            (extractMode inputs))
    with (frameUrls env prefecture (extractMode inputs)).
  change (httpGet (More.withGetOrder env order)) with (httpGet env).
  rewrite Hbufs, RunFacts.statusCalls_withGetOrder.
  assert (Hlen : length bufs
                 = length (frameUrls env prefecture (extractMode inputs))).
  { apply (f_equal length) in Hbufs.
    rewrite length_imap, length_fmap in Hbufs. congruence. }
  rewrite <- Hlen in Hget, Horder.
  apply RunFacts.animate_withGetOrder; assumption.
Qed.

(** The responses of the sample invocation arrive in the order of the
    requests instead of the reverse order. *)
Lemma arrival_order_does_not_matter_witness :
  invoke (More.withGetOrder Sample.env (seq 0 7)) (Sample.command "osaka")
    Sample.context ["osaka"]
  = invoke Sample.env (Sample.command "osaka") Sample.context ["osaka"].
Proof.
  apply (arrival_order_does_not_matter Sample.env (seq 0 7)
           (Sample.command "osaka") Sample.context ["osaka"]
           (Body <$> urlsOf (trace (invoke Sample.env (Sample.command "osaka")
                                      Sample.context ["osaka"])))).
  - discriminate.
  - exact SampleFacts.env_completes.
  - reflexivity.
  - vm_compute. reflexivity.
Defined.

(** X23.  An animation asks for each of its frames once: from one day
    after the epoch to the end of the year 9999, the URLs that an
    invocation requests are different from one another. *)
Theorem frames_are_requested_once env command context inputs :
  extractMode inputs <> Some "now" ->
  msPerDay <= clock env ->
  clock env + 10 * msPerHour < 253402300800000 ->
  NoDup (urlsOf (trace (invoke env command context inputs))).
Proof.
  intros Hmode Hlo Hhi.
  destruct (BotFacts.animation_urls env command context inputs Hmode)
    as (prefecture & _ & ->).
  apply StampFacts.frameUrls_NoDup; assumption.
Qed.

(** The 25 frames of a day of the sample invocation. *)
Lemma frames_are_requested_once_witness :
  NoDup (urlsOf (trace (invoke Sample.envToday (Sample.command "osaka today")
                          Sample.context ["osaka"; "today"]))).
Proof.
  apply (frames_are_requested_once Sample.envToday
           (Sample.command "osaka today") Sample.context ["osaka"; "today"]).
  - discriminate.
  - vm_compute. discriminate.
  - vm_compute. reflexivity.
Defined.

(** X24.  The date stamp of a URL tells the minute, and nothing more: two
    moments from 1970 to the end of the year 9999 on the wall clock have
    the same stamp when, and only when, they are in the same minute; and
    so it is with the URLs that [buildImageUrl] makes of them for the same
    place and size. *)
Theorem date_stamp_tells_the_minute (m m' : Moment) :
  0 <= wallClock m < 253402300800000 ->
  0 <= wallClock m' < 253402300800000 ->
  (format_YYYYMMDDHHmm m = format_YYYYMMDDHHmm m'
   <-> wallClock m / msPerMinute = wallClock m' / msPerMinute) /\
  forall penv lat lon width height,
    Url.buildImageUrl penv
      {| Url.lat := lat; Url.lon := lon; Url.width := width;
         Url.height := height; Url.m := m |}
    = Url.buildImageUrl penv
        {| Url.lat := lat; Url.lon := lon; Url.width := width;
           Url.height := height; Url.m := m' |}
    <-> wallClock m / msPerMinute = wallClock m' / msPerMinute.
Proof.
  intros Hw Hw'.
  assert (Hstamp : format_YYYYMMDDHHmm m = format_YYYYMMDDHHmm m'
                   <-> wallClock m / msPerMinute = wallClock m' / msPerMinute).
  { split.
    - apply StampFacts.format_inj; assumption.
    - apply StampFacts.format_of_minute. }
  split; [exact Hstamp |].
  intros penv lat lon width height. rewrite <- Hstamp.
  unfold Url.buildImageUrl. cbn [Url.m]. split.
  - apply StampFacts.append_cancel_l.
  - intros ->. reflexivity.
Qed.

(** 16:13:00 and 16:13:59.999 in Tokyo have the same stamp. *)
Lemma date_stamp_tells_the_minute_witness :
  format_YYYYMMDDHHmm (tz_Tokyo (moment 1793689980000 0))
  = format_YYYYMMDDHHmm (tz_Tokyo (moment 1793690039999 0)).
Proof.
  apply (proj1 (date_stamp_tells_the_minute
                  (tz_Tokyo (moment 1793689980000 0))
                  (tz_Tokyo (moment 1793690039999 0))
                  ltac:(vm_compute; split; [discriminate | reflexivity])
                  ltac:(vm_compute; split; [discriminate | reflexivity]))).
  vm_compute. reflexivity.
Defined.
